(** * cf4ocl: the abstract wrapper (src/lib/abstract_wrapper.c)

    A shallow embedding of the generic wrapper layer of cf4ocl: the
    process-wide table of wrappers, the reference count of a wrapper, its
    teardown, and the cache of information objects filled by the two-phase
    "size, then value" query.

    Conventions of the embedding.
    - A pointer is an address in [Z]; [NULL] is [0].  Objects obtained from
      the GLib slice allocator live in typed stores indexed by address; a
      load through an address that holds no live object is undefined
      behaviour in C and makes the embedded function return [None].
    - Every function is a computation in the monad [M] of state and
      undefined behaviour.  A [g_return_if_fail] guard that fires is defined
      behaviour: the function returns its default and changes nothing.
    - A [GHashTable] is a finite map; a table pointer that may be [NULL] is
      an [option] of a map.
    - Calls that leave the core (the OpenCL release and query functions, the
      release function of the concrete wrapper) act on an abstract [World]
      and do not call back into the core; each is also appended to a trace
      of events, together with the steps of the teardown, so that order and
      number of calls can be stated.
    - The lock around the table of wrappers and the atomicity of the
      reference count are not modelled: calls run one after the other. *)

From Stdlib Require Import ZArith List Lia Bool.
From Stdlib Require Import Init.Byte.
From stdpp Require Import base option list gmap fin_maps.

Local Open Scope Z_scope.

(** ** Scalars *)

Definition NULL : Z := 0.
Definition CL_SUCCESS : Z := 0.

Definition cl_bool := bool.
Definition CL_TRUE : cl_bool := true.
Definition CL_FALSE : cl_bool := false.

(** [gint] is a 32-bit signed integer; the atomic operations of GLib wrap
    around. *)
Definition gint_wrap (z : Z) : Z := (z + 2 ^ 31) mod 2 ^ 32 - 2 ^ 31.

Definition g_atomic_int_inc (v : Z) : Z := gint_wrap (v + 1).

(** Decrements and tells whether the new value is zero. *)
Definition g_atomic_int_dec_and_test (v : Z) : Z * bool :=
  let v' := gint_wrap (v - 1) in (v', v' =? 0).

(** [size_t] is a 64-bit unsigned integer. *)
Definition size_t_wrap (z : Z) : Z := z mod 2 ^ 64.

(** ** Errors *)

Inductive ccl_error_code := CCL_ERROR_OCL.

(** The four messages the file formats; each keeps the OpenCL status it
    prints (the text [ccl_err] gives for the status is left out). *)
Inductive error_message :=
| MsgReleaseObject (ocl_status : Z)
| MsgInfoSize (ocl_status : Z)
| MsgInfoSizeZero
| MsgInfoValue (ocl_status : Z).

Record GError := mkGError { code : ccl_error_code; message : error_message }.

(** A [GError** err]: [None] is a [NULL] return location (errors are
    ignored), [Some None] a location holding no error, [Some (Some e)] a
    location that already holds [e]. *)
Definition GErrorLoc := option (option GError).

Definition err_unset (err : GErrorLoc) : bool :=
  match err with Some (Some _) => false | _ => true end.

Definition g_set_error (err : GErrorLoc) (c : ccl_error_code)
    (m : error_message) : GErrorLoc :=
  match err with
  | None => None
  | Some None => Some (Some (mkGError c m))
  | Some (Some e) => Some (Some e)
  end.

(** ** Objects *)

(** Modelled from the spec: the struct [CCLWrapperInfo] is declared in
    abstract_wrapper.h, which is not among the sources.  Its fields are
    those the functions use and the data model lists: [value] and [size]
    ([info_value] and [info_size] here).  [info_bytes] is the contents of
    the buffer [value] points to, which the object owns. *)
Record CCLWrapperInfo := mkInfo {
  info_value : Z;
  info_size : Z;
  info_bytes : list byte
}.

(** Modelled from the spec: the struct [CCLWrapper] is declared in
    abstract_wrapper.h, which is not among the sources.  Its fields are
    those the functions use and the data model lists: the wrapped OpenCL
    object, the table of cached information (from parameter name to
    [CCLWrapperInfo*]), the reference count. *)
Record CCLWrapper := mkWrapper {
  cl_object : Z;
  info : option (gmap Z Z);
  ref_count : Z
}.

Definition with_cl_object (o : Z) (w : CCLWrapper) : CCLWrapper :=
  mkWrapper o (info w) (ref_count w).
Definition with_info (i : option (gmap Z Z)) (w : CCLWrapper) : CCLWrapper :=
  mkWrapper (cl_object w) i (ref_count w).
Definition with_ref_count (n : Z) (w : CCLWrapper) : CCLWrapper :=
  mkWrapper (cl_object w) (info w) n.

(** What [g_slice_alloc0] returns for a wrapper: every field zero. *)
Definition zero_wrapper : CCLWrapper := mkWrapper NULL None 0.

(** ** Events *)

Inductive event :=
| EvReleaseCl (obj : Z) (ocl_status : Z)
| EvInfoDestroy (i : Z)
| EvInfoTableDestroy (wrapper : Z)
| EvWrappersRemove (obj : Z)
| EvWrappersDestroy
| EvReleaseFields (wrapper : Z)
| EvSliceFree (sz : Z) (wrapper : Z)
| EvInfoFun (obj1 : Z) (obj2 : option Z) (param_name : Z)
    (param_value_size : Z) (param_value : Z) (want_size : bool).

(** What a query function leaves behind: its status, the value it stored in
    [*param_value_size_ret] (read only when that pointer was given), and the
    bytes it stored in the buffer (kept only when a buffer was given). *)
Record query_result := mkQuery {
  qr_status : Z;
  qr_size_ret : Z;
  qr_value : list byte
}.

(** The buffer of [n] zero bytes after the query function stored [bs] at its
    start. *)
Definition fill_buffer (n : Z) (bs : list byte) : list byte :=
  take (Z.to_nat n) (bs ++ repeat x00 (Z.to_nat n)).

Section Wrapper.

Context {World : Type}.

(** ** Caller-supplied functions *)

(** Modelled from the spec: the three function types are declared in
    abstract_wrapper.h, which is not among the sources; their shapes are
    those of the calls in the functions below.

    [ccl_wrapper_release_cl_object]: releases the OpenCL object, returns an
    OpenCL status. *)
Definition ccl_wrapper_release_cl_object := World → Z → World * Z.

(** [ccl_wrapper_release_fields]: releases the fields of the concrete
    wrapper; it is handed the wrapper. *)
Definition ccl_wrapper_release_fields := World → Z → World.

(** [ccl_wrapper_info_fp]: an OpenCL [clGet*Info] function.  The C code
    casts it to the one-object shape [ccl_wrapper_info_fp1] or to the
    two-object shape [ccl_wrapper_info_fp2]; here the second object is
    optional.  Arguments: the object(s), the parameter name, the size of the
    buffer, the buffer, whether a location for the size is given. *)
Definition ccl_wrapper_info_fp :=
  World → Z → option Z → Z → Z → Z → bool → World * query_result.

(** ** State *)

Record state := mkState {
  wrappers : option (gmap Z Z);
  wrapper_mem : gmap Z CCLWrapper;
  info_mem : gmap Z CCLWrapperInfo;
  brk : Z;
  world : World;
  trace : list event
}.

Definition M (A : Type) : Type := state → option (A * state).

Definition ret {A} (a : A) : M A := λ s, Some (a, s).

Definition bind {A B} (m : M A) (k : A → M B) : M B :=
  λ s, match m s with
       | Some (a, s') => k a s'
       | None => None
       end.

Definition undefined {A} : M A := λ _, None.

End Wrapper.

Arguments state : clear implicits.
Arguments M : clear implicits.
Arguments ccl_wrapper_release_cl_object : clear implicits.
Arguments ccl_wrapper_release_fields : clear implicits.
Arguments ccl_wrapper_info_fp : clear implicits.

#[global] Instance M_ret {World} : MRet (M World) := λ A, ret.
#[global] Instance M_bind {World} : MBind (M World) := λ A B k m, bind m k.

Section Operations.

Context {World : Type}.

Abbreviation state := (state World).
Abbreviation M := (M World).

(** ** Primitive state operations *)

Definition set_wrappers (t : option (gmap Z Z)) (s : state) : state :=
  mkState t (wrapper_mem s) (info_mem s) (brk s) (world s) (trace s).
Definition set_wrapper_mem (m : gmap Z CCLWrapper) (s : state) : state :=
  mkState (wrappers s) m (info_mem s) (brk s) (world s) (trace s).
Definition set_info_mem (m : gmap Z CCLWrapperInfo) (s : state) : state :=
  mkState (wrappers s) (wrapper_mem s) m (brk s) (world s) (trace s).
Definition set_brk (b : Z) (s : state) : state :=
  mkState (wrappers s) (wrapper_mem s) (info_mem s) b (world s) (trace s).
Definition set_world (w : World) (s : state) : state :=
  mkState (wrappers s) (wrapper_mem s) (info_mem s) (brk s) w (trace s).
Definition set_trace (t : list event) (s : state) : state :=
  mkState (wrappers s) (wrapper_mem s) (info_mem s) (brk s) (world s) t.

(** Reads the wrapper struct at [p]; undefined when [p] holds no live
    wrapper. *)
Definition load_wrapper (p : Z) : M CCLWrapper :=
  λ s, match wrapper_mem s !! p with
       | Some w => Some (w, s)
       | None => None
       end.

(** Writes the wrapper struct at [p]; undefined when [p] holds no live
    wrapper. *)
Definition store_wrapper (p : Z) (w : CCLWrapper) : M unit :=
  λ s, match wrapper_mem s !! p with
       | Some _ => Some (tt, set_wrapper_mem (<[p := w]> (wrapper_mem s)) s)
       | None => None
       end.

Definition load_info (p : Z) : M CCLWrapperInfo :=
  λ s, match info_mem s !! p with
       | Some i => Some (i, s)
       | None => None
       end.

Definition store_info (p : Z) (i : CCLWrapperInfo) : M unit :=
  λ s, match info_mem s !! p with
       | Some _ => Some (tt, set_info_mem (<[p := i]> (info_mem s)) s)
       | None => None
       end.

Definition modify (f : state → state) : M unit :=
  λ s, Some (tt, f s).

Definition emit (e : event) : M unit :=
  modify (λ s, set_trace (trace s ++ [e]) s).

(** The slice allocator hands out an address that no live object has: the
    next one of a counter that only grows.  Running out of memory aborts
    the process in GLib and is not modelled. *)
Definition g_slice_alloc : M Z :=
  λ s, Some (brk s, set_brk (brk s + 1) s).

(** [g_slice_alloc0 (size)] for a wrapper: a fresh, zero-filled struct. *)
Definition g_slice_alloc0_wrapper (sz : Z) : M Z :=
  p ← g_slice_alloc;
  modify (λ s, set_wrapper_mem (<[p := zero_wrapper]> (wrapper_mem s)) s) ;;
  mret p.

(** [g_slice_free1 (size, wrapper)]: the struct at [wrapper] is gone; the
    size the caller passes is not checked against the one it was allocated
    with. *)
Definition g_slice_free1_wrapper (sz : Z) (p : Z) : M unit :=
  load_wrapper p ;;
  emit (EvSliceFree sz p) ;;
  modify (λ s, set_wrapper_mem (delete p (wrapper_mem s)) s).

(** ** GHashTable operations on the static table [wrappers] *)

(** [g_hash_table_lookup (wrappers, key)]: [NULL] when the key is absent. *)
Definition wrappers_lookup (key : Z) : M Z :=
  λ s, match wrappers s with
       | Some t => Some (default NULL (t !! key), s)
       | None => Some (NULL, s)
       end.

(** [g_hash_table_insert (wrappers, key, value)]. *)
Definition wrappers_insert (key value : Z) : M unit :=
  modify (λ s, match wrappers s with
               | Some t => set_wrappers (Some (<[key := value]> t)) s
               | None => s
               end).

(** [g_hash_table_remove (wrappers, key)]. *)
Definition wrappers_remove (key : Z) : M unit :=
  emit (EvWrappersRemove key) ;;
  modify (λ s, match wrappers s with
               | Some t => set_wrappers (Some (delete key t)) s
               | None => s
               end).

(** [g_hash_table_size (wrappers)]; GLib answers 0 for a [NULL] table. *)
Definition wrappers_size : M Z :=
  λ s, match wrappers s with
       | Some t => Some (Z.of_nat (base.size t), s)
       | None => Some (0, s)
       end.

(** [g_hash_table_destroy (wrappers); wrappers = NULL]. *)
Definition wrappers_destroy : M unit :=
  emit EvWrappersDestroy ;;
  modify (set_wrappers None).

(** ** Wrapper information objects *)

(** [ccl_wrapper_info_new]. *)
Definition ccl_wrapper_info_new (sz : Z) : M Z :=
  i ← g_slice_alloc;
  v ← (if 0 <? sz then g_slice_alloc else mret NULL);
  modify (λ s, set_info_mem
     (<[i := mkInfo v sz (repeat x00 (Z.to_nat sz))]> (info_mem s)) s) ;;
  mret i.

(** [ccl_wrapper_info_destroy]. *)
Definition ccl_wrapper_info_destroy (i : Z) : M unit :=
  if decide (i = NULL) then mret tt
  else
    load_info i ;;
    emit (EvInfoDestroy i) ;;
    modify (λ s, set_info_mem (delete i (info_mem s)) s).

(** [g_hash_table_destroy (wrapper->info)]: the table was created with
    [ccl_wrapper_info_destroy] as the function that destroys a value. *)
Fixpoint destroy_values (vs : list Z) : M unit :=
  match vs with
  | [] => mret tt
  | v :: vs' => ccl_wrapper_info_destroy v ;; destroy_values vs'
  end.

Definition info_table_destroy (wrapper : Z) (t : gmap Z Z) : M unit :=
  destroy_values (map snd (map_to_list t)) ;;
  emit (EvInfoTableDestroy wrapper).

(** ** The wrapper functions *)

(** [ccl_wrapper_ref]. *)
Definition ccl_wrapper_ref (wrapper : Z) : M unit :=
  if decide (wrapper = NULL) then mret tt
  else
    w ← load_wrapper wrapper;
    store_wrapper wrapper (with_ref_count (g_atomic_int_inc (ref_count w)) w).

(** [ccl_wrapper_new]. *)
Definition ccl_wrapper_new (obj : Z) (sz : Z) : M Z :=
  if decide (obj = NULL) then mret NULL
  else
    modify (λ s, match wrappers s with
                 | None => set_wrappers (Some ∅) s
                 | Some _ => s
                 end) ;;
    w ← wrappers_lookup obj;
    w ← (if decide (w = NULL) then
           w ← g_slice_alloc0_wrapper sz;
           wr ← load_wrapper w;
           store_wrapper w (with_cl_object obj wr) ;;
           wrappers_insert obj w ;;
           mret w
         else mret w);
    ccl_wrapper_ref w ;;
    mret w.

(** Calls out of the core. *)
Definition call_release_cl (f : ccl_wrapper_release_cl_object World)
    (obj : Z) : M Z :=
  λ s, let '(w', st) := f (world s) obj in
       Some (st, set_trace (trace s ++ [EvReleaseCl obj st]) (set_world w' s)).

Definition call_release_fields (f : ccl_wrapper_release_fields World)
    (wrapper : Z) : M unit :=
  λ s, Some (tt, set_trace (trace s ++ [EvReleaseFields wrapper])
                   (set_world (f (world s) wrapper) s)).

Definition call_info_fun (f : ccl_wrapper_info_fp World) (obj1 : Z)
    (obj2 : option Z) (param_name param_value_size param_value : Z)
    (want_size : bool) : M query_result :=
  λ s, let '(w', r) := f (world s) obj1 obj2 param_name param_value_size
                         param_value want_size in
       Some (r, set_trace
                  (trace s ++ [EvInfoFun obj1 obj2 param_name
                                 param_value_size param_value want_size])
                  (set_world w' s)).

(** [ccl_wrapper_unref].  Returns the flag and what the error location
    holds afterwards. *)
Definition ccl_wrapper_unref (wrapper : Z) (sz : Z)
    (rel_fields_fun : option (ccl_wrapper_release_fields World))
    (rel_cl_fun : option (ccl_wrapper_release_cl_object World))
    (err : GErrorLoc) : M (cl_bool * GErrorLoc) :=
  if decide (wrapper = NULL) then mret (CL_FALSE, err)
  else if negb (err_unset err) then mret (CL_FALSE, err)
  else
    w ← load_wrapper wrapper;
    let '(n, zero) := g_atomic_int_dec_and_test (ref_count w) in
    store_wrapper wrapper (with_ref_count n w) ;;
    if zero then
      err ← match rel_cl_fun with
            | Some f =>
                ocl_status ← call_release_cl f (cl_object w);
                if decide (ocl_status ≠ CL_SUCCESS)
                then mret (g_set_error err CCL_ERROR_OCL
                             (MsgReleaseObject ocl_status))
                else mret err
            | None => mret err
            end;
      match info w with
      | Some t => info_table_destroy wrapper t
      | None => mret tt
      end ;;
      wrappers_remove (cl_object w) ;;
      n ← wrappers_size;
      (if decide (n = 0) then wrappers_destroy else mret tt) ;;
      match rel_fields_fun with
      | Some f => call_release_fields f wrapper
      | None => mret tt
      end ;;
      g_slice_free1_wrapper sz wrapper ;;
      mret (CL_TRUE, err)
    else mret (CL_FALSE, err).

(** [ccl_wrapper_ref_count]. *)
Definition ccl_wrapper_ref_count (wrapper : Z) : M Z :=
  if decide (wrapper = NULL) then mret (-1)
  else w ← load_wrapper wrapper; mret (ref_count w).

(** [ccl_wrapper_unwrap]. *)
Definition ccl_wrapper_unwrap (wrapper : Z) : M Z :=
  if decide (wrapper = NULL) then mret NULL
  else w ← load_wrapper wrapper; mret (cl_object w).

(** [ccl_wrapper_add_info].  [g_hash_table_replace] destroys the value the
    key had, if any, with the table's destroy function. *)
Definition ccl_wrapper_add_info (wrapper : Z) (param_name : Z) (i : Z)
    : M unit :=
  if decide (wrapper = NULL) then mret tt
  else if decide (i = NULL) then mret tt
  else
    w ← load_wrapper wrapper;
    let t := default ∅ (info w) in
    match t !! param_name with
    | Some old => ccl_wrapper_info_destroy old
    | None => mret tt
    end ;;
    store_wrapper wrapper (with_info (Some (<[param_name := i]> t)) w).

(** The object handed to the query function for [wrapper2]: none when
    [wrapper2] is [NULL], else [wrapper2->cl_object]. *)
Definition second_object (wrapper2 : Z) : M (option Z) :=
  if decide (wrapper2 = NULL) then mret None
  else w2 ← load_wrapper wrapper2; mret (Some (cl_object w2)).

(** Does the cache of [w] hold [param_name]? *)
Definition info_cached (w : CCLWrapper) (param_name : Z) : bool :=
  match info w with
  | Some t => bool_decide (is_Some (t !! param_name))
  | None => false
  end.

(** [ccl_wrapper_get_info].  Returns the information object ([NULL] on
    error) and what the error location holds afterwards.  The macro
    [gef_if_err_create_goto] (gerrorf.h, not among the sources) is taken to
    set the error with [g_set_error] and jump to [error_handler], which
    returns [NULL], when its condition holds.  A cached parameter is one
    for which [wrapper1->info] is not [NULL] and contains the name
    ([info_cached]). *)
Definition ccl_wrapper_get_info (wrapper1 wrapper2 : Z) (param_name : Z)
    (info_fun : ccl_wrapper_info_fp World) (use_cache : cl_bool)
    (err : GErrorLoc) : M (Z * GErrorLoc) :=
  if negb (err_unset err) then mret (NULL, err)
  else if decide (wrapper1 = NULL) then mret (NULL, err)
  else
    w1 ← load_wrapper wrapper1;
    if negb use_cache || negb (info_cached w1 param_name) then
      (* Get size of information. *)
      obj2 ← second_object wrapper2;
      r ← call_info_fun info_fun (cl_object w1) obj2 param_name 0 NULL true;
      let size_ret := size_t_wrap (qr_size_ret r) in
      if decide (qr_status r ≠ CL_SUCCESS) then
        mret (NULL, g_set_error err CCL_ERROR_OCL (MsgInfoSize (qr_status r)))
      else if decide (size_ret = 0) then
        mret (NULL, g_set_error err CCL_ERROR_OCL MsgInfoSizeZero)
      else
        (* Allocate memory for information. *)
        i ← ccl_wrapper_info_new size_ret;
        (* Get information. *)
        io ← load_info i;
        obj2 ← second_object wrapper2;
        r ← call_info_fun info_fun (cl_object w1) obj2 param_name size_ret
              (info_value io) false;
        store_info i (mkInfo (info_value io) (info_size io)
                        (fill_buffer size_ret (qr_value r))) ;;
        if decide (qr_status r ≠ CL_SUCCESS) then
          mret (NULL, g_set_error err CCL_ERROR_OCL (MsgInfoValue (qr_status r)))
        else
          (* Keep information in information table. *)
          ccl_wrapper_add_info wrapper1 param_name i ;;
          mret (i, err)
    else
      mret (default NULL (default ∅ (info w1) !! param_name), err).

(** [ccl_wrapper_get_info_value]. *)
Definition ccl_wrapper_get_info_value (wrapper1 wrapper2 : Z)
    (param_name : Z) (info_fun : ccl_wrapper_info_fp World)
    (use_cache : cl_bool) (err : GErrorLoc) : M (Z * GErrorLoc) :=
  if negb (err_unset err) then mret (NULL, err)
  else if decide (wrapper1 = NULL) then mret (NULL, err)
  else
    '(diw, err) ← ccl_wrapper_get_info wrapper1 wrapper2 param_name info_fun
                    use_cache err;
    if decide (diw ≠ NULL) then
      i ← load_info diw; mret (info_value i, err)
    else mret (NULL, err).

(** [ccl_wrapper_get_info_size]. *)
Definition ccl_wrapper_get_info_size (wrapper1 wrapper2 : Z)
    (param_name : Z) (info_fun : ccl_wrapper_info_fp World)
    (use_cache : cl_bool) (err : GErrorLoc) : M (Z * GErrorLoc) :=
  if negb (err_unset err) then mret (0, err)
  else if decide (wrapper1 = NULL) then mret (0, err)
  else
    '(diw, err) ← ccl_wrapper_get_info wrapper1 wrapper2 param_name info_fun
                    use_cache err;
    if decide (diw ≠ NULL) then
      i ← load_info diw; mret (info_size i, err)
    else mret (0, err).

(** [ccl_wrapper_memcheck]. *)
Definition ccl_wrapper_memcheck : M cl_bool :=
  λ s, Some (bool_decide (wrappers s = None), s).

End Operations.


(** * Specification vocabulary *)

Section Specification.

Context {World : Type}.

Abbreviation state := (state World).
Abbreviation M := (M World).

Implicit Types s : state.

(** [wp m Q s]: from [s], [m] is defined and its result and final state
    satisfy [Q]. *)
Definition wp {A} (m : M A) (Q : A → state → Prop) (s : state) : Prop :=
  match m s with
  | Some (a, s') => Q a s'
  | None => False
  end.

(** [wlp m Q s]: if [m] is defined from [s], its result and final state
    satisfy [Q]. *)
Definition wlp {A} (m : M A) (Q : A → state → Prop) (s : state) : Prop :=
  match m s with
  | Some (a, s') => Q a s'
  | None => True
  end.


(** ** The state a process starts in *)

Definition initial_state (σ : World) : state := mkState None ∅ ∅ 1 σ [].

(** ** Calls of the interface *)

Inductive call :=
| Call_new (obj sz : Z)
| Call_ref (wrapper : Z)
| Call_unref (wrapper sz : Z)
    (rel_fields_fun : option (ccl_wrapper_release_fields World))
    (rel_cl_fun : option (ccl_wrapper_release_cl_object World))
    (err : GErrorLoc)
| Call_add_info (wrapper param_name i : Z)
| Call_get_info (wrapper1 wrapper2 param_name : Z)
    (info_fun : ccl_wrapper_info_fp World) (use_cache : cl_bool)
    (err : GErrorLoc)
| Call_get_info_value (wrapper1 wrapper2 param_name : Z)
    (info_fun : ccl_wrapper_info_fp World) (use_cache : cl_bool)
    (err : GErrorLoc)
| Call_get_info_size (wrapper1 wrapper2 param_name : Z)
    (info_fun : ccl_wrapper_info_fp World) (use_cache : cl_bool)
    (err : GErrorLoc)
| Call_info_new (sz : Z)
| Call_info_destroy (i : Z).

Definition exec (c : call) : M unit :=
  match c with
  | Call_new obj sz => ccl_wrapper_new obj sz ;; mret tt
  | Call_ref w => ccl_wrapper_ref w
  | Call_unref w sz rf rc err => ccl_wrapper_unref w sz rf rc err ;; mret tt
  | Call_add_info w n i => ccl_wrapper_add_info w n i
  | Call_get_info w1 w2 n f uc err =>
      ccl_wrapper_get_info w1 w2 n f uc err ;; mret tt
  | Call_get_info_value w1 w2 n f uc err =>
      ccl_wrapper_get_info_value w1 w2 n f uc err ;; mret tt
  | Call_get_info_size w1 w2 n f uc err =>
      ccl_wrapper_get_info_size w1 w2 n f uc err ;; mret tt
  | Call_info_new sz => ccl_wrapper_info_new sz ;; mret tt
  | Call_info_destroy i => ccl_wrapper_info_destroy i
  end.

(** The states a process can be in: it starts in [initial_state], makes
    calls whose behaviour is defined, and the world outside may change
    between two calls. *)
Inductive reachable : state → Prop :=
| reachable_init σ : reachable (initial_state σ)
| reachable_call s c s' :
    reachable s → exec c s = Some (tt, s') → reachable s'
| reachable_world s σ : reachable s → reachable (set_world σ s).

(** ** The invariant of the table of wrappers *)

Record inv (s : state) : Prop := mkInv {
  inv_brk : 0 < brk s;
  inv_wrapper_addr : ∀ p w, wrapper_mem s !! p = Some w → 0 < p < brk s;
  inv_info_addr : ∀ p b, info_mem s !! p = Some b → 0 < p < brk s;
  inv_registered : ∀ p w, wrapper_mem s !! p = Some w →
    cl_object w ≠ NULL ∧
    ∃ t, wrappers s = Some t ∧ t !! cl_object w = Some p;
  inv_wrapped : ∀ t h p, wrappers s = Some t → t !! h = Some p →
    ∃ w, wrapper_mem s !! p = Some w ∧ cl_object w = h;
  inv_nonempty : wrappers s ≠ Some ∅
}.

(** What the functions that leave the table of wrappers alone may change:
    they keep the table, the set of live wrappers and the object of each;
    they allocate only fresh addresses. *)
Definition frame (s s' : state) : Prop :=
  wrappers s' = wrappers s ∧
  brk s ≤ brk s' ∧
  (∀ p, cl_object <$> wrapper_mem s' !! p = cl_object <$> wrapper_mem s !! p) ∧
  (∀ p, is_Some (info_mem s' !! p) →
        is_Some (info_mem s !! p) ∨ brk s ≤ p < brk s').

(** A function frames when, started anywhere, it ends in a state framed by
    the one it started in. *)
Definition framing {A} (m : M A) : Prop :=
  ∀ s, wlp m (λ _ s', frame s s') s.

(** The entry of the table of wrappers for [obj], if any. *)
Definition wrappers_entry (s : state) (obj : Z) : option Z :=
  match wrappers s with
  | Some t => t !! obj
  | None => None
  end.

(** The state after [ccl_wrapper_new] made a wrapper for [obj]. *)
Definition with_new_wrapper (obj : Z) (s : state) : state :=
  mkState (Some (<[obj := brk s]> (default ∅ (wrappers s))))
    (<[brk s := mkWrapper obj None 1]> (wrapper_mem s))
    (info_mem s) (brk s + 1) (world s) (trace s).

(** One wrapper per object: two live wrappers of the same object are the
    same wrapper, and the entries of the table of wrappers are exactly the
    live wrappers, each under the object it wraps. *)
Definition one_wrapper_per_object (s : state) : Prop :=
  (∀ p1 p2 w1 w2,
     wrapper_mem s !! p1 = Some w1 → wrapper_mem s !! p2 = Some w2 →
     cl_object w1 = cl_object w2 → p1 = p2) ∧
  (∀ obj p,
     wrappers_entry s obj = Some p ↔
     ∃ w, wrapper_mem s !! p = Some w ∧ cl_object w = obj).

(** ** Teardown of a cache *)

(** The information objects a table holds, in the order
    [g_hash_table_destroy] visits them; it skips [NULL]. *)
Definition cached_infos (t : gmap Z Z) : list Z :=
  filter (λ v, v ≠ NULL) (map snd (map_to_list t)).

(** Each cached object is live and cached once: destroying them one after
    the other frees no object twice. *)
Definition destroyable (m : gmap Z CCLWrapperInfo) (vs : list Z) : Prop :=
  NoDup vs ∧ ∀ v, v ∈ vs → is_Some (m !! v).

Definition cache_destroyable (s : state) (w : CCLWrapper) : Prop :=
  ∀ t, info w = Some t → destroyable (info_mem s) (cached_infos t).

(** The table of wrappers once [obj] is removed and the table is released
    if that leaves it empty. *)
Definition wrappers_without (obj : Z) (ws : option (gmap Z Z))
    : option (gmap Z Z) :=
  match ws with
  | Some t => if decide (base.size (delete obj t) = 0%nat) then None
              else Some (delete obj t)
  | None => None
  end.

(** The store of information objects once those of [vs] are freed. *)
Definition free_infos (vs : list Z) (m : gmap Z CCLWrapperInfo)
    : gmap Z CCLWrapperInfo :=
  foldl (λ m v, delete v m) m vs.

Definition cache_infos (i : option (gmap Z Z)) : list Z :=
  match i with
  | Some t => cached_infos t
  | None => []
  end.

(** ** What a teardown does, step by step *)

(** Step 1: the OpenCL object is released, if a function for that is
    given. *)
Definition release_cl_world
    (rc : option (ccl_wrapper_release_cl_object World)) (obj : Z)
    (σ : World) : World :=
  match rc with
  | Some f => (f σ obj).1
  | None => σ
  end.

Definition release_cl_events
    (rc : option (ccl_wrapper_release_cl_object World)) (obj : Z)
    (σ : World) : list event :=
  match rc with
  | Some f => [EvReleaseCl obj (f σ obj).2]
  | None => []
  end.

Definition release_cl_error
    (rc : option (ccl_wrapper_release_cl_object World)) (obj : Z)
    (σ : World) (err : GErrorLoc) : GErrorLoc :=
  match rc with
  | Some f =>
      if decide ((f σ obj).2 ≠ CL_SUCCESS)
      then g_set_error err CCL_ERROR_OCL (MsgReleaseObject (f σ obj).2)
      else err
  | None => err
  end.

(** Step 2: every cached information object is destroyed, then the
    table. *)
Definition cache_events (wrapper : Z) (i : option (gmap Z Z)) : list event :=
  match i with
  | Some t => map EvInfoDestroy (cached_infos t) ++ [EvInfoTableDestroy wrapper]
  | None => []
  end.

(** Step 3: the entry of the object leaves the table of wrappers, which is
    released if that empties it. *)
Definition table_events (obj : Z) (ws : option (gmap Z Z)) : list event :=
  EvWrappersRemove obj ::
  match wrappers_without obj ws with
  | None => [EvWrappersDestroy]
  | Some _ => []
  end.

(** Step 4: the fields of the concrete wrapper are released, if a function
    for that is given. *)
Definition release_fields_world
    (rf : option (ccl_wrapper_release_fields World)) (wrapper : Z)
    (σ : World) : World :=
  match rf with
  | Some f => f σ wrapper
  | None => σ
  end.

Definition release_fields_events
    (rf : option (ccl_wrapper_release_fields World)) (wrapper : Z)
    : list event :=
  match rf with
  | Some _ => [EvReleaseFields wrapper]
  | None => []
  end.

(** The events of a teardown, in order; step 5 frees the wrapper. *)
Definition teardown_events (wrapper sz : Z) (w : CCLWrapper)
    (rf : option (ccl_wrapper_release_fields World))
    (rc : option (ccl_wrapper_release_cl_object World))
    (s : state) : list event :=
  release_cl_events rc (cl_object w) (world s)
  ++ cache_events wrapper (info w)
  ++ table_events (cl_object w) (wrappers s)
  ++ release_fields_events rf wrapper
  ++ [EvSliceFree sz wrapper].

(** The state after the teardown of the wrapper [w] at [wrapper]. *)
Definition after_teardown (wrapper sz : Z) (w : CCLWrapper)
    (rf : option (ccl_wrapper_release_fields World))
    (rc : option (ccl_wrapper_release_cl_object World))
    (s : state) : state :=
  mkState (wrappers_without (cl_object w) (wrappers s))
    (delete wrapper (wrapper_mem s))
    (free_infos (cache_infos (info w)) (info_mem s))
    (brk s)
    (release_fields_world rf wrapper
       (release_cl_world rc (cl_object w) (world s)))
    (trace s ++ teardown_events wrapper sz w rf rc s).

(** ** What a query does, step by step *)

(** The object [ccl_wrapper_get_info] hands to the query function for
    [wrapper2], when reading it is defined. *)
Definition second_of (s : state) (wrapper2 : Z) : option (option Z) :=
  if decide (wrapper2 = NULL) then Some None
  else (λ w, Some (cl_object w)) <$> wrapper_mem s !! wrapper2.

(** The call that asks for the size: no buffer, a location for the size. *)
Definition probe_event (obj1 : Z) (obj2 : option Z) (n : Z) : event :=
  EvInfoFun obj1 obj2 n 0 NULL true.

(** The call that asks for the value: a buffer of the size asked for, no
    location for the size. *)
Definition fetch_event (obj1 : Z) (obj2 : option Z) (n sz v : Z) : event :=
  EvInfoFun obj1 obj2 n sz v false.

Definition probe (f : ccl_wrapper_info_fp World) (obj1 : Z)
    (obj2 : option Z) (n : Z) (s : state) : World * query_result :=
  f (world s) obj1 obj2 n 0 NULL true.

Definition probed_size (f : ccl_wrapper_info_fp World) (obj1 : Z)
    (obj2 : option Z) (n : Z) (s : state) : Z :=
  size_t_wrap (qr_size_ret (probe f obj1 obj2 n s).2).

Definition after_probe (f : ccl_wrapper_info_fp World) (obj1 : Z)
    (obj2 : option Z) (n : Z) (s : state) : state :=
  mkState (wrappers s) (wrapper_mem s) (info_mem s) (brk s)
    (probe f obj1 obj2 n s).1 (trace s ++ [probe_event obj1 obj2 n]).

Definition fetch (f : ccl_wrapper_info_fp World) (obj1 : Z)
    (obj2 : option Z) (n : Z) (s : state) : World * query_result :=
  f (probe f obj1 obj2 n s).1 obj1 obj2 n (probed_size f obj1 obj2 n s)
    (brk s + 1) false.

(** The information object the two calls produce: it sits at [brk s], its
    buffer at [brk s + 1]. *)
Definition fetched_info (f : ccl_wrapper_info_fp World) (obj1 : Z)
    (obj2 : option Z) (n : Z) (s : state) : CCLWrapperInfo :=
  mkInfo (brk s + 1) (probed_size f obj1 obj2 n s)
    (fill_buffer (probed_size f obj1 obj2 n s)
       (qr_value (fetch f obj1 obj2 n s).2)).

Definition after_fetch (f : ccl_wrapper_info_fp World) (obj1 : Z)
    (obj2 : option Z) (n : Z) (s : state) : state :=
  mkState (wrappers s) (wrapper_mem s)
    (<[brk s := fetched_info f obj1 obj2 n s]> (info_mem s))
    (brk s + 2) (fetch f obj1 obj2 n s).1
    (trace s ++ [probe_event obj1 obj2 n;
                 fetch_event obj1 obj2 n (probed_size f obj1 obj2 n s)
                   (brk s + 1)]).

(** The information object [g_hash_table_replace] destroys when [n] gets a
    new value in the cache of [w]. *)
Definition replaced (w : CCLWrapper) (n : Z) : list Z :=
  match default ∅ (info w) !! n with
  | Some old => if decide (old = NULL) then [] else [old]
  | None => []
  end.

Definition after_add_info (p n i : Z) (w : CCLWrapper) (s : state) : state :=
  mkState (wrappers s)
    (<[p := with_info (Some (<[n := i]> (default ∅ (info w)))) w]>
       (wrapper_mem s))
    (free_infos (replaced w n) (info_mem s))
    (brk s) (world s)
    (trace s ++ map EvInfoDestroy (replaced w n)).

(** A query fails when the size query or the value query returns a status
    other than [CL_SUCCESS], or when the size reported is zero. *)
Definition query_fails (f : ccl_wrapper_info_fp World) (obj1 : Z)
    (obj2 : option Z) (n : Z) (s : state) : Prop :=
  qr_status (probe f obj1 obj2 n s).2 ≠ CL_SUCCESS ∨
  probed_size f obj1 obj2 n s = 0 ∨
  qr_status (fetch f obj1 obj2 n s).2 ≠ CL_SUCCESS.

(** The error location holds an error of the code [CCL_ERROR_OCL], unless
    it is [NULL]. *)
Definition error_set (e : GErrorLoc) : Prop :=
  match e with
  | None => True
  | Some None => False
  | Some (Some g) => code g = CCL_ERROR_OCL
  end.

(** ** Caches and sequences of queries *)

(** The cache of the wrapper at [p] holds [i] under [n]. *)
Definition cache_entry (s : state) (p n i : Z) : Prop :=
  ∃ w t, wrapper_mem s !! p = Some w ∧ info w = Some t ∧ t !! n = Some i.

(** Every cached information object is live, is not [NULL] and is cached
    in one place only.  [ccl_wrapper_get_info] keeps caches that way;
    [ccl_wrapper_add_info] and [ccl_wrapper_info_destroy], called with
    objects of the caller's choice, need not. *)
Definition caches_separate (s : state) : Prop :=
  (∀ p n i, cache_entry s p n i → i ≠ NULL ∧ is_Some (info_mem s !! i)) ∧
  (∀ p n p' n' i,
     cache_entry s p n i → cache_entry s p' n' i → p = p' ∧ n = n').

(** No cached information object is empty. *)
Definition caches_nonempty (s : state) : Prop :=
  ∀ p n i b, cache_entry s p n i → info_mem s !! i = Some b →
             info_size b ≠ 0 ∧ info_value b ≠ NULL.

(** The calls that leave the caches to [ccl_wrapper_get_info]: all but
    those that handle information objects of the caller's choice. *)
Definition leaves_caches (c : call) : bool :=
  match c with
  | Call_add_info _ _ _ | Call_info_new _ | Call_info_destroy _ => false
  | _ => true
  end.

(** The states a process reaches if it makes such calls only. *)
Inductive reachable_by_queries : state → Prop :=
| by_queries_init σ : reachable_by_queries (initial_state σ)
| by_queries_call s c s' :
    reachable_by_queries s → leaves_caches c = true →
    exec c s = Some (tt, s') → reachable_by_queries s'
| by_queries_world s σ :
    reachable_by_queries s → reachable_by_queries (set_world σ s).

(** The arguments of a call of [ccl_wrapper_get_info]. *)
Record query_call := mkQueryCall {
  qc_wrapper1 : Z;
  qc_wrapper2 : Z;
  qc_param_name : Z;
  qc_info_fun : ccl_wrapper_info_fp World;
  qc_use_cache : cl_bool;
  qc_err : GErrorLoc
}.

Definition run_query (q : query_call) : M (Z * GErrorLoc) :=
  ccl_wrapper_get_info (qc_wrapper1 q) (qc_wrapper2 q) (qc_param_name q)
    (qc_info_fun q) (qc_use_cache q) (qc_err q).

(** The wrappers the call names are live (the second may be [NULL]) and
    the error location holds no error. *)
Definition query_on_live (s : state) (q : query_call) : Prop :=
  is_Some (wrapper_mem s !! qc_wrapper1 q) ∧
  (qc_wrapper2 q = NULL ∨ is_Some (wrapper_mem s !! qc_wrapper2 q)) ∧
  err_unset (qc_err q) = true.

(** The calls of a query function for the parameter [n] of the object
    [obj], among the events of a trace. *)
Definition is_query_of (obj n : Z) (e : event) : bool :=
  match e with
  | EvInfoFun o _ m _ _ _ => bool_decide (o = obj ∧ m = n)
  | _ => false
  end.

Definition queries_of (obj n : Z) (tr : list event) : list event :=
  filter (λ e, is_query_of obj n e = true) tr.

(** ** Sequences of [ref] and [unref] on one wrapper *)

Inductive rc_call :=
| Rc_ref
| Rc_unref (sz : Z)
    (rel_fields_fun : option (ccl_wrapper_release_fields World))
    (rel_cl_fun : option (ccl_wrapper_release_cl_object World))
    (err : GErrorLoc).

(** Runs the calls on [wrapper] and collects what each [unref] returned. *)
Fixpoint run_rc (wrapper : Z) (cs : list rc_call) : M (list cl_bool) :=
  match cs with
  | [] => mret []
  | Rc_ref :: cs' => ccl_wrapper_ref wrapper ;; run_rc wrapper cs'
  | Rc_unref sz rf rc err :: cs' =>
      r ← ccl_wrapper_unref wrapper sz rf rc err;
      ds ← run_rc wrapper cs';
      mret (r.1 :: ds)
  end.

Definition is_ref (c : rc_call) : bool :=
  match c with Rc_ref => true | Rc_unref _ _ _ _ => false end.

Definition refs (cs : list rc_call) : Z :=
  Z.of_nat (length (filter (λ c, is_ref c = true) cs)).

Definition unrefs (cs : list rc_call) : Z :=
  Z.of_nat (length (filter (λ c, is_ref c = false) cs)).

(** Every [unref] of the sequence is given an error location that is
    [NULL] or holds no error. *)
Definition errs_unset (cs : list rc_call) : Prop :=
  ∀ sz rf rc err, Rc_unref sz rf rc err ∈ cs → err_unset err = true.

(** The state in which the wrapper at [p] has the reference count [k]. *)
Definition with_count (p : Z) (w : CCLWrapper) (k : Z) (s : state) : state :=
  set_wrapper_mem (<[p := with_ref_count k w]> (wrapper_mem s)) s.

(** Every call of the sequence is made while the wrapper holds a reference:
    before the call, fewer [unref]s than [ref]s plus the initial
    reference. *)
Definition calls_on_live (cs : list rc_call) : Prop :=
  ∀ k, (k < length cs)%nat → unrefs (take k cs) ≤ refs (take k cs).

(** The references held after the calls [cs]: the one of the construction,
    one more for each [ref], one less for each [unref]. *)
Definition held (cs : list rc_call) : Z := 1 + refs cs - unrefs cs.

(** No [unref] of the sequence is made while the references held number
    [2 ^ 32 + 1], or one more than another positive multiple of [2 ^ 32]:
    only there does the count, a [gint], read 1 while more than one
    reference is held. *)
Definition count_tells (cs : list rc_call) : Prop :=
  ∀ j sz rf rc err m,
    cs !! j = Some (Rc_unref sz rf rc err) → 1 ≤ m →
    held (take j cs) ≠ m * 2 ^ 32 + 1.

End Specification.

(** * A small process

    Concrete objects, functions and states, with no world outside, on
    which the theorems below are instantiated. *)

Definition CL_INVALID_VALUE : Z := -30.
Definition CL_DEVICE_NAME : Z := 4139.

(** An OpenCL object and the size of its concrete wrapper. *)
Definition ex_obj : Z := 4096.
Definition ex_size : Z := 24.

(** A query that answers with three bytes. *)
Definition query_name : ccl_wrapper_info_fp unit :=
  λ _ _ _ _ _ _ _, (tt, mkQuery CL_SUCCESS 3 [x47; x50; x55]).

(** A query that is refused. *)
Definition query_refused : ccl_wrapper_info_fp unit :=
  λ _ _ _ _ _ _ _, (tt, mkQuery CL_INVALID_VALUE 0 []).

(** A query that succeeds and reports a size of zero. *)
Definition query_empty : ccl_wrapper_info_fp unit :=
  λ _ _ _ _ _ _ _, (tt, mkQuery CL_SUCCESS 0 []).

(** A release of the OpenCL object that is refused. *)
Definition release_refused : ccl_wrapper_release_cl_object unit :=
  λ _ _, (tt, CL_INVALID_VALUE).

Definition release_fields_nothing : ccl_wrapper_release_fields unit :=
  λ _ _, tt.

(** The state [m] leaves, or the state it started in when it is
    undefined. *)
Definition ex_after {A} (m : M unit A) (s : state unit) : state unit :=
  match m s with
  | Some (_, s') => s'
  | None => s
  end.

(** One wrapper, just constructed: it sits at address 1. *)
Definition ex_fresh : state unit :=
  ex_after (ccl_wrapper_new ex_obj ex_size) (initial_state tt).

Definition ex_wrapper : CCLWrapper := mkWrapper ex_obj None 1.

(** The same wrapper after the name was queried: the information object
    sits at address 2. *)
Definition ex_cached : state unit :=
  ex_after (ccl_wrapper_get_info 1 NULL CL_DEVICE_NAME query_name CL_TRUE
              (Some None)) ex_fresh.

Definition ex_cached_wrapper : CCLWrapper :=
  mkWrapper ex_obj (Some {[CL_DEVICE_NAME := 2]}) 1.

(** The wrapper with an empty information object put in its cache by
    [ccl_wrapper_add_info]. *)
Definition ex_empty_info : state unit :=
  ex_after (i ← ccl_wrapper_info_new 0;
            ccl_wrapper_add_info 1 CL_DEVICE_NAME i) ex_fresh.

(** The error a refused size query sets. *)
Definition ex_refused_error : GErrorLoc :=
  Some (Some (mkGError CCL_ERROR_OCL (MsgInfoSize CL_INVALID_VALUE))).

(** [ex_fresh] after a query of the name was refused. *)
Definition ex_refused : state unit :=
  ex_after (ccl_wrapper_get_info 1 NULL CL_DEVICE_NAME query_refused CL_TRUE
              (Some None)) ex_fresh.

(** [ex_cached] after a refresh of the name was refused. *)
Definition ex_refresh_refused : state unit :=
  ex_after (ccl_wrapper_get_info 1 NULL CL_DEVICE_NAME query_refused CL_FALSE
              (Some None)) ex_cached.

Definition CL_DEVICE_VENDOR : Z := 4140.

(** A [ref], then two [unref]s. *)
Definition ex_calls : list (@rc_call unit) :=
  [Rc_ref; Rc_unref ex_size None None (Some None);
   Rc_unref ex_size None None None].

(** As many [ref]s as a [gint] has values, then one [unref]. *)
Definition ex_wrapping_calls : list (@rc_call unit) :=
  replicate (Z.to_nat (2 ^ 32)) Rc_ref ++ [Rc_unref ex_size None None None].

(** * More vocabulary: the store of wrappers, call by call *)

Section MoreSpecification.

Context {World : Type}.

Abbreviation state := (state World).
Abbreviation M := (M World).

Implicit Types s : state.

(** A property every live wrapper has. *)
Definition all_wrappers (P : CCLWrapper → Prop) (s : state) : Prop :=
  ∀ p w, wrapper_mem s !! p = Some w → P w.

(** The values of a [gint]. *)
Definition gint_range (z : Z) : Prop := - 2 ^ 31 ≤ z < 2 ^ 31.

(** The cache holds [NULL] under no name. *)
Definition cache_without_null (w : CCLWrapper) : Prop :=
  ∀ t n, info w = Some t → t !! n ≠ Some NULL.

(** What the struct of a live wrapper looks like. *)
Definition wellformed (w : CCLWrapper) : Prop :=
  cl_object w ≠ NULL ∧ gint_range (ref_count w) ∧ cache_without_null w.

(** A computation that leaves the store of wrappers as it is. *)
Definition keeps_wrappers {A} (m : M A) : Prop :=
  ∀ s, wlp m (λ _ s', wrapper_mem s' = wrapper_mem s) s.

(** What one call does to the struct at one address, when the struct is
    live afterwards: nothing, a new reference count, a new non-[NULL] entry
    in the cache, or a struct made by [ccl_wrapper_new]. *)
Inductive wrapper_step : option CCLWrapper → CCLWrapper → Prop :=
| step_same w : wrapper_step (Some w) w
| step_count w k :
    wrapper_step (Some w) (with_ref_count (gint_wrap k) w)
| step_cache w n i :
    i ≠ NULL →
    wrapper_step (Some w)
      (with_info (Some (<[n := i]> (default ∅ (info w)))) w)
| step_new obj :
    obj ≠ NULL → wrapper_step None (mkWrapper obj None 1).

Definition wrappers_step (s s' : state) : Prop :=
  ∀ p w', wrapper_mem s' !! p = Some w' →
          wrapper_step (wrapper_mem s !! p) w'.

(** A sequence of calls of the interface. *)
Fixpoint run_calls (cs : list (@call World)) : M unit :=
  match cs with
  | [] => mret tt
  | c :: cs' => exec c ;; run_calls cs'
  end.




(** Every live information object is in the cache of a live wrapper: no
    object is left that only its address could reach. *)
Definition leak_free (s : state) : Prop :=
  ∀ i b, info_mem s !! i = Some b → ∃ p n, cache_entry s p n i.

(** A call of [ccl_wrapper_get_info] with these arguments makes a query
    whose size is answered and whose value is refused. *)
Definition fetch_fails (s : state) (wrapper1 wrapper2 n : Z)
    (f : ccl_wrapper_info_fp World) (use_cache : cl_bool) : Prop :=
  ∃ w obj2,
    wrapper_mem s !! wrapper1 = Some w ∧ second_of s wrapper2 = Some obj2 ∧
    negb use_cache || negb (info_cached w n) = true ∧
    qr_status (probe f (cl_object w) obj2 n s).2 = CL_SUCCESS ∧
    probed_size f (cl_object w) obj2 n s ≠ 0 ∧
    qr_status (fetch f (cl_object w) obj2 n s).2 ≠ CL_SUCCESS.

Definition value_query_fails (s : state) (c : @call World) : Prop :=
  match c with
  | Call_get_info w1 w2 n f uc _ | Call_get_info_value w1 w2 n f uc _
  | Call_get_info_size w1 w2 n f uc _ => fetch_fails s w1 w2 n f uc
  | _ => False
  end.

(** ** Between two queries of a cached parameter *)

(** The call may take the object [i] out of the cache of the wrapper at
    [p], where it sits under [n], or free it: a query of [n] on [p] that
    is to bypass the cache; a [ccl_wrapper_add_info] that gives [n] on [p]
    a value, or that caches [i] once more; a [ccl_wrapper_info_destroy] of
    [i]. *)
Definition disturbs (p n i : Z) (c : @call World) : Prop :=
  match c with
  | Call_get_info w1 _ m _ uc _ | Call_get_info_value w1 _ m _ uc _
  | Call_get_info_size w1 _ m _ uc _ => w1 = p ∧ m = n ∧ uc = CL_FALSE
  | Call_add_info w1 m j => (w1 = p ∧ m = n ∧ j ≠ NULL) ∨ j = i
  | Call_info_destroy j => j = i
  | Call_new _ _ | Call_ref _ | Call_unref _ _ _ _ _ | Call_info_new _ =>
      False
  end.

(** From [s] to [s2] by calls of the interface that do not disturb, each
    defined and each leaving the wrapper at [p] live (none is the
    [ccl_wrapper_unref] that destroys it), and by changes of the world
    outside. *)
Inductive undisturbed (p n i : Z) : state → state → Prop :=
| undisturbed_refl s : undisturbed p n i s s
| undisturbed_call s c s' s2 :
    ¬ disturbs p n i c → exec c s = Some (tt, s') →
    is_Some (wrapper_mem s' !! p) →
    undisturbed p n i s' s2 → undisturbed p n i s s2
| undisturbed_world s σ s2 :
    undisturbed p n i (set_world σ s) s2 → undisturbed p n i s s2.

(** The wrapper at [p] is live and wraps [obj]; its cache holds under [n]
    the object [i], which is live with the contents [b] and is cached
    nowhere else; the query function was called for [n] of [obj] as [qs]
    tells. *)
Record entry_kept (p obj n i : Z) (b : CCLWrapperInfo) (qs : list event)
    (s : state) : Prop := mkEntryKept {
  kept_object : ∃ w, wrapper_mem s !! p = Some w ∧ cl_object w = obj;
  kept_entry : cache_entry s p n i;
  kept_live : info_mem s !! i = Some b;
  kept_alone : ∀ p' n', cache_entry s p' n' i → p' = p ∧ n' = n;
  kept_queries : queries_of obj n (trace s) = qs
}.

End MoreSpecification.

(** A query whose size is answered and whose value is refused. *)
Definition query_value_refused : ccl_wrapper_info_fp unit :=
  λ _ _ _ _ _ _ want_size,
    (tt, if want_size then mkQuery CL_SUCCESS 3 []
         else mkQuery CL_INVALID_VALUE 0 []).

(** Another OpenCL object. *)
Definition ex_other_obj : Z := 8192.

(** Two wrappers: the one of [ex_cached], and one for [ex_other_obj], which
    sits at address 4. *)
Definition ex_pair : state unit :=
  Eval vm_compute in
    ex_after (ccl_wrapper_new ex_other_obj ex_size) ex_cached.

(** The two wrappers, each with a cache: the vendor was queried on the
    second, and its information object sits at address 5. *)
Definition ex_pair_cached : state unit :=
  Eval vm_compute in
    ex_after (ccl_wrapper_get_info 4 NULL CL_DEVICE_VENDOR query_name CL_TRUE
                (Some None)) ex_pair.

Definition ex_other_wrapper : CCLWrapper :=
  mkWrapper ex_other_obj (Some {[CL_DEVICE_VENDOR := 5]}) 1.

(** [ex_pair_cached] with one more reference to the first wrapper. *)
Definition ex_pair_ref : state unit :=
  Eval vm_compute in ex_after (ccl_wrapper_ref 1) ex_pair_cached.

(** [ex_cached] after the caller made an information object, which sits at
    address 4, and put it in the cache under the name. *)
Definition ex_replaced : state unit :=
  Eval vm_compute in
    ex_after (run_calls [Call_info_new 3; Call_add_info 1 CL_DEVICE_NAME 4])
      ex_cached.

(** [ex_cached] after the caller destroyed the cached object. *)
Definition ex_destroyed : state unit :=
  Eval vm_compute in ex_after (ccl_wrapper_info_destroy 2) ex_cached.

(** [ex_pair] after the caller put the object cached by the first wrapper
    in the cache of the second as well, under the vendor. *)
Definition ex_shared : state unit :=
  Eval vm_compute in
    ex_after (ccl_wrapper_add_info 4 CL_DEVICE_VENDOR 2) ex_pair.

(** [ex_shared] after the vendor was queried anew on the second wrapper. *)
Definition ex_shared_refreshed : state unit :=
  Eval vm_compute in
    ex_after (ccl_wrapper_get_info 4 NULL CL_DEVICE_VENDOR query_name CL_FALSE
                (Some None)) ex_shared.

(** [ex_cached] after the wrapper was destroyed. *)
Definition ex_torn : state unit :=
  Eval vm_compute in
    ex_after (ccl_wrapper_unref 1 ex_size None None None) ex_cached.
(** * Rules for [wp] and [wlp] *)

Section Logic.

Context {World : Type}.

Abbreviation state := (state World).
Abbreviation M := (M World).

Implicit Types s : state.

Lemma wp_run {A} (m : M A) Q s :
  wp m Q s ↔ ∃ a s', m s = Some (a, s') ∧ Q a s'.
Proof.
  unfold wp. destruct (m s) as [[a s']|]; split.
  - eauto.
  - intros (a0 & s0 & [= -> ->] & HQ). exact HQ.
  - contradiction.
  - intros (a0 & s0 & [=] & _).
Qed.

Lemma wlp_run {A} (m : M A) Q s :
  wlp m Q s ↔ ∀ a s', m s = Some (a, s') → Q a s'.
Proof.
  unfold wlp. destruct (m s) as [[a s']|]; split.
  - intros HQ a0 s0 [= <- <-]. exact HQ.
  - intros H. apply H. reflexivity.
  - intros _ a0 s0 [=].
  - trivial.
Qed.

Lemma wp_mono {A} (m : M A) (Q Q' : A → state → Prop) s :
  wp m Q s → (∀ a s', Q a s' → Q' a s') → wp m Q' s.
Proof. unfold wp. destruct (m s) as [[a s']|]; eauto. Qed.

Lemma wlp_mono {A} (m : M A) (Q Q' : A → state → Prop) s :
  wlp m Q s → (∀ a s', Q a s' → Q' a s') → wlp m Q' s.
Proof. unfold wlp. destruct (m s) as [[a s']|]; eauto. Qed.

Lemma wp_wlp {A} (m : M A) Q s : wp m Q s → wlp m Q s.
Proof. unfold wp, wlp. destruct (m s) as [[a s']|]; tauto. Qed.

Lemma wp_ret {A} (a : A) (Q : A → state → Prop) s :
  Q a s → wp (mret a) Q s.
Proof. trivial. Qed.

Lemma wlp_ret {A} (a : A) (Q : A → state → Prop) s :
  Q a s → wlp (mret a) Q s.
Proof. trivial. Qed.

Lemma wp_bind {A B} (m : M A) (k : A → M B) Q s :
  wp m (λ a s', wp (k a) Q s') s → wp (m ≫= k) Q s.
Proof.
  unfold wp, mbind, M_bind, bind. destruct (m s) as [[a s']|]; trivial.
Qed.

Lemma wlp_bind {A B} (m : M A) (k : A → M B) Q s :
  wlp m (λ a s', wlp (k a) Q s') s → wlp (m ≫= k) Q s.
Proof.
  unfold wlp, mbind, M_bind, bind. destruct (m s) as [[a s']|]; trivial.
Qed.

Lemma wp_modify (f : state → state) (Q : unit → state → Prop) s :
  Q tt (f s) → wp (modify f) Q s.
Proof. trivial. Qed.

Lemma wlp_modify (f : state → state) (Q : unit → state → Prop) s :
  Q tt (f s) → wlp (modify f) Q s.
Proof. trivial. Qed.

Lemma wp_emit e (Q : unit → state → Prop) s :
  Q tt (set_trace (trace s ++ [e]) s) → wp (emit e) Q s.
Proof. trivial. Qed.

Lemma wlp_emit e (Q : unit → state → Prop) s :
  Q tt (set_trace (trace s ++ [e]) s) → wlp (emit e) Q s.
Proof. trivial. Qed.

Lemma wp_load_wrapper p w (Q : CCLWrapper → state → Prop) s :
  wrapper_mem s !! p = Some w → Q w s → wp (load_wrapper p) Q s.
Proof. intros H HQ. unfold wp, load_wrapper. rewrite H. exact HQ. Qed.

Lemma wlp_load_wrapper p (Q : CCLWrapper → state → Prop) s :
  (∀ w, wrapper_mem s !! p = Some w → Q w s) → wlp (load_wrapper p) Q s.
Proof.
  intros HQ. unfold wlp, load_wrapper.
  destruct (wrapper_mem s !! p); auto.
Qed.

Lemma wp_store_wrapper p w0 w (Q : unit → state → Prop) s :
  wrapper_mem s !! p = Some w0 →
  Q tt (set_wrapper_mem (<[p := w]> (wrapper_mem s)) s) →
  wp (store_wrapper p w) Q s.
Proof. intros H HQ. unfold wp, store_wrapper. rewrite H. exact HQ. Qed.

Lemma wlp_store_wrapper p w (Q : unit → state → Prop) s :
  (∀ w0, wrapper_mem s !! p = Some w0 →
         Q tt (set_wrapper_mem (<[p := w]> (wrapper_mem s)) s)) →
  wlp (store_wrapper p w) Q s.
Proof.
  intros HQ. unfold wlp, store_wrapper.
  destruct (wrapper_mem s !! p); eauto.
Qed.

Lemma wp_load_info p i (Q : CCLWrapperInfo → state → Prop) s :
  info_mem s !! p = Some i → Q i s → wp (load_info p) Q s.
Proof. intros H HQ. unfold wp, load_info. rewrite H. exact HQ. Qed.

Lemma wlp_load_info p (Q : CCLWrapperInfo → state → Prop) s :
  (∀ i, info_mem s !! p = Some i → Q i s) → wlp (load_info p) Q s.
Proof.
  intros HQ. unfold wlp, load_info. destruct (info_mem s !! p); auto.
Qed.

Lemma wp_store_info p i0 i (Q : unit → state → Prop) s :
  info_mem s !! p = Some i0 →
  Q tt (set_info_mem (<[p := i]> (info_mem s)) s) →
  wp (store_info p i) Q s.
Proof. intros H HQ. unfold wp, store_info. rewrite H. exact HQ. Qed.

Lemma wlp_store_info p i (Q : unit → state → Prop) s :
  (∀ i0, info_mem s !! p = Some i0 →
         Q tt (set_info_mem (<[p := i]> (info_mem s)) s)) →
  wlp (store_info p i) Q s.
Proof.
  intros HQ. unfold wlp, store_info. destruct (info_mem s !! p); eauto.
Qed.

Lemma wp_g_slice_alloc (Q : Z → state → Prop) s :
  Q (brk s) (set_brk (brk s + 1) s) → wp g_slice_alloc Q s.
Proof. trivial. Qed.

Lemma wlp_g_slice_alloc (Q : Z → state → Prop) s :
  Q (brk s) (set_brk (brk s + 1) s) → wlp g_slice_alloc Q s.
Proof. trivial. Qed.

Lemma wp_call_release_cl f obj (Q : Z → state → Prop) s :
  Q (f (world s) obj).2
    (set_trace (trace s ++ [EvReleaseCl obj (f (world s) obj).2])
       (set_world (f (world s) obj).1 s)) →
  wp (call_release_cl f obj) Q s.
Proof. unfold wp, call_release_cl. destruct (f (world s) obj). trivial. Qed.

Lemma wp_call_release_fields f p (Q : unit → state → Prop) s :
  Q tt (set_trace (trace s ++ [EvReleaseFields p])
          (set_world (f (world s) p) s)) →
  wp (call_release_fields f p) Q s.
Proof. trivial. Qed.

Lemma wp_call_info_fun f o1 o2 n sz v b (Q : query_result → state → Prop) s :
  Q (f (world s) o1 o2 n sz v b).2
    (set_trace (trace s ++ [EvInfoFun o1 o2 n sz v b])
       (set_world (f (world s) o1 o2 n sz v b).1 s)) →
  wp (call_info_fun f o1 o2 n sz v b) Q s.
Proof.
  unfold wp, call_info_fun. destruct (f (world s) o1 o2 n sz v b). trivial.
Qed.

Lemma wp_eq {A} (m : M A) (a : A) s s' :
  wp m (λ a0 s0, a0 = a ∧ s0 = s') s → m s = Some (a, s').
Proof.
  unfold wp. destruct (m s) as [[a0 s0]|]; [|done].
  by intros [-> ->].
Qed.

Lemma wp_wrappers_lookup key (Q : Z → state → Prop) s :
  Q (default NULL (wrappers_entry s key)) s → wp (wrappers_lookup key) Q s.
Proof.
  unfold wp, wrappers_lookup, wrappers_entry. by destruct (wrappers s).
Qed.

Lemma wp_wrappers_size (Q : Z → state → Prop) s :
  Q (match wrappers s with
     | Some t => Z.of_nat (base.size t)
     | None => 0
     end) s →
  wp wrappers_size Q s.
Proof. unfold wp, wrappers_size. by destruct (wrappers s). Qed.

End Logic.

(** * The functions and the invariant *)

Section Invariant.

Context {World : Type}.

Abbreviation state := (state World).
Abbreviation M := (M World).

Implicit Types s : state.

Lemma frame_refl s : frame s s.
Proof. unfold frame. split_and!; [done | lia | done | auto]. Qed.

Lemma frame_trans s1 s2 s3 : frame s1 s2 → frame s2 s3 → frame s1 s3.
Proof.
  intros (Hw1 & Hb1 & Ho1 & Hi1) (Hw2 & Hb2 & Ho2 & Hi2).
  unfold frame. split_and!.
  - congruence.
  - lia.
  - intros p. rewrite Ho2. apply Ho1.
  - intros p Hp. destruct (Hi2 p Hp) as [Hp2|Hp2].
    + destruct (Hi1 p Hp2) as [?|?]; [by left | right; lia].
    + right; lia.
Qed.

Lemma frame_inv s s' : inv s → frame s s' → inv s'.
Proof.
  intros [Hb Hwa Hia Hreg Hwr Hne] (Hw & Hbrk & Hobj & Hinfo).
  split.
  - lia.
  - intros p w Hp. specialize (Hobj p). rewrite Hp in Hobj.
    destruct (wrapper_mem s !! p) as [w0|] eqn:E; [|done].
    specialize (Hwa _ _ E). lia.
  - intros p b Hp. destruct (Hinfo p) as [[b0 Hb0]|?]; [by eexists | | lia].
    specialize (Hia _ _ Hb0). lia.
  - intros p w Hp. specialize (Hobj p). rewrite Hp in Hobj.
    destruct (wrapper_mem s !! p) as [w0|] eqn:E; [|done].
    simpl in Hobj. injection Hobj as Hobj. rewrite Hobj, Hw. eauto.
  - intros t h p Ht Hp. rewrite Hw in Ht.
    destruct (Hwr _ _ _ Ht Hp) as (w & Hwp & Hh).
    specialize (Hobj p). rewrite Hwp in Hobj.
    destruct (wrapper_mem s' !! p) as [w'|]; [|done].
    simpl in Hobj. injection Hobj as Hobj. exists w'. split; congruence.
  - by rewrite Hw.
Qed.

(** A store that keeps the object of the wrapper it overwrites keeps the
    objects of all wrappers. *)
Lemma lookup_store_object (m : gmap Z CCLWrapper) p w w' q :
  m !! p = Some w → cl_object w' = cl_object w →
  cl_object <$> <[p := w']> m !! q = cl_object <$> m !! q.
Proof.
  intros Hp Ho. destruct (decide (p = q)) as [->|Hne].
  - rewrite lookup_insert_eq, Hp. simpl. by rewrite Ho.
  - by rewrite lookup_insert_ne.
Qed.

Lemma frame_store_wrapper s p w w' :
  wrapper_mem s !! p = Some w → cl_object w' = cl_object w →
  frame s (set_wrapper_mem (<[p := w']> (wrapper_mem s)) s).
Proof.
  intros Hp Ho. unfold frame; simpl. split_and!; [done | lia | | auto].
  intros q. by eapply lookup_store_object.
Qed.

Lemma frame_set_trace s t : frame s (set_trace t s).
Proof. unfold frame; simpl. split_and!; [done | lia | done | auto]. Qed.

Lemma frame_set_world s σ : frame s (set_world σ s).
Proof. unfold frame; simpl. split_and!; [done | lia | done | auto]. Qed.

Lemma frame_alloc s : frame s (set_brk (brk s + 1) s).
Proof. unfold frame; simpl. split_and!; [done | lia | done | auto]. Qed.

Lemma frame_delete_info s i :
  frame s (set_info_mem (delete i (info_mem s)) s).
Proof.
  unfold frame; simpl. split_and!; [done | lia | done |].
  intros p [b Hb]. left. apply lookup_delete_Some in Hb as [_ Hb]. eauto.
Qed.

Lemma frame_insert_info s i b :
  is_Some (info_mem s !! i) →
  frame s (set_info_mem (<[i := b]> (info_mem s)) s).
Proof.
  intros Hi. unfold frame; simpl. split_and!; [done | lia | done |].
  intros p Hp. left. destruct (decide (i = p)) as [<-|Hne]; [done|].
  by rewrite lookup_insert_ne in Hp.
Qed.

Lemma framing_ret {A} (a : A) : framing (mret a : M A).
Proof. intros s. apply wlp_ret, frame_refl. Qed.

Lemma framing_bind {A B} (m : M A) (k : A → M B) :
  framing m → (∀ a, framing (k a)) → framing (m ≫= k).
Proof.
  intros Hm Hk s. apply wlp_bind. eapply wlp_mono; [apply (Hm s)|].
  intros a s1 H1. cbv beta in *. eapply wlp_mono; [apply (Hk a s1)|].
  intros b s2 H2. by eapply frame_trans.
Qed.

Lemma framing_emit e : framing (emit e : M unit).
Proof. intros s. apply wlp_emit, frame_set_trace. Qed.

Lemma framing_g_slice_alloc : framing (g_slice_alloc : M Z).
Proof. intros s. apply wlp_g_slice_alloc, frame_alloc. Qed.

Lemma framing_load_wrapper p : framing (load_wrapper p : M _).
Proof. intros s. apply wlp_load_wrapper. intros _ _. apply frame_refl. Qed.

Lemma framing_load_info p : framing (load_info p : M _).
Proof. intros s. apply wlp_load_info. intros _ _. apply frame_refl. Qed.

Lemma framing_store_info p i : framing (store_info p i : M _).
Proof.
  intros s. apply wlp_store_info. intros i0 Hi0.
  apply frame_insert_info. eauto.
Qed.

Lemma framing_call_info_fun (f : ccl_wrapper_info_fp World) o1 o2 n sz v b :
  framing (call_info_fun f o1 o2 n sz v b).
Proof.
  intros s. apply wp_wlp, wp_call_info_fun.
  eapply frame_trans; [apply frame_set_world | apply frame_set_trace].
Qed.

Create HintDb framing discriminated.

#[local] Hint Resolve framing_ret framing_emit framing_g_slice_alloc
  framing_load_wrapper framing_load_info framing_store_info
  framing_call_info_fun : framing.

(** Splits a computation at its binds and branches and closes the leaves
    with the lemmas of the database. *)
Ltac framing :=
  repeat first
    [ solve [auto with framing]
    | apply framing_bind; [| intros ?]
    | match goal with
      | |- framing (if ?b then _ else _) => destruct b
      | |- framing (match ?o with Some _ => _ | None => _ end) => destruct o
      | |- framing (let '(_, _) := ?p in _) => destruct p
      end ].

Lemma framing_second_object p : framing (second_object p : M _).
Proof. unfold second_object. framing. Qed.

#[local] Hint Resolve framing_second_object : framing.

Lemma framing_info_new sz : framing (ccl_wrapper_info_new sz : M _).
Proof.
  unfold ccl_wrapper_info_new.
  intros s. apply wlp_bind, wlp_g_slice_alloc, wlp_bind.
  destruct (0 <? sz).
  - apply wlp_g_slice_alloc, wlp_bind, wlp_modify, wlp_ret.
    unfold frame; simpl. split_and!; [done | lia | done |].
    intros p Hp. destruct (decide (brk s = p)) as [<-|Hne]; [right; lia|].
    rewrite lookup_insert_ne in Hp by done. by left.
  - apply wlp_ret, wlp_bind, wlp_modify, wlp_ret.
    unfold frame; simpl. split_and!; [done | lia | done |].
    intros p Hp. destruct (decide (brk s = p)) as [<-|Hne]; [right; lia|].
    rewrite lookup_insert_ne in Hp by done. by left.
Qed.

Lemma framing_info_destroy i : framing (ccl_wrapper_info_destroy i : M _).
Proof.
  unfold ccl_wrapper_info_destroy. framing.
  intros s. apply wlp_modify, frame_delete_info.
Qed.

#[local] Hint Resolve framing_info_new framing_info_destroy : framing.

Lemma framing_destroy_values vs : framing (destroy_values vs : M _).
Proof.
  induction vs as [|v vs IH]; simpl.
  - apply framing_ret.
  - apply framing_bind; [apply framing_info_destroy | intros _; apply IH].
Qed.

Lemma framing_ref p : framing (ccl_wrapper_ref p : M _).
Proof.
  unfold ccl_wrapper_ref. destruct (decide (p = NULL)).
  - apply framing_ret.
  - intros s. apply wlp_bind, wlp_load_wrapper. intros w Hw.
    apply wlp_store_wrapper. intros _ _.
    by eapply frame_store_wrapper.
Qed.

Lemma framing_add_info p n i : framing (ccl_wrapper_add_info p n i : M _).
Proof.
  unfold ccl_wrapper_add_info.
  destruct (decide (p = NULL)); [apply framing_ret|].
  destruct (decide (i = NULL)); [apply framing_ret|].
  intros s. apply wlp_bind, wlp_load_wrapper. intros w Hw.
  apply wlp_bind.
  eapply wlp_mono.
  { instantiate (1 := λ _ s', frame s s').
    destruct (default ∅ (info w) !! n).
    - apply framing_info_destroy.
    - apply wlp_ret, frame_refl. }
  intros ? s1 H1. apply wlp_store_wrapper. intros w0 Hw0.
  eapply frame_trans; [exact H1|].
  eapply frame_store_wrapper; [exact Hw0|]. simpl.
  destruct H1 as (_ & _ & Ho & _). specialize (Ho p).
  rewrite Hw, Hw0 in Ho. by injection Ho.
Qed.

#[local] Hint Resolve framing_destroy_values framing_ref framing_add_info
  : framing.

Lemma framing_get_info w1 w2 n (f : ccl_wrapper_info_fp World) uc err :
  framing (ccl_wrapper_get_info w1 w2 n f uc err).
Proof. unfold ccl_wrapper_get_info. framing. Qed.

#[local] Hint Resolve framing_get_info : framing.

Lemma framing_get_info_value w1 w2 n (f : ccl_wrapper_info_fp World) uc err :
  framing (ccl_wrapper_get_info_value w1 w2 n f uc err).
Proof. unfold ccl_wrapper_get_info_value. framing. Qed.

Lemma framing_get_info_size w1 w2 n (f : ccl_wrapper_info_fp World) uc err :
  framing (ccl_wrapper_get_info_size w1 w2 n f uc err).
Proof. unfold ccl_wrapper_get_info_size. framing. Qed.

End Invariant.

(** * Construction *)

Section Construction.

Context {World : Type}.

Abbreviation state := (state World).
Abbreviation M := (M World).

Implicit Types s : state.

Lemma ccl_wrapper_ref_run s p w :
  p ≠ NULL → wrapper_mem s !! p = Some w →
  ccl_wrapper_ref p s
  = Some (tt, set_wrapper_mem
                (<[p := with_ref_count (g_atomic_int_inc (ref_count w)) w]>
                   (wrapper_mem s)) s).
Proof.
  intros Hp Hw. apply wp_eq. unfold ccl_wrapper_ref.
  rewrite decide_False by done.
  apply wp_bind. eapply wp_load_wrapper; [done|].
  eapply wp_store_wrapper; done.
Qed.

(** An entry of the table of wrappers points to a live wrapper of that
    object. *)
Lemma inv_entry s obj p :
  inv s → wrappers_entry s obj = Some p →
  p ≠ NULL ∧ ∃ w, wrapper_mem s !! p = Some w ∧ cl_object w = obj.
Proof.
  intros Hinv He. unfold wrappers_entry in He.
  destruct (wrappers s) as [t|] eqn:Ht; [|done].
  destruct (inv_wrapped s Hinv _ _ _ Ht He) as (w & Hw & Ho).
  split; [|eauto].
  pose proof (inv_wrapper_addr s Hinv _ _ Hw). unfold NULL. lia.
Qed.

(** No two live wrappers wrap the same object. *)
Lemma inv_one_wrapper s p1 p2 w1 w2 :
  inv s → wrapper_mem s !! p1 = Some w1 → wrapper_mem s !! p2 = Some w2 →
  cl_object w1 = cl_object w2 → p1 = p2.
Proof.
  intros Hinv H1 H2 Ho.
  destruct (inv_registered s Hinv _ _ H1) as (_ & t1 & Ht1 & He1).
  destruct (inv_registered s Hinv _ _ H2) as (_ & t2 & Ht2 & He2).
  congruence.
Qed.

Lemma ccl_wrapper_new_null s sz :
  ccl_wrapper_new NULL sz s = Some (NULL, s).
Proof. reflexivity. Qed.

Lemma ccl_wrapper_new_existing s obj sz p w :
  obj ≠ NULL → p ≠ NULL →
  wrappers_entry s obj = Some p → wrapper_mem s !! p = Some w →
  ccl_wrapper_new obj sz s
  = Some (p, set_wrapper_mem
               (<[p := with_ref_count (g_atomic_int_inc (ref_count w)) w]>
                  (wrapper_mem s)) s).
Proof.
  intros Hobj Hp He Hw. apply wp_eq. unfold ccl_wrapper_new.
  rewrite decide_False by done.
  apply wp_bind, wp_modify.
  assert (Hs : match wrappers s with
               | Some _ => s
               | None => set_wrappers (Some ∅) s
               end = s).
  { unfold wrappers_entry in He. by destruct (wrappers s). }
  rewrite Hs.
  apply wp_bind, wp_wrappers_lookup. rewrite He. simpl.
  apply wp_bind. rewrite decide_False by done. apply wp_ret.
  apply wp_bind. unfold wp at 1.
  rewrite (ccl_wrapper_ref_run s p w) by done.
  by apply wp_ret.
Qed.

Lemma ccl_wrapper_new_absent s obj sz :
  obj ≠ NULL → brk s ≠ NULL →
  default NULL (wrappers_entry s obj) = NULL →
  ccl_wrapper_new obj sz s = Some (brk s, with_new_wrapper obj s).
Proof.
  intros Hobj Hbrk He. apply wp_eq. unfold ccl_wrapper_new.
  rewrite decide_False by done.
  apply wp_bind, wp_modify.
  set (s1 := match wrappers s with
             | Some _ => s
             | None => set_wrappers (Some ∅) s
             end).
  assert (He1 : default NULL (wrappers_entry s1 obj) = NULL).
  { unfold s1, wrappers_entry in *.
    destruct (wrappers s) as [t|] eqn:Et.
    - by rewrite Et.
    - simpl. by rewrite lookup_empty. }
  assert (Hw1 : wrappers s1 = Some (default ∅ (wrappers s))).
  { unfold s1. by destruct (wrappers s) eqn:Et. }
  assert (Hrest : wrapper_mem s1 = wrapper_mem s ∧ info_mem s1 = info_mem s
                  ∧ brk s1 = brk s ∧ world s1 = world s
                  ∧ trace s1 = trace s).
  { unfold s1. by destruct (wrappers s). }
  destruct Hrest as (Hm & Hi & Hb & Hwo & Ht).
  clearbody s1.
  apply wp_bind, wp_wrappers_lookup. rewrite He1.
  apply wp_bind. rewrite decide_True by done.
  apply wp_bind. unfold g_slice_alloc0_wrapper.
  apply wp_bind, wp_g_slice_alloc, wp_bind, wp_modify, wp_ret.
  apply wp_bind. eapply wp_load_wrapper.
  { simpl. apply lookup_insert_eq. }
  apply wp_bind. eapply wp_store_wrapper.
  { simpl. apply lookup_insert_eq. }
  apply wp_bind. unfold wrappers_insert. apply wp_modify. simpl.
  rewrite Hw1. apply wp_ret.
  apply wp_bind. unfold wp at 1.
  erewrite ccl_wrapper_ref_run; [| congruence | simpl; apply lookup_insert_eq].
  apply wp_ret. split; [congruence|].
  unfold with_new_wrapper, set_wrapper_mem, set_wrappers; simpl.
  rewrite !insert_insert_eq. rewrite Hm, Hi, Hb, Hwo, Ht.
  reflexivity.
Qed.

End Construction.

(** * Release *)

Section Release.

Context {World : Type}.

Abbreviation state := (state World).
Abbreviation M := (M World).

Implicit Types s : state.

Lemma state_eq (a1 a2 : option (gmap Z Z)) b1 b2 c1 c2 d1 d2
    (e1 e2 : World) f1 f2 :
  a1 = a2 → b1 = b2 → c1 = c2 → d1 = d2 → e1 = e2 → f1 = f2 →
  mkState a1 b1 c1 d1 e1 f1 = mkState a2 b2 c2 d2 e2 f2.
Proof. by intros -> -> -> -> -> ->. Qed.

Lemma free_infos_lookup vs (m : gmap Z CCLWrapperInfo) i :
  free_infos vs m !! i = if decide (i ∈ vs) then None else m !! i.
Proof.
  unfold free_infos. revert m.
  induction vs as [|v vs IH]; intros m.
  - cbn [foldl]. case_decide; [set_solver | done].
  - cbn [foldl]. rewrite IH.
    destruct (decide (i ∈ vs)) as [Hin|Hin];
      destruct (decide (i ∈ v :: vs)) as [Hin'|Hin']; try done.
    + set_solver.
    + apply lookup_delete_None. left.
      apply elem_of_cons in Hin' as [->|?]; done.
    + apply lookup_delete_ne. set_solver.
Qed.

Lemma destroyable_cons m v vs :
  destroyable m (v :: vs) →
  is_Some (m !! v) ∧ destroyable (delete v m) vs.
Proof.
  intros [Hnd Hlive]. apply NoDup_cons in Hnd as [Hv Hnd].
  split; [apply Hlive; set_solver|].
  split; [done|]. intros u Hu.
  rewrite lookup_delete_ne; [apply Hlive; set_solver|].
  intros ->. done.
Qed.

Lemma ccl_wrapper_info_destroy_run s i b :
  i ≠ NULL → info_mem s !! i = Some b →
  ccl_wrapper_info_destroy i s
  = Some (tt, mkState (wrappers s) (wrapper_mem s) (delete i (info_mem s))
                (brk s) (world s) (trace s ++ [EvInfoDestroy i])).
Proof.
  intros Hi Hb. apply wp_eq. unfold ccl_wrapper_info_destroy.
  rewrite decide_False by done.
  apply wp_bind. eapply wp_load_info; [done|].
  apply wp_bind, wp_emit, wp_modify. done.
Qed.

Lemma destroy_values_run vs s :
  destroyable (info_mem s) (filter (λ v, v ≠ NULL) vs) →
  destroy_values vs s
  = Some (tt, mkState (wrappers s) (wrapper_mem s)
                (free_infos (filter (λ v, v ≠ NULL) vs) (info_mem s))
                (brk s) (world s)
                (trace s ++ map EvInfoDestroy (filter (λ v, v ≠ NULL) vs))).
Proof.
  revert s. induction vs as [|v vs IH]; intros s Hd.
  - simpl. rewrite app_nil_r. by destruct s.
  - simpl. apply wp_eq. apply wp_bind.
    destruct (decide (v = NULL)) as [->|Hv].
    + unfold ccl_wrapper_info_destroy. rewrite decide_True by done.
      apply wp_ret. rewrite filter_cons_False in Hd |- * by (intros H; by apply H).
      unfold wp. rewrite IH by done. done.
    + rewrite filter_cons_True in Hd |- * by done.
      apply destroyable_cons in Hd as [[b Hb] Hd].
      unfold wp at 1. rewrite (ccl_wrapper_info_destroy_run s v b) by done.
      unfold wp. rewrite IH by done. simpl.
      split; [done|]. apply state_eq; try done.
      by rewrite <- app_assoc.
Qed.

Lemma info_table_destroy_run p t s :
  destroyable (info_mem s) (cached_infos t) →
  info_table_destroy p t s
  = Some (tt, mkState (wrappers s) (wrapper_mem s)
                (free_infos (cached_infos t) (info_mem s))
                (brk s) (world s)
                (trace s ++ cache_events p (Some t))).
Proof.
  intros Hd. apply wp_eq. unfold info_table_destroy.
  apply wp_bind. unfold wp at 1. unfold cached_infos in *.
  rewrite destroy_values_run by done.
  apply wp_emit. split; [done|]. simpl.
  apply state_eq; try done. by rewrite <- app_assoc.
Qed.

(** An [unref] that leaves references only decrements the count. *)
Lemma ccl_wrapper_unref_keep s p sz rf rc err w :
  p ≠ NULL → err_unset err = true → wrapper_mem s !! p = Some w →
  gint_wrap (ref_count w - 1) ≠ 0 →
  ccl_wrapper_unref p sz rf rc err s
  = Some ((CL_FALSE, err),
          set_wrapper_mem
            (<[p := with_ref_count (gint_wrap (ref_count w - 1)) w]>
               (wrapper_mem s)) s).
Proof.
  intros Hp He Hw Hn. apply wp_eq. unfold ccl_wrapper_unref.
  rewrite decide_False by done. rewrite He. simpl.
  apply wp_bind. eapply wp_load_wrapper; [done|].
  unfold g_atomic_int_dec_and_test.
  apply Z.eqb_neq in Hn. rewrite Hn.
  apply wp_bind. eapply wp_store_wrapper; [done|].
  by apply wp_ret.
Qed.

(** An [unref] that drops the count to zero tears the wrapper down. *)
Lemma ccl_wrapper_unref_teardown s p sz rf rc err w :
  p ≠ NULL → err_unset err = true → wrapper_mem s !! p = Some w →
  gint_wrap (ref_count w - 1) = 0 →
  cache_destroyable s w →
  ccl_wrapper_unref p sz rf rc err s
  = Some ((CL_TRUE, release_cl_error rc (cl_object w) (world s) err),
          after_teardown p sz w rf rc s).
Proof.
  intros Hp He Hw Hn Hd. apply wp_eq. unfold ccl_wrapper_unref.
  rewrite decide_False by done. rewrite He. simpl.
  apply wp_bind. eapply wp_load_wrapper; [done|].
  unfold g_atomic_int_dec_and_test. rewrite Hn. simpl.
  apply wp_bind. eapply wp_store_wrapper; [done|].
  apply wp_bind.
  eapply wp_mono.
  { instantiate (1 := λ e s1,
      e = release_cl_error rc (cl_object w) (world s) err ∧
      s1 = mkState (wrappers s)
             (<[p := with_ref_count 0 w]> (wrapper_mem s)) (info_mem s)
             (brk s) (release_cl_world rc (cl_object w) (world s))
             (trace s ++ release_cl_events rc (cl_object w) (world s))).
    destruct rc as [f|]; simpl.
    - apply wp_bind, wp_call_release_cl. simpl.
      destruct (decide ((f (world s) (cl_object w)).2 ≠ CL_SUCCESS));
        by apply wp_ret.
    - apply wp_ret. split; [done|]. unfold set_wrapper_mem; simpl.
      by rewrite app_nil_r. }
  intros e s1 [-> ->].
  apply wp_bind.
  eapply wp_mono.
  { instantiate (1 := λ _ s2,
      s2 = mkState (wrappers s)
             (<[p := with_ref_count 0 w]> (wrapper_mem s))
             (free_infos (cache_infos (info w)) (info_mem s))
             (brk s) (release_cl_world rc (cl_object w) (world s))
             (trace s ++ release_cl_events rc (cl_object w) (world s)
                ++ cache_events p (info w))).
    destruct (info w) as [t|] eqn:Ei; simpl.
    - unfold wp. rewrite info_table_destroy_run by (by apply Hd).
      simpl. apply state_eq; try done. by rewrite <- app_assoc.
    - apply wp_ret. by rewrite app_nil_r. }
  intros _ s2 ->.
  apply wp_bind. unfold wrappers_remove.
  apply wp_bind, wp_emit, wp_modify.
  apply wp_bind, wp_wrappers_size.
  apply wp_bind.
  eapply wp_mono.
  { instantiate (1 := λ _ s3,
      s3 = mkState (wrappers_without (cl_object w) (wrappers s))
             (<[p := with_ref_count 0 w]> (wrapper_mem s))
             (free_infos (cache_infos (info w)) (info_mem s))
             (brk s) (release_cl_world rc (cl_object w) (world s))
             (trace s ++ release_cl_events rc (cl_object w) (world s)
                ++ cache_events p (info w)
                ++ table_events (cl_object w) (wrappers s))).
    unfold table_events, wrappers_without.
    destruct (wrappers s) as [t|] eqn:Et; simpl.
    - destruct (decide (base.size (delete (cl_object w) t) = 0%nat)) as [Hz|Hz].
      + rewrite decide_True by lia.
        unfold wrappers_destroy. apply wp_bind, wp_emit, wp_modify.
        simpl. apply state_eq; try done.
        rewrite <- !app_assoc. done.
      + rewrite decide_False by lia. apply wp_ret.
        apply state_eq; try done. rewrite <- !app_assoc. done.
    - unfold wrappers_destroy. apply wp_bind, wp_emit, wp_modify.
      simpl. apply state_eq; try done. rewrite <- !app_assoc. done. }
  intros _ s3 ->.
  apply wp_bind.
  eapply wp_mono.
  { instantiate (1 := λ _ s4,
      s4 = mkState (wrappers_without (cl_object w) (wrappers s))
             (<[p := with_ref_count 0 w]> (wrapper_mem s))
             (free_infos (cache_infos (info w)) (info_mem s))
             (brk s)
             (release_fields_world rf p
                (release_cl_world rc (cl_object w) (world s)))
             (trace s ++ release_cl_events rc (cl_object w) (world s)
                ++ cache_events p (info w)
                ++ table_events (cl_object w) (wrappers s)
                ++ release_fields_events rf p)).
    destruct rf as [f|]; simpl.
    - apply wp_call_release_fields. simpl.
      apply state_eq; try done. rewrite <- !app_assoc. done.
    - apply wp_ret. by rewrite app_nil_r. }
  intros _ s4 ->.
  apply wp_bind. unfold g_slice_free1_wrapper.
  apply wp_bind. eapply wp_load_wrapper; [apply lookup_insert_eq|].
  apply wp_bind, wp_emit, wp_modify, wp_ret.
  split; [done|]. unfold after_teardown, teardown_events. simpl.
  apply state_eq; try done.
  - apply delete_insert_eq.
  - rewrite <- !app_assoc. simpl. by rewrite <- !app_assoc.
Qed.

End Release.

(** * Every reachable state satisfies the invariant *)

Section Reachable.

Context {World : Type}.

Abbreviation state := (state World).
Abbreviation M := (M World).

Implicit Types s : state.

Lemma inv_initial (σ : World) : inv (initial_state σ).
Proof.
  split; simpl; try done.
Qed.

Lemma inv_with_new_wrapper s obj :
  inv s → obj ≠ NULL → default NULL (wrappers_entry s obj) = NULL →
  inv (with_new_wrapper obj s).
Proof.
  intros Hinv Hobj He.
  assert (Hnone : wrappers_entry s obj = None).
  { destruct (wrappers_entry s obj) as [p|] eqn:E; [|done].
    apply inv_entry in E as [Hp _]; [|done]. done. }
  destruct Hinv as [Hb Hwa Hia Hreg Hwr Hne].
  split; simpl.
  - lia.
  - intros p w Hp. apply lookup_insert_Some in Hp as [[<- _]|[_ Hp]]; [lia|].
    specialize (Hwa _ _ Hp). lia.
  - intros p b Hp. specialize (Hia _ _ Hp). lia.
  - intros p w Hp. apply lookup_insert_Some in Hp as [[<- <-]|[Hne' Hp]]; simpl.
    + split; [done|]. eexists. split; [done|]. apply lookup_insert_eq.
    + destruct (Hreg _ _ Hp) as (Ho & t & Ht & Hl). split; [done|].
      eexists. split; [done|]. rewrite Ht. simpl.
      rewrite lookup_insert_ne; [done|].
      intros ->. unfold wrappers_entry in Hnone. rewrite Ht in Hnone.
      congruence.
  - intros t h p [= <-] Hp.
    apply lookup_insert_Some in Hp as [[<- <-]|[Hne' Hp]].
    + eexists. split; [apply lookup_insert_eq | done].
    + destruct (wrappers s) as [t|] eqn:Ht; simpl in Hp; [|done].
      destruct (Hwr _ _ _ eq_refl Hp) as (w & Hw & Ho).
      exists w. split; [|done].
      rewrite lookup_insert_ne; [done|].
      specialize (Hwa _ _ Hw). lia.
  - intros [= Habs]. by apply insert_non_empty in Habs.
Qed.

Lemma inv_new s obj sz :
  inv s → wlp (ccl_wrapper_new obj sz) (λ _ s', inv s') s.
Proof.
  intros Hinv. apply wlp_run. intros p s' Hrun.
  destruct (decide (obj = NULL)) as [->|Hobj].
  { rewrite ccl_wrapper_new_null in Hrun. by injection Hrun as _ <-. }
  destruct (wrappers_entry s obj) as [q|] eqn:He.
  - destruct (inv_entry s obj q Hinv He) as (Hq & w & Hw & Ho).
    rewrite (ccl_wrapper_new_existing s obj sz q w) in Hrun by done.
    injection Hrun as _ <-.
    eapply frame_inv; [done|]. by eapply frame_store_wrapper.
  - rewrite ccl_wrapper_new_absent in Hrun.
    + injection Hrun as _ <-. apply inv_with_new_wrapper; [done..|].
      by rewrite He.
    + done.
    + pose proof (inv_brk s Hinv). unfold NULL. lia.
    + by rewrite He.
Qed.

(** Removing a live wrapper and its entry keeps the invariant. *)
Lemma inv_remove s p w wm (σ : World) tr :
  inv s → wrapper_mem s !! p = Some w →
  wm = delete p (wrapper_mem s) →
  inv (mkState (wrappers_without (cl_object w) (wrappers s)) wm
         (info_mem s) (brk s) σ tr).
Proof.
  intros Hinv Hw ->.
  destruct (inv_registered s Hinv _ _ Hw) as (Ho & t & Ht & Hl).
  destruct Hinv as [Hb Hwa Hia Hreg Hwr Hne].
  assert (Hkeep : ∀ q w', delete p (wrapper_mem s) !! q = Some w' →
                          delete (cl_object w) t !! cl_object w' = Some q).
  { intros q w' Hq. apply lookup_delete_Some in Hq as [Hpq Hq].
    destruct (Hreg _ _ Hq) as (_ & t' & Ht' & Hl').
    assert (t' = t) as -> by congruence.
    apply lookup_delete_Some. split; [|done].
    intros Heq. rewrite <- Heq in Hl'. congruence. }
  split; simpl.
  - done.
  - intros q w' Hq. apply lookup_delete_Some in Hq as [_ Hq]. eauto.
  - done.
  - intros q w' Hq. pose proof (Hkeep _ _ Hq) as Hl'.
    apply lookup_delete_Some in Hq as [Hpq Hq].
    split; [by apply (Hreg _ _ Hq)|].
    unfold wrappers_without. rewrite Ht.
    destruct (decide (base.size (delete (cl_object w) t) = 0%nat)) as [Hz|Hz].
    + apply map_size_empty_iff in Hz. rewrite Hz in Hl'. done.
    + eauto.
  - intros t' h q Ht' Hq. unfold wrappers_without in Ht'. rewrite Ht in Ht'.
    destruct (decide (base.size (delete (cl_object w) t) = 0%nat)); [done|].
    injection Ht' as <-.
    apply lookup_delete_Some in Hq as [Hne' Hq].
    destruct (Hwr _ _ _ Ht Hq) as (w' & Hw' & Ho').
    exists w'. split; [|done].
    apply lookup_delete_Some. split; [|done].
    intros <-. congruence.
  - unfold wrappers_without. rewrite Ht.
    destruct (decide (base.size (delete (cl_object w) t) = 0%nat)) as [Hz|Hz];
      [done|].
    intros [= Habs]. rewrite Habs in Hz. by rewrite map_size_empty in Hz.
Qed.

Lemma framing_call_release_cl (f : ccl_wrapper_release_cl_object World) obj :
  framing (call_release_cl f obj).
Proof.
  intros s. apply wp_wlp, wp_call_release_cl.
  eapply frame_trans; [apply frame_set_world | apply frame_set_trace].
Qed.

Lemma framing_info_table_destroy p t :
  framing (info_table_destroy p t : M unit).
Proof.
  unfold info_table_destroy.
  apply framing_bind; [apply framing_destroy_values|].
  intros _. apply framing_emit.
Qed.

Lemma inv_unref s p sz rf rc err :
  inv s → wlp (ccl_wrapper_unref p sz rf rc err) (λ _ s', inv s') s.
Proof.
  intros Hinv. unfold ccl_wrapper_unref.
  destruct (decide (p = NULL)); [by apply wlp_ret|].
  destruct (negb (err_unset err)); [by apply wlp_ret|].
  apply wlp_bind, wlp_load_wrapper. intros w Hw.
  destruct (g_atomic_int_dec_and_test (ref_count w)) as [k zero].
  apply wlp_bind, wlp_store_wrapper. intros _ _.
  set (s0 := set_wrapper_mem (<[p := with_ref_count k w]> (wrapper_mem s)) s).
  assert (H0 : frame s s0) by (by eapply frame_store_wrapper).
  destruct zero; [|apply wlp_ret; by eapply frame_inv].
  apply wlp_bind.
  eapply wlp_mono.
  { instantiate (1 := λ _ s1, frame s0 s1).
    destruct rc as [f|]; [|apply wlp_ret, frame_refl].
    apply framing_bind; [apply framing_call_release_cl|].
    intros st. destruct (decide (st ≠ CL_SUCCESS)); apply framing_ret. }
  intros e s1 H1. apply wlp_bind.
  eapply wlp_mono.
  { instantiate (1 := λ _ s2, frame s1 s2).
    simpl. destruct (info w); [apply framing_info_table_destroy|].
    apply wlp_ret, frame_refl. }
  intros ? s2 H2.
  assert (Hf : frame s s2).
  { eapply frame_trans; [exact H0|]. eapply frame_trans; [exact H1 | exact H2]. }
  pose proof (frame_inv _ _ Hinv Hf) as Hinv2.
  assert (∃ w2, wrapper_mem s2 !! p = Some w2 ∧ cl_object w2 = cl_object w)
    as (w2 & Hw2 & Ho2).
  { destruct Hf as (_ & _ & Ho & _). specialize (Ho p). rewrite Hw in Ho.
    destruct (wrapper_mem s2 !! p) as [w2|]; [|done].
    injection Ho as Ho. eauto. }
  rewrite <- Ho2.
  apply wp_wlp. unfold wrappers_remove.
  apply wp_bind, wp_bind, wp_emit, wp_modify, wp_bind, wp_wrappers_size.
  apply wp_bind.
  eapply wp_mono.
  { instantiate (1 := λ _ s3, ∃ tr,
      s3 = mkState (wrappers_without (cl_object w2) (wrappers s2))
             (wrapper_mem s2) (info_mem s2) (brk s2) (world s2) tr).
    unfold wrappers_without. simpl.
    destruct (wrappers s2) as [t|] eqn:Et; simpl.
    - destruct (decide (base.size (delete (cl_object w2) t) = 0%nat)) as [Hz|Hz].
      + rewrite decide_True by lia.
        unfold wrappers_destroy. apply wp_bind, wp_emit, wp_modify.
        simpl. eauto.
      + rewrite decide_False by lia. apply wp_ret. simpl. eauto.
    - rewrite Et. simpl.
      unfold wrappers_destroy. apply wp_bind, wp_emit, wp_modify.
      simpl. eauto. }
  intros ? s3 (tr & ->).
  apply wp_bind.
  eapply wp_mono.
  { instantiate (1 := λ _ s4, ∃ σ tr',
      s4 = mkState (wrappers_without (cl_object w2) (wrappers s2))
             (wrapper_mem s2) (info_mem s2) (brk s2) σ tr').
    destruct rf as [f|].
    - apply wp_call_release_fields. simpl. eauto.
    - apply wp_ret. eauto. }
  intros ? s4 (σ & tr' & ->).
  apply wp_bind. unfold g_slice_free1_wrapper.
  apply wp_bind. eapply wp_load_wrapper; [exact Hw2|].
  apply wp_bind, wp_emit, wp_modify, wp_ret.
  unfold set_wrapper_mem, set_trace; simpl.
  by apply (inv_remove s2 p w2).
Qed.

Lemma inv_framing {A} (m : M A) s :
  framing m → inv s → wlp m (λ _ s', inv s') s.
Proof.
  intros Hm Hinv. eapply wlp_mono; [apply (Hm s)|].
  intros ? s' Hf. by eapply frame_inv.
Qed.

Lemma inv_exec c s s' : inv s → exec c s = Some (tt, s') → inv s'.
Proof.
  intros Hinv Hrun.
  cut (wlp (exec c) (λ _ s', inv s') s).
  { intros H. by apply (proj1 (wlp_run _ _ _) H tt s'). }
  clear Hrun. destruct c; simpl.
  - apply wlp_bind. eapply wlp_mono; [by apply inv_new|].
    intros ? ? ?. by apply wlp_ret.
  - by apply inv_framing; [apply framing_ref|].
  - apply wlp_bind. eapply wlp_mono; [by apply inv_unref|].
    intros ? ? ?. by apply wlp_ret.
  - by apply inv_framing; [apply framing_add_info|].
  - apply inv_framing; [|done].
    apply framing_bind; [apply framing_get_info | intros ?; apply framing_ret].
  - apply inv_framing; [|done].
    apply framing_bind; [apply framing_get_info_value | intros ?; apply framing_ret].
  - apply inv_framing; [|done].
    apply framing_bind; [apply framing_get_info_size | intros ?; apply framing_ret].
  - apply inv_framing; [|done].
    apply framing_bind; [apply framing_info_new | intros ?; apply framing_ret].
  - by apply inv_framing; [apply framing_info_destroy|].
Qed.

Lemma reachable_inv s : reachable s → inv s.
Proof.
  induction 1 as [σ | s c s' _ IH Hrun | s σ _ IH].
  - apply inv_initial.
  - by eapply inv_exec.
  - eapply frame_inv; [exact IH | apply frame_set_world].
Qed.

End Reachable.

(** * The query and the cache *)

Section Query.

Context {World : Type}.

Abbreviation state := (state World).
Abbreviation M := (M World).

Implicit Types s : state.

Lemma second_object_run s wrapper2 obj2 :
  second_of s wrapper2 = Some obj2 →
  second_object wrapper2 s = Some (obj2, s).
Proof.
  unfold second_of, second_object. intros H.
  destruct (decide (wrapper2 = NULL)).
  - by injection H as <-.
  - apply wp_eq, wp_bind.
    destruct (wrapper_mem s !! wrapper2) as [w2|] eqn:Hw2; [|done].
    injection H as <-. eapply wp_load_wrapper; [done|]. by apply wp_ret.
Qed.

Lemma ccl_wrapper_info_new_run s sz :
  0 < sz →
  ccl_wrapper_info_new sz s
  = Some (brk s,
          mkState (wrappers s) (wrapper_mem s)
            (<[brk s := mkInfo (brk s + 1) sz (repeat x00 (Z.to_nat sz))]>
               (info_mem s))
            (brk s + 2) (world s) (trace s)).
Proof.
  intros Hsz. apply wp_eq. unfold ccl_wrapper_info_new.
  apply wp_bind, wp_g_slice_alloc, wp_bind.
  apply Z.ltb_lt in Hsz. rewrite Hsz.
  apply wp_g_slice_alloc, wp_bind, wp_modify, wp_ret. simpl.
  split; [done|]. apply state_eq; try done. simpl. lia.
Qed.

Lemma ccl_wrapper_info_new_zero s :
  ccl_wrapper_info_new 0 s
  = Some (brk s,
          mkState (wrappers s) (wrapper_mem s)
            (<[brk s := mkInfo NULL 0 []]> (info_mem s))
            (brk s + 1) (world s) (trace s)).
Proof. reflexivity. Qed.

Lemma ccl_wrapper_add_info_run s p n i w :
  p ≠ NULL → i ≠ NULL → wrapper_mem s !! p = Some w →
  (∀ old, old ∈ replaced w n → is_Some (info_mem s !! old)) →
  ccl_wrapper_add_info p n i s = Some (tt, after_add_info p n i w s).
Proof.
  intros Hp Hi Hw Hold. apply wp_eq. unfold ccl_wrapper_add_info.
  rewrite !decide_False by done.
  apply wp_bind. eapply wp_load_wrapper; [done|].
  apply wp_bind.
  eapply wp_mono.
  { instantiate (1 := λ _ s1,
      s1 = mkState (wrappers s) (wrapper_mem s)
             (free_infos (replaced w n) (info_mem s)) (brk s) (world s)
             (trace s ++ map EvInfoDestroy (replaced w n))).
    unfold replaced in *.
    destruct (default ∅ (info w) !! n) as [old|].
    - destruct (decide (old = NULL)) as [->|Hne].
      + apply wp_ret. simpl. rewrite app_nil_r. by destruct s.
      + destruct (Hold old) as [b Hb]; [set_solver|].
        unfold wp. by rewrite (ccl_wrapper_info_destroy_run s old b).
    - apply wp_ret. simpl. rewrite app_nil_r. by destruct s. }
  intros ? s1 ->.
  eapply wp_store_wrapper; [exact Hw|]. done.
Qed.

Section Call.

Variables (s : state) (wrapper1 wrapper2 n : Z).
Variables (f : ccl_wrapper_info_fp World) (use_cache : cl_bool).
Variables (err : GErrorLoc) (w : CCLWrapper) (obj2 : option Z).

Hypothesis Herr : err_unset err = true.
Hypothesis Hwrapper1 : wrapper1 ≠ NULL.
Hypothesis Hlive : wrapper_mem s !! wrapper1 = Some w.
Hypothesis Hobj2 : second_of s wrapper2 = Some obj2.

(** The cache answers: nothing is called, nothing changes. *)
Lemma ccl_wrapper_get_info_hit :
  use_cache = true → info_cached w n = true →
  ccl_wrapper_get_info wrapper1 wrapper2 n f use_cache err s
  = Some ((default NULL (default ∅ (info w) !! n), err), s).
Proof using Herr Hwrapper1 Hlive.
  intros -> Hc. apply wp_eq. unfold ccl_wrapper_get_info.
  rewrite Herr. simpl. rewrite decide_False by done.
  apply wp_bind. eapply wp_load_wrapper; [done|].
  rewrite Hc. simpl. by apply wp_ret.
Qed.

Hypothesis Hquery : negb use_cache || negb (info_cached w n) = true.

(** The size query fails. *)
Lemma ccl_wrapper_get_info_probe_failed :
  qr_status (probe f (cl_object w) obj2 n s).2 ≠ CL_SUCCESS →
  ccl_wrapper_get_info wrapper1 wrapper2 n f use_cache err s
  = Some ((NULL, g_set_error err CCL_ERROR_OCL (MsgInfoSize (qr_status (probe f (cl_object w) obj2 n s).2))),
          after_probe f (cl_object w) obj2 n s).
Proof using Herr Hwrapper1 Hlive Hobj2 Hquery.
  intros Hst. apply wp_eq. unfold ccl_wrapper_get_info.
  rewrite Herr. simpl. rewrite decide_False by done.
  apply wp_bind. eapply wp_load_wrapper; [done|].
  rewrite Hquery.
  apply wp_bind. unfold wp at 1. rewrite (second_object_run _ _ _ Hobj2).
  apply wp_bind, wp_call_info_fun.
  fold (probe f (cl_object w) obj2 n s).
  rewrite decide_True by done. by apply wp_ret.
Qed.

(** The size query reports a size of zero. *)
Lemma ccl_wrapper_get_info_size_zero :
  qr_status (probe f (cl_object w) obj2 n s).2 = CL_SUCCESS →
  probed_size f (cl_object w) obj2 n s = 0 →
  ccl_wrapper_get_info wrapper1 wrapper2 n f use_cache err s
  = Some ((NULL, g_set_error err CCL_ERROR_OCL MsgInfoSizeZero),
          after_probe f (cl_object w) obj2 n s).
Proof using Herr Hwrapper1 Hlive Hobj2 Hquery.
  intros Hst Hsz. apply wp_eq. unfold ccl_wrapper_get_info.
  rewrite Herr. simpl. rewrite decide_False by done.
  apply wp_bind. eapply wp_load_wrapper; [done|].
  rewrite Hquery.
  apply wp_bind. unfold wp at 1. rewrite (second_object_run _ _ _ Hobj2).
  apply wp_bind, wp_call_info_fun.
  fold (probe f (cl_object w) obj2 n s).
  rewrite decide_False by (intros H; by apply H).
  fold (probed_size f (cl_object w) obj2 n s).
  rewrite decide_True by done. by apply wp_ret.
Qed.

(** Both queries are made; the state before the outcome of the second is
    looked at. *)
Lemma wp_get_info_fetch (Q : Z * GErrorLoc → state → Prop) :
  qr_status (probe f (cl_object w) obj2 n s).2 = CL_SUCCESS →
  probed_size f (cl_object w) obj2 n s ≠ 0 →
  wp (if decide (qr_status (fetch f (cl_object w) obj2 n s).2 ≠ CL_SUCCESS) then
        mret (NULL, g_set_error err CCL_ERROR_OCL (MsgInfoValue (qr_status (fetch f (cl_object w) obj2 n s).2)))
      else
        ccl_wrapper_add_info wrapper1 n (brk s) ;; mret (brk s, err))
     Q (after_fetch f (cl_object w) obj2 n s) →
  wp (ccl_wrapper_get_info wrapper1 wrapper2 n f use_cache err) Q s.
Proof using Herr Hwrapper1 Hlive Hobj2 Hquery.
  intros Hst Hsz HQ. unfold ccl_wrapper_get_info.
  rewrite Herr. simpl. rewrite decide_False by done.
  apply wp_bind. eapply wp_load_wrapper; [done|].
  rewrite Hquery.
  apply wp_bind. unfold wp at 1. rewrite (second_object_run _ _ _ Hobj2).
  apply wp_bind, wp_call_info_fun.
  fold (probe f (cl_object w) obj2 n s).
  rewrite decide_False by (intros H; by apply H).
  fold (probed_size f (cl_object w) obj2 n s).
  rewrite decide_False by done.
  assert (Hpos : 0 < probed_size f (cl_object w) obj2 n s).
  { unfold probed_size, size_t_wrap in *.
    pose proof (Z.mod_pos_bound (qr_size_ret (probe f (cl_object w) obj2 n s).2)
                  (2 ^ 64) ltac:(lia)). lia. }
  apply wp_bind. unfold wp at 1. rewrite ccl_wrapper_info_new_run by done.
  apply wp_bind. eapply wp_load_info; [simpl; apply lookup_insert_eq|].
  apply wp_bind. unfold wp at 1.
  rewrite (second_object_run _ wrapper2 obj2) by done.
  apply wp_bind, wp_call_info_fun. simpl.
  fold (fetch f (cl_object w) obj2 n s).
  apply wp_bind. eapply wp_store_info; [simpl; apply lookup_insert_eq|].
  match goal with
  | |- wp _ Q ?st =>
      replace st with (after_fetch f (cl_object w) obj2 n s); [exact HQ|]
  end.
  unfold after_fetch, fetched_info, fetch_event, probe_event. simpl.
  apply state_eq; try done.
  - by rewrite insert_insert_eq.
  - by rewrite <- app_assoc.
Qed.

(** The value query fails: the object made for the value stays allocated
    and is in no cache. *)
Lemma ccl_wrapper_get_info_fetch_failed :
  qr_status (probe f (cl_object w) obj2 n s).2 = CL_SUCCESS →
  probed_size f (cl_object w) obj2 n s ≠ 0 →
  qr_status (fetch f (cl_object w) obj2 n s).2 ≠ CL_SUCCESS →
  ccl_wrapper_get_info wrapper1 wrapper2 n f use_cache err s
  = Some ((NULL, g_set_error err CCL_ERROR_OCL (MsgInfoValue (qr_status (fetch f (cl_object w) obj2 n s).2))),
          after_fetch f (cl_object w) obj2 n s).
Proof using Herr Hwrapper1 Hlive Hobj2 Hquery.
  intros Hst Hsz Hst2. apply wp_eq, wp_get_info_fetch; [done..|].
  rewrite decide_True by done. by apply wp_ret.
Qed.

(** Both queries succeed: the new object enters the cache and the one it
    replaces, if any, is destroyed. *)
Lemma ccl_wrapper_get_info_fetched :
  qr_status (probe f (cl_object w) obj2 n s).2 = CL_SUCCESS →
  probed_size f (cl_object w) obj2 n s ≠ 0 →
  qr_status (fetch f (cl_object w) obj2 n s).2 = CL_SUCCESS →
  brk s ≠ NULL →
  (∀ old, old ∈ replaced w n → is_Some (info_mem s !! old)) →
  ccl_wrapper_get_info wrapper1 wrapper2 n f use_cache err s
  = Some ((brk s, err),
          after_add_info wrapper1 n (brk s) w
            (after_fetch f (cl_object w) obj2 n s)).
Proof using Herr Hwrapper1 Hlive Hobj2 Hquery.
  intros Hst Hsz Hst2 Hbrk Hold. apply wp_eq, wp_get_info_fetch; [done..|].
  rewrite decide_False by (intros H; by apply H).
  apply wp_bind. unfold wp at 1.
  rewrite (ccl_wrapper_add_info_run _ wrapper1 n (brk s) w); [by apply wp_ret|done..|].
  intros old Hin. simpl.
  destruct (decide (brk s = old)) as [<-|Hne].
  - rewrite lookup_insert_eq. eauto.
  - rewrite lookup_insert_ne by done. by apply Hold.
Qed.

End Call.

End Query.

(** * Queries keep caches separate *)

Section Caches.

Context {World : Type}.

Abbreviation state := (state World).
Abbreviation M := (M World).

Implicit Types s : state.
Implicit Types q : @query_call World.

Lemma cache_entry_same s s' p n i :
  wrapper_mem s' = wrapper_mem s → cache_entry s' p n i ↔ cache_entry s p n i.
Proof. intros H. unfold cache_entry. by rewrite H. Qed.

Lemma cache_entry_cached s p n i w :
  wrapper_mem s !! p = Some w → cache_entry s p n i →
  info_cached w n = true ∧ default ∅ (info w) !! n = Some i.
Proof.
  intros Hw (w' & t & Hw' & Ht & Hi).
  assert (w' = w) as -> by congruence.
  unfold info_cached. rewrite Ht. simpl. split; [|done].
  apply bool_decide_eq_true. eauto.
Qed.

Lemma replaced_entry s p n w old :
  wrapper_mem s !! p = Some w →
  old ∈ replaced w n ↔ old ≠ NULL ∧ cache_entry s p n old.
Proof.
  intros Hw. unfold replaced. split.
  - destruct (default ∅ (info w) !! n) as [o|] eqn:Ho; [|set_solver].
    destruct (decide (o = NULL)); [set_solver|].
    intros Hin. apply list_elem_of_singleton in Hin as ->. split; [done|].
    destruct (info w) as [t|] eqn:Ht; simpl in Ho.
    + by exists w, t.
    + by rewrite lookup_empty in Ho.
  - intros [Hn He].
    destruct (cache_entry_cached s p n old w Hw He) as [_ ->].
    rewrite decide_False by done. set_solver.
Qed.

Lemma cache_entry_after_add_info s p n i w p' n' j :
  wrapper_mem s !! p = Some w →
  cache_entry (after_add_info p n i w s) p' n' j ↔
  (p' = p ∧ n' = n ∧ j = i) ∨ (¬ (p' = p ∧ n' = n) ∧ cache_entry s p' n' j).
Proof.
  intros Hw. unfold cache_entry. simpl. split.
  - intros (w' & t & Hw' & Ht & Hj).
    destruct (decide (p' = p)) as [->|Hp].
    + rewrite lookup_insert_eq in Hw'. injection Hw' as <-.
      simpl in Ht. injection Ht as <-.
      destruct (decide (n' = n)) as [->|Hn].
      * rewrite lookup_insert_eq in Hj. injection Hj as <-. by left.
      * rewrite lookup_insert_ne in Hj by done. right.
        split; [by intros [_ ?]|].
        destruct (info w) as [t|] eqn:Ht; simpl in Hj.
        -- by exists w, t.
        -- by rewrite lookup_empty in Hj.
    + rewrite lookup_insert_ne in Hw' by done. right.
      split; [by intros [? _]|]. by exists w', t.
  - intros [(-> & -> & ->)|[Hne (w' & t & Hw' & Ht & Hj)]].
    + eexists _, _. split; [apply lookup_insert_eq|]. simpl.
      split; [done|]. apply lookup_insert_eq.
    + destruct (decide (p' = p)) as [->|Hp].
      * assert (w' = w) as -> by congruence.
        eexists _, _. split; [apply lookup_insert_eq|]. simpl.
        split; [done|]. rewrite Ht. simpl.
        rewrite lookup_insert_ne; [done|]. intros <-. by apply Hne.
      * exists w', t. by rewrite lookup_insert_ne.
Qed.

(** The state after a query that succeeded: the caches are still separate,
    the new object is cached, and every other entry and its object are as
    before. *)
Lemma fetched_separate s p n w (f : ccl_wrapper_info_fp World) obj2 :
  inv s → caches_separate s → wrapper_mem s !! p = Some w →
  let s' := after_add_info p n (brk s) w
              (after_fetch f (cl_object w) obj2 n s) in
  caches_separate s' ∧ cache_entry s' p n (brk s) ∧
  info_mem s' !! brk s = Some (fetched_info f (cl_object w) obj2 n s) ∧
  (∀ p' n' j, ¬ (p' = p ∧ n' = n) → cache_entry s p' n' j →
              cache_entry s' p' n' j ∧ info_mem s' !! j = info_mem s !! j).
Proof.
  intros Hinv [Hlive Hsep] Hw s'.
  assert (Hw' : wrapper_mem (after_fetch f (cl_object w) obj2 n s) !! p
                = Some w) by done.
  assert (Hentry : ∀ p' n' j,
            cache_entry s' p' n' j ↔
            (p' = p ∧ n' = n ∧ j = brk s) ∨
            (¬ (p' = p ∧ n' = n) ∧ cache_entry s p' n' j)).
  { intros p' n' j. unfold s'.
    rewrite (cache_entry_after_add_info _ p n (brk s) w p' n' j Hw').
    by rewrite (cache_entry_same s (after_fetch f (cl_object w) obj2 n s)). }
  assert (Hbelow : ∀ p' n' j, cache_entry s p' n' j → j ≠ brk s).
  { intros p' n' j He ->. destruct (Hlive _ _ _ He) as [_ [b Hb]].
    pose proof (inv_info_addr s Hinv _ _ Hb). lia. }
  assert (Hold : ∀ old, old ∈ replaced w n → cache_entry s p n old).
  { intros old Hin. by apply (replaced_entry s p n w old Hw). }
  assert (Hmem : ∀ j, j ∉ replaced w n → j ≠ brk s →
            info_mem s' !! j = info_mem s !! j).
  { intros j Hj Hb. unfold s'. simpl. rewrite free_infos_lookup.
    rewrite decide_False by done. by rewrite lookup_insert_ne. }
  assert (Hnew : info_mem s' !! brk s
                 = Some (fetched_info f (cl_object w) obj2 n s)).
  { unfold s'. simpl. rewrite free_infos_lookup.
    rewrite decide_False; [apply lookup_insert_eq|].
    intros Hin. by apply (Hbelow _ _ _ (Hold _ Hin)). }
  assert (Hkeep : ∀ p' n' j, ¬ (p' = p ∧ n' = n) → cache_entry s p' n' j →
            info_mem s' !! j = info_mem s !! j).
  { intros p' n' j Hne He. apply Hmem; [|by eapply Hbelow].
    intros Hin. apply Hne. by apply (Hsep _ _ _ _ _ He (Hold _ Hin)). }
  split_and!.
  - split.
    + intros p' n' j He. apply Hentry in He as [(-> & -> & ->)|[Hne He]].
      * split; [|by rewrite Hnew].
        pose proof (inv_brk s Hinv). unfold NULL. lia.
      * destruct (Hlive _ _ _ He) as [Hn Hl]. split; [done|].
        by rewrite (Hkeep _ _ _ Hne He).
    + intros p1 n1 p2 n2 j H1 H2.
      apply Hentry in H1 as [(-> & -> & ->)|[Hne1 H1]];
        apply Hentry in H2 as [(-> & -> & Hj)|[Hne2 H2]].
      * done.
      * by destruct (Hbelow _ _ _ H2).
      * subst j. by destruct (Hbelow _ _ _ H1).
      * by apply (Hsep _ _ _ _ _ H1 H2).
  - apply Hentry. by left.
  - done.
  - intros p' n' j Hne He. split; [|by eapply Hkeep].
    apply Hentry. by right.
Qed.

Lemma queries_of_app obj n tr1 tr2 :
  queries_of obj n (tr1 ++ tr2) = queries_of obj n tr1 ++ queries_of obj n tr2.
Proof. apply filter_app. Qed.

Lemma queries_of_destroys obj n olds :
  queries_of obj n (map EvInfoDestroy olds) = [].
Proof.
  induction olds as [|o olds IH]; [done|].
  unfold queries_of in *. simpl map.
  by rewrite filter_cons_False.
Qed.

Lemma frame_object s s' x w :
  frame s s' → wrapper_mem s !! x = Some w →
  ∃ w', wrapper_mem s' !! x = Some w' ∧ cl_object w' = cl_object w.
Proof.
  intros (_ & _ & Ho & _) Hw. specialize (Ho x). rewrite Hw in Ho.
  destruct (wrapper_mem s' !! x) as [w'|]; [|done].
  injection Ho as Ho. eauto.
Qed.

Lemma frame_query_on_live s s' q :
  frame s s' → query_on_live s q → query_on_live s' q.
Proof.
  intros Hf ([w1 H1] & H2 & H3). split_and!; [| |done].
  - destruct (frame_object _ _ _ _ Hf H1) as (w' & Hw' & _). eauto.
  - destruct H2 as [?|[w2 H2]]; [by left | right].
    destruct (frame_object _ _ _ _ Hf H2) as (w' & Hw' & _). eauto.
Qed.

Lemma second_of_defined s wrapper2 :
  wrapper2 = NULL ∨ is_Some (wrapper_mem s !! wrapper2) →
  ∃ obj2, second_of s wrapper2 = Some obj2.
Proof.
  unfold second_of. intros H. destruct (decide (wrapper2 = NULL)); [eauto|].
  destruct H as [?|[w2 ->]]; [done | simpl; eauto].
Qed.

Lemma frame_run {A} (m : M A) s a s' :
  framing m → m s = Some (a, s') → frame s s'.
Proof. intros Hm Hrun. by apply (proj1 (wlp_run _ _ _) (Hm s) a s'). Qed.

Lemma caches_separate_insert_info s j b tr (σ : World) brk' :
  caches_separate s →
  caches_separate (mkState (wrappers s) (wrapper_mem s)
                     (<[j := b]> (info_mem s)) brk' σ tr).
Proof.
  intros [Hlive Hs]. split.
  - intros p' n' i Hi. destruct (Hlive p' n' i Hi) as [Hn [b0 Hb0]].
    split; [done|]. simpl.
    destruct (decide (j = i)) as [<-|Hj].
    + rewrite lookup_insert_eq. eauto.
    + rewrite lookup_insert_ne by done. eauto.
  - intros p1 n1 p2 n2 i H1 H2. by apply (Hs p1 n1 p2 n2 i).
Qed.

(** [ccl_wrapper_get_info] on live wrappers is defined and keeps caches
    separate. *)
Lemma get_info_separate s q :
  inv s → caches_separate s → query_on_live s q →
  ∃ r s', run_query q s = Some (r, s') ∧ caches_separate s'.
Proof.
  intros Hinv Hsep ([wq Hwq] & Hl2 & Herr).
  destruct q as [w1 w2 nq f uc err]. unfold run_query. simpl in *.
  assert (Hw1 : w1 ≠ NULL).
  { pose proof (inv_wrapper_addr s Hinv _ _ Hwq). unfold NULL. lia. }
  destruct (second_of_defined s w2 Hl2) as [obj2 Hobj2].
  destruct (negb uc || negb (info_cached wq nq)) eqn:Hquery.
  2: { apply orb_false_elim in Hquery as [Huc Hc].
       apply negb_false_iff in Huc, Hc.
       eexists _, s. split; [by eapply ccl_wrapper_get_info_hit | done]. }
  destruct (decide (qr_status (probe f (cl_object wq) obj2 nq s).2
                    = CL_SUCCESS)) as [Hst|Hst].
  2: { eexists _, _. split; [by eapply ccl_wrapper_get_info_probe_failed|].
       destruct Hsep as [Hlive Hs]. split.
       - intros p' n' j Hj. by apply (Hlive p' n' j).
       - intros p1 n1 p2 n2 j H1 H2. by apply (Hs p1 n1 p2 n2 j). }
  destruct (decide (probed_size f (cl_object wq) obj2 nq s = 0)) as [Hz|Hz].
  { eexists _, _. split; [by eapply ccl_wrapper_get_info_size_zero|].
    destruct Hsep as [Hlive Hs]. split.
    - intros p' n' j Hj. by apply (Hlive p' n' j).
    - intros p1 n1 p2 n2 j H1 H2. by apply (Hs p1 n1 p2 n2 j). }
  destruct (decide (qr_status (fetch f (cl_object wq) obj2 nq s).2
                    = CL_SUCCESS)) as [Hst2|Hst2].
  2: { eexists _, _. split; [by eapply ccl_wrapper_get_info_fetch_failed|].
       by apply caches_separate_insert_info. }
  eexists _, _. split.
  - eapply ccl_wrapper_get_info_fetched; try done.
    + pose proof (inv_brk s Hinv). unfold NULL. lia.
    + intros old Hin. apply (replaced_entry s w1 nq wq old Hwq) in Hin.
      destruct Hsep as [Hlive _].
      exact (proj2 (Hlive w1 nq old (proj2 Hin))).
  - by apply (fetched_separate s w1 nq wq f obj2 Hinv Hsep Hwq).
Qed.

End Caches.

(** * Caches filled by queries only *)

Section ByQueries.

Context {World : Type}.

Abbreviation state := (state World).
Abbreviation M := (M World).

Implicit Types s : state.

Lemma reachable_by_queries_reachable s :
  reachable_by_queries s → reachable s.
Proof.
  induction 1 as [σ | s c s' _ IH _ Hrun | s σ _ IH].
  - apply reachable_init.
  - by eapply reachable_call.
  - by apply reachable_world.
Qed.

(** Separate caches can be torn down. *)
Lemma caches_separate_destroyable s p w :
  caches_separate s → wrapper_mem s !! p = Some w → cache_destroyable s w.
Proof.
  intros [Hlive Hsep] Hw t Ht.
  assert (Hentry : ∀ k v, t !! k = Some v → cache_entry s p k v).
  { intros k v Hk. by exists w, t. }
  unfold cached_infos. split.
  - apply NoDup_filter.
    apply (NoDup_fmap_2_strong snd).
    + intros [k1 v1] [k2 v2] H1 H2 Hv. simpl in Hv. subst v2.
      apply elem_of_map_to_list in H1, H2.
      destruct (Hsep _ _ _ _ _ (Hentry _ _ H1) (Hentry _ _ H2)) as [_ ->].
      done.
    + apply NoDup_map_to_list.
  - intros v Hv. apply list_elem_of_filter in Hv as [_ Hv].
    apply (list_elem_of_fmap_1 snd) in Hv as ([k v'] & -> & Hkv).
    apply elem_of_map_to_list in Hkv.
    by apply (Hlive p k v'), Hentry.
Qed.

(** Entries that were there, with objects that have not changed, keep the
    caches separate and non-empty. *)
Lemma caches_sub s s' :
  caches_separate s → caches_nonempty s →
  (∀ p n i, cache_entry s' p n i →
            cache_entry s p n i ∧ info_mem s' !! i = info_mem s !! i) →
  caches_separate s' ∧ caches_nonempty s'.
Proof.
  intros [Hlive Hsep] Hne Hsub. split; [split|].
  - intros p n i He. destruct (Hsub _ _ _ He) as [He0 Hi].
    rewrite Hi. by apply (Hlive p n i).
  - intros p n p' n' i H1 H2.
    apply (Hsep p n p' n' i); by apply Hsub.
  - intros p n i b He Hb. destruct (Hsub _ _ _ He) as [He0 Hi].
    rewrite Hi in Hb. by apply (Hne p n i b).
Qed.

Lemma cache_entry_store s p w w' p' n' i :
  wrapper_mem s !! p = Some w → info w' = info w →
  cache_entry (set_wrapper_mem (<[p := w']> (wrapper_mem s)) s) p' n' i ↔
  cache_entry s p' n' i.
Proof.
  intros Hw Hi. unfold cache_entry. simpl.
  destruct (decide (p' = p)) as [->|Hp].
  - rewrite lookup_insert_eq, Hw. split.
    + intros (w0 & t & [= <-] & Ht & Hn). exists w, t. by rewrite <- Hi.
    + intros (w0 & t & [= <-] & Ht & Hn). exists w', t. by rewrite Hi.
  - by rewrite lookup_insert_ne.
Qed.

Lemma caches_store s p w w' :
  wrapper_mem s !! p = Some w → info w' = info w →
  caches_separate s → caches_nonempty s →
  caches_separate (set_wrapper_mem (<[p := w']> (wrapper_mem s)) s) ∧
  caches_nonempty (set_wrapper_mem (<[p := w']> (wrapper_mem s)) s).
Proof.
  intros Hw Hi Hsep Hne. apply (caches_sub s); [done..|].
  intros p' n' i He. by apply (cache_entry_store s p w w') in He.
Qed.

Lemma caches_new s obj sz p s' :
  inv s → caches_separate s → caches_nonempty s →
  ccl_wrapper_new obj sz s = Some (p, s') →
  caches_separate s' ∧ caches_nonempty s'.
Proof.
  intros Hinv Hsep Hne Hrun.
  destruct (decide (obj = NULL)) as [->|Hobj].
  { rewrite ccl_wrapper_new_null in Hrun. by injection Hrun as _ <-. }
  destruct (wrappers_entry s obj) as [q|] eqn:He.
  - destruct (inv_entry s obj q Hinv He) as (Hq & w & Hw & Ho).
    rewrite (ccl_wrapper_new_existing s obj sz q w) in Hrun by done.
    injection Hrun as _ <-. by apply (caches_store s q w).
  - rewrite ccl_wrapper_new_absent in Hrun.
    + injection Hrun as _ <-. apply (caches_sub s); [done..|].
      intros p' n' i (w' & t & Hw' & Ht & Hn). simpl in Hw'.
      apply lookup_insert_Some in Hw' as [[_ <-]|[_ Hw']]; [done|].
      split; [by exists w', t | done].
    + done.
    + pose proof (inv_brk s Hinv). unfold NULL. lia.
    + by rewrite He.
Qed.

Lemma caches_ref s p s' :
  caches_separate s → caches_nonempty s →
  ccl_wrapper_ref p s = Some (tt, s') →
  caches_separate s' ∧ caches_nonempty s'.
Proof.
  intros Hsep Hne Hrun.
  destruct (decide (p = NULL)) as [->|Hp].
  { by injection Hrun as <-. }
  destruct (wrapper_mem s !! p) as [w|] eqn:Hw.
  - rewrite (ccl_wrapper_ref_run s p w) in Hrun by done.
    injection Hrun as <-. by apply (caches_store s p w).
  - unfold ccl_wrapper_ref in Hrun. rewrite decide_False in Hrun by done.
    unfold mbind, M_bind, bind, load_wrapper in Hrun.
    cbv beta in Hrun. by rewrite Hw in Hrun.
Qed.

Lemma caches_unref s p sz rf rc err r s' :
  caches_separate s → caches_nonempty s →
  ccl_wrapper_unref p sz rf rc err s = Some (r, s') →
  caches_separate s' ∧ caches_nonempty s'.
Proof.
  intros Hsep Hne Hrun.
  destruct (decide (p = NULL)) as [->|Hp].
  { by injection Hrun as _ <-. }
  destruct (err_unset err) eqn:Herr.
  2: { unfold ccl_wrapper_unref in Hrun.
       rewrite decide_False, Herr in Hrun by done. cbn [negb] in Hrun.
       by injection Hrun as _ <-. }
  destruct (wrapper_mem s !! p) as [w|] eqn:Hw.
  2: { unfold ccl_wrapper_unref in Hrun.
       rewrite decide_False, Herr in Hrun by done. cbn [negb] in Hrun.
       unfold mbind, M_bind, bind, load_wrapper in Hrun.
       cbv beta in Hrun. by rewrite Hw in Hrun. }
  destruct (decide (gint_wrap (ref_count w - 1) = 0)) as [Hz|Hz].
  - rewrite (ccl_wrapper_unref_teardown s p sz rf rc err w) in Hrun;
      [|done..|by eapply caches_separate_destroyable].
    injection Hrun as _ <-. apply (caches_sub s); [done..|].
    intros p' n' i (w' & t & Hw' & Ht & Hn). simpl in Hw'.
    apply lookup_delete_Some in Hw' as [Hpp Hw'].
    assert (He : cache_entry s p' n' i) by (by exists w', t).
    split; [done|]. simpl. rewrite free_infos_lookup.
    rewrite decide_False; [done|].
    intros Hin. apply Hpp.
    assert (cache_entry s p n' i ∨ ∃ m, cache_entry s p m i) as Hp'.
    { right. unfold cache_infos in Hin.
      destruct (info w) as [tw|] eqn:Htw; [|set_solver].
      unfold cached_infos in Hin.
      apply list_elem_of_filter in Hin as [_ Hin].
      apply (list_elem_of_fmap_1 snd) in Hin as ([k v] & -> & Hkv).
      apply elem_of_map_to_list in Hkv. exists k. by exists w, tw. }
    destruct Hp' as [He'|[m He']];
      by destruct (proj2 Hsep _ _ _ _ _ He He') as [-> _].
  - rewrite (ccl_wrapper_unref_keep s p sz rf rc err w) in Hrun by done.
    injection Hrun as _ <-. by apply (caches_store s p w).
Qed.

Lemma second_object_undefined s wrapper2 :
  second_of s wrapper2 = None → second_object wrapper2 s = None.
Proof.
  unfold second_of, second_object. destruct (decide (wrapper2 = NULL)); [done|].
  unfold mbind, M_bind, bind, load_wrapper.
  by destruct (wrapper_mem s !! wrapper2).
Qed.

(** A call of [ccl_wrapper_get_info] that is defined either changed
    nothing or was made on live wrappers with an unset error location. *)
Lemma get_info_defined s w1 w2 n (f : ccl_wrapper_info_fp World) uc err r s' :
  ccl_wrapper_get_info w1 w2 n f uc err s = Some (r, s') →
  s' = s ∨ query_on_live s (mkQueryCall w1 w2 n f uc err).
Proof.
  intros Hrun. unfold ccl_wrapper_get_info in Hrun.
  destruct (err_unset err) eqn:Herr; simpl in Hrun.
  2: { left. by injection Hrun as _ <-. }
  destruct (decide (w1 = NULL)) as [->|Hw1].
  { left. by injection Hrun as _ <-. }
  unfold mbind at 1, M_bind, bind, load_wrapper in Hrun.
  destruct (wrapper_mem s !! w1) as [w|] eqn:Hw; [|done].
  destruct (negb uc || negb (info_cached w n)).
  2: { left. by injection Hrun as _ <-. }
  right. unfold query_on_live. simpl. split_and!; [eauto | | done].
  destruct (second_of s w2) as [obj2|] eqn:Ho.
  - unfold second_of in Ho. destruct (decide (w2 = NULL)); [by left|].
    right. by destruct (wrapper_mem s !! w2).
  - unfold mbind at 1, M_bind, bind in Hrun.
    by rewrite (second_object_undefined s w2 Ho) in Hrun.
Qed.

Lemma caches_nonempty_get_info s q r s' :
  inv s → caches_separate s → caches_nonempty s → query_on_live s q →
  run_query q s = Some (r, s') → caches_nonempty s'.
Proof.
  intros Hinv Hsep Hne ([wq Hwq] & Hl2 & Herr) Hrun.
  destruct q as [w1 w2 nq f uc err]. unfold run_query in Hrun. simpl in *.
  assert (Hw1 : w1 ≠ NULL).
  { pose proof (inv_wrapper_addr s Hinv _ _ Hwq). unfold NULL. lia. }
  destruct (second_of_defined s w2 Hl2) as [obj2 Hobj2].
  assert (Hbelow : ∀ p' n' j, cache_entry s p' n' j → j ≠ brk s).
  { intros p' n' j He ->. destruct (proj1 Hsep _ _ _ He) as [_ [b Hb]].
    pose proof (inv_info_addr s Hinv _ _ Hb). lia. }
  destruct (negb uc || negb (info_cached wq nq)) eqn:Hquery.
  2: { apply orb_false_elim in Hquery as [Huc Hc].
       apply negb_false_iff in Huc, Hc.
       rewrite (ccl_wrapper_get_info_hit s w1 w2 nq f uc err wq) in Hrun
         by done.
       by injection Hrun as _ <-. }
  destruct (decide (qr_status (probe f (cl_object wq) obj2 nq s).2
                    = CL_SUCCESS)) as [Hst|Hst].
  2: { rewrite (ccl_wrapper_get_info_probe_failed s w1 w2 nq f uc err wq obj2)
         in Hrun by done.
       injection Hrun as _ <-. intros p n i b He Hb. by apply (Hne p n i b). }
  destruct (decide (probed_size f (cl_object wq) obj2 nq s = 0)) as [Hz|Hz].
  { rewrite (ccl_wrapper_get_info_size_zero s w1 w2 nq f uc err wq obj2)
      in Hrun by done.
    injection Hrun as _ <-. intros p n i b He Hb. by apply (Hne p n i b). }
  destruct (decide (qr_status (fetch f (cl_object wq) obj2 nq s).2
                    = CL_SUCCESS)) as [Hst2|Hst2].
  2: { rewrite (ccl_wrapper_get_info_fetch_failed s w1 w2 nq f uc err wq obj2)
         in Hrun by done.
       injection Hrun as _ <-. intros p n i b He Hb. simpl in Hb.
       assert (He0 : cache_entry s p n i) by done.
       rewrite lookup_insert_ne in Hb by (intros <-; by eapply Hbelow).
       by apply (Hne p n i b). }
  assert (Hbrk : brk s ≠ NULL).
  { pose proof (inv_brk s Hinv). unfold NULL. lia. }
  rewrite (ccl_wrapper_get_info_fetched s w1 w2 nq f uc err wq obj2)
    in Hrun; [|done..|].
  2: { intros old Hin. apply (replaced_entry s w1 nq wq old Hwq) in Hin.
       exact (proj2 (proj1 Hsep w1 nq old (proj2 Hin))). }
  injection Hrun as _ <-.
  destruct (fetched_separate s w1 nq wq f obj2 Hinv Hsep Hwq)
    as (_ & _ & Hnew & Hkeep).
  intros p n i b He Hb.
  apply (cache_entry_after_add_info _ w1 nq (brk s) wq p n i) in He;
    [|done].
  destruct He as [(-> & -> & ->)|[Hne' He]].
  - rewrite Hnew in Hb. injection Hb as <-. simpl. split; [done|].
    pose proof (inv_brk s Hinv). unfold NULL. lia.
  - assert (He0 : cache_entry s p n i) by done.
    destruct (Hkeep p n i Hne' He0) as [_ Hi]. rewrite Hi in Hb.
    by apply (Hne p n i b).
Qed.

Lemma caches_get_info s w1 w2 n (f : ccl_wrapper_info_fp World) uc err r s' :
  inv s → caches_separate s → caches_nonempty s →
  ccl_wrapper_get_info w1 w2 n f uc err s = Some (r, s') →
  caches_separate s' ∧ caches_nonempty s'.
Proof.
  intros Hinv Hsep Hne Hrun.
  destruct (get_info_defined _ _ _ _ _ _ _ _ _ Hrun) as [->|Hlive]; [done|].
  split.
  - destruct (get_info_separate s _ Hinv Hsep Hlive) as (r0 & s0 & Hrun0 & H0).
    unfold run_query in Hrun0. simpl in Hrun0. congruence.
  - by eapply (caches_nonempty_get_info s (mkQueryCall w1 w2 n f uc err)).
Qed.

Lemma get_info_value_state s w1 w2 n (f : ccl_wrapper_info_fp World) uc err
    r s' :
  ccl_wrapper_get_info_value w1 w2 n f uc err s = Some (r, s') →
  s' = s ∨ ∃ r0, ccl_wrapper_get_info w1 w2 n f uc err s = Some (r0, s').
Proof.
  unfold ccl_wrapper_get_info_value. intros Hrun.
  destruct (negb (err_unset err)); [left; by injection Hrun as _ <-|].
  destruct (decide (w1 = NULL)); [left; by injection Hrun as _ <-|].
  unfold mbind at 1, M_bind, bind in Hrun.
  destruct (ccl_wrapper_get_info w1 w2 n f uc err s) as [[[diw e] s0]|];
    [|done].
  right. exists (diw, e).
  destruct (decide (diw ≠ NULL)).
  - unfold mbind, M_bind, bind, load_info in Hrun.
    destruct (info_mem s0 !! diw); [|done]. by injection Hrun as _ <-.
  - by injection Hrun as _ <-.
Qed.

Lemma get_info_size_state s w1 w2 n (f : ccl_wrapper_info_fp World) uc err
    r s' :
  ccl_wrapper_get_info_size w1 w2 n f uc err s = Some (r, s') →
  s' = s ∨ ∃ r0, ccl_wrapper_get_info w1 w2 n f uc err s = Some (r0, s').
Proof.
  unfold ccl_wrapper_get_info_size. intros Hrun.
  destruct (negb (err_unset err)); [left; by injection Hrun as _ <-|].
  destruct (decide (w1 = NULL)); [left; by injection Hrun as _ <-|].
  unfold mbind at 1, M_bind, bind in Hrun.
  destruct (ccl_wrapper_get_info w1 w2 n f uc err s) as [[[diw e] s0]|];
    [|done].
  right. exists (diw, e).
  destruct (decide (diw ≠ NULL)).
  - unfold mbind, M_bind, bind, load_info in Hrun.
    destruct (info_mem s0 !! diw); [|done]. by injection Hrun as _ <-.
  - by injection Hrun as _ <-.
Qed.

(** The object [ccl_wrapper_get_info] returns is the one cached under the
    parameter name when the call returns. *)
Lemma get_info_returns_entry s w1 w2 n (f : ccl_wrapper_info_fp World) uc err
    i e s' :
  inv s → caches_separate s →
  ccl_wrapper_get_info w1 w2 n f uc err s = Some ((i, e), s') →
  i ≠ NULL → cache_entry s' w1 n i.
Proof.
  intros Hinv Hsep Hrun Hi.
  assert (Hrun0 := Hrun). unfold ccl_wrapper_get_info in Hrun0.
  destruct (err_unset err) eqn:Herr; simpl in Hrun0.
  2: { by injection Hrun0 as <- _ _. }
  destruct (decide (w1 = NULL)) as [->|Hw1].
  { by injection Hrun0 as <- _ _. }
  unfold mbind at 1, M_bind, bind, load_wrapper in Hrun0.
  destruct (wrapper_mem s !! w1) as [w|] eqn:Hw; [|done].
  destruct (negb uc || negb (info_cached w n)) eqn:Hquery.
  2: { injection Hrun0 as <- _ <-.
       destruct (info w) as [t|] eqn:Ht; simpl in *.
       - destruct (t !! n) as [j|] eqn:Hj; [|done]. simpl.
         exists w, t. by split_and!.
       - by rewrite lookup_empty in Hi. }
  clear Hrun0.
  destruct (second_of s w2) as [obj2|] eqn:Hobj2.
  2: { unfold ccl_wrapper_get_info in Hrun. rewrite Herr in Hrun.
       cbn [negb] in Hrun. rewrite decide_False in Hrun by done.
       unfold mbind at 1, M_bind, bind, load_wrapper in Hrun.
       cbv beta in Hrun. rewrite Hw, Hquery in Hrun.
       unfold mbind at 1, M_bind, bind in Hrun.
       by rewrite (second_object_undefined s w2 Hobj2) in Hrun. }
  destruct (decide (qr_status (probe f (cl_object w) obj2 n s).2
                    = CL_SUCCESS)) as [Hst|Hst].
  2: { rewrite (ccl_wrapper_get_info_probe_failed s w1 w2 n f uc err w obj2)
         in Hrun by done. by injection Hrun as <- _ _. }
  destruct (decide (probed_size f (cl_object w) obj2 n s = 0)) as [Hz|Hz].
  { rewrite (ccl_wrapper_get_info_size_zero s w1 w2 n f uc err w obj2)
      in Hrun by done. by injection Hrun as <- _ _. }
  destruct (decide (qr_status (fetch f (cl_object w) obj2 n s).2
                    = CL_SUCCESS)) as [Hst2|Hst2].
  2: { rewrite (ccl_wrapper_get_info_fetch_failed s w1 w2 n f uc err w obj2)
         in Hrun by done. by injection Hrun as <- _ _. }
  rewrite (ccl_wrapper_get_info_fetched s w1 w2 n f uc err w obj2) in Hrun;
    [|done..| |].
  - injection Hrun as <- _ <-.
    destruct (fetched_separate s w1 n w f obj2 Hinv Hsep Hw)
      as (_ & Hentry & _).
    exact Hentry.
  - pose proof (inv_brk s Hinv). unfold NULL. lia.
  - intros old Hin. apply (replaced_entry s w1 n w old Hw) in Hin.
    exact (proj2 (proj1 Hsep w1 n old (proj2 Hin))).
Qed.

(** In a state reached by such calls the caches are separate and hold no
    empty object. *)
Lemma reachable_by_queries_caches s :
  reachable_by_queries s → caches_separate s ∧ caches_nonempty s.
Proof.
  induction 1 as [σ | s c s' Hr [Hsep Hne] Hc Hrun | s σ _ IH].
  - assert (Hnone : ∀ p n i, ¬ cache_entry (initial_state σ) p n i).
    { intros p n i (w & t & Hw & _). simpl in Hw.
      by rewrite lookup_empty in Hw. }
    split; [split|].
    + intros p n i He. by destruct (Hnone _ _ _ He).
    + intros p n p' n' i He. by destruct (Hnone _ _ _ He).
    + intros p n i b He. by destruct (Hnone _ _ _ He).
  - pose proof (reachable_inv s (reachable_by_queries_reachable s Hr)) as Hinv.
    destruct c; try done; simpl in Hrun;
      unfold mbind, M_bind, bind in Hrun.
    + destruct (ccl_wrapper_new obj sz s) as [[p s0]|] eqn:E; [|done].
      injection Hrun as <-. by eapply caches_new.
    + by eapply caches_ref.
    + destruct (ccl_wrapper_unref wrapper sz rel_fields_fun rel_cl_fun err s)
        as [[r s0]|] eqn:E; [|done].
      injection Hrun as <-. by eapply caches_unref.
    + destruct (ccl_wrapper_get_info wrapper1 wrapper2 param_name info_fun
                  use_cache err s) as [[r s0]|] eqn:E; [|done].
      injection Hrun as <-. by eapply caches_get_info.
    + destruct (ccl_wrapper_get_info_value wrapper1 wrapper2 param_name
                  info_fun use_cache err s) as [[r s0]|] eqn:E; [|done].
      injection Hrun as <-.
      destruct (get_info_value_state _ _ _ _ _ _ _ _ _ E) as [->|[r0 E0]];
        [done | by eapply caches_get_info].
    + destruct (ccl_wrapper_get_info_size wrapper1 wrapper2 param_name
                  info_fun use_cache err s) as [[r s0]|] eqn:E; [|done].
      injection Hrun as <-.
      destruct (get_info_size_state _ _ _ _ _ _ _ _ _ E) as [->|[r0 E0]];
        [done | by eapply caches_get_info].
  - destruct IH as [Hsep Hne]. by apply (caches_sub s).
Qed.

Lemma reachable_by_queries_destroyable s p w :
  reachable_by_queries s → wrapper_mem s !! p = Some w →
  cache_destroyable s w.
Proof.
  intros Hr Hw. eapply caches_separate_destroyable; [|exact Hw].
  by apply reachable_by_queries_caches.
Qed.

End ByQueries.

(** * What a defined call has done *)

Section Cases.

Context {World : Type}.

Abbreviation state := (state World).
Abbreviation M := (M World).

Implicit Types s : state.

Lemma bind_run {A B} (m : M A) (k : A → M B) s a s1 :
  m s = Some (a, s1) → (m ≫= k) s = k a s1.
Proof. intros H. unfold mbind, M_bind, bind. by rewrite H. Qed.

Lemma bind_undefined {A B} (m : M A) (k : A → M B) s :
  m s = None → (m ≫= k) s = None.
Proof. intros H. unfold mbind, M_bind, bind. by rewrite H. Qed.

Lemma call_info_fun_run (f : ccl_wrapper_info_fp World) o1 o2 n sz v b s :
  call_info_fun f o1 o2 n sz v b s
  = Some ((f (world s) o1 o2 n sz v b).2,
          set_trace (trace s ++ [EvInfoFun o1 o2 n sz v b])
            (set_world (f (world s) o1 o2 n sz v b).1 s)).
Proof. unfold call_info_fun. by destruct (f (world s) o1 o2 n sz v b). Qed.

(** A defined [ccl_wrapper_info_destroy] was given [NULL] or a live
    object. *)
Lemma ccl_wrapper_info_destroy_cases s i s' :
  ccl_wrapper_info_destroy i s = Some (tt, s') →
  (i = NULL ∧ s' = s) ∨
  (i ≠ NULL ∧ is_Some (info_mem s !! i) ∧
   s' = mkState (wrappers s) (wrapper_mem s) (delete i (info_mem s))
          (brk s) (world s) (trace s ++ [EvInfoDestroy i])).
Proof.
  intros Hrun. destruct (decide (i = NULL)) as [->|Hi].
  { left. by injection Hrun as <-. }
  right. destruct (info_mem s !! i) as [b|] eqn:Hb.
  - rewrite (ccl_wrapper_info_destroy_run s i b) in Hrun by done.
    injection Hrun as <-. by split_and!.
  - unfold ccl_wrapper_info_destroy in Hrun.
    rewrite decide_False in Hrun by done.
    rewrite bind_undefined in Hrun; [done|].
    unfold load_info. by rewrite Hb.
Qed.

(** A defined [ccl_wrapper_add_info] was stopped by a guard, or was given
    a live wrapper whose cache holds no dead object under the name. *)
Lemma ccl_wrapper_add_info_cases s p n i s' :
  ccl_wrapper_add_info p n i s = Some (tt, s') →
  ((p = NULL ∨ i = NULL) ∧ s' = s) ∨
  ∃ w, p ≠ NULL ∧ i ≠ NULL ∧ wrapper_mem s !! p = Some w ∧
       (∀ old, old ∈ replaced w n → is_Some (info_mem s !! old)) ∧
       s' = after_add_info p n i w s.
Proof.
  intros Hrun.
  destruct (decide (p = NULL)) as [->|Hp].
  { left. split; [by left|]. by injection Hrun as <-. }
  destruct (decide (i = NULL)) as [->|Hi].
  { left. split; [by right|]. unfold ccl_wrapper_add_info in Hrun.
    rewrite decide_False in Hrun by done. by injection Hrun as <-. }
  right. destruct (wrapper_mem s !! p) as [w|] eqn:Hw.
  2: { unfold ccl_wrapper_add_info in Hrun.
       rewrite !decide_False in Hrun by done.
       rewrite bind_undefined in Hrun; [done|].
       unfold load_wrapper. by rewrite Hw. }
  exists w.
  assert (Hold : ∀ old, old ∈ replaced w n → is_Some (info_mem s !! old)).
  { intros old Hin. unfold replaced in Hin.
    destruct (default ∅ (info w) !! n) as [old'|] eqn:Ho;
      [|by apply elem_of_nil in Hin].
    destruct (decide (old' = NULL)); [by apply elem_of_nil in Hin|].
    apply list_elem_of_singleton in Hin as ->.
    destruct (info_mem s !! old') as [b|] eqn:Hb; [by eexists|].
    exfalso. unfold ccl_wrapper_add_info in Hrun.
    rewrite !decide_False in Hrun by done.
    rewrite (bind_run (load_wrapper p) _ s w s) in Hrun
      by (unfold load_wrapper; by rewrite Hw).
    cbv zeta in Hrun. rewrite Ho in Hrun.
    rewrite bind_undefined in Hrun; [done|].
    unfold ccl_wrapper_info_destroy. rewrite decide_False by done.
    apply bind_undefined. unfold load_info. by rewrite Hb. }
  rewrite (ccl_wrapper_add_info_run s p n i w) in Hrun by done.
  injection Hrun as <-. by split_and!.
Qed.

(** When both queries succeed, [ccl_wrapper_get_info] is
    [ccl_wrapper_add_info] of the object it made, from the state the two
    queries leave. *)
Lemma ccl_wrapper_get_info_fetch_run s wrapper1 wrapper2 n
    (f : ccl_wrapper_info_fp World) use_cache err w obj2 :
  err_unset err = true → wrapper1 ≠ NULL →
  wrapper_mem s !! wrapper1 = Some w →
  second_of s wrapper2 = Some obj2 →
  negb use_cache || negb (info_cached w n) = true →
  qr_status (probe f (cl_object w) obj2 n s).2 = CL_SUCCESS →
  probed_size f (cl_object w) obj2 n s ≠ 0 →
  qr_status (fetch f (cl_object w) obj2 n s).2 = CL_SUCCESS →
  ccl_wrapper_get_info wrapper1 wrapper2 n f use_cache err s
  = (ccl_wrapper_add_info wrapper1 n (brk s) ;; mret (brk s, err))
      (after_fetch f (cl_object w) obj2 n s).
Proof.
  intros Herr Hw1 Hw Hobj2 Hq Hst Hsz Hst2.
  assert (Hpos : 0 < probed_size f (cl_object w) obj2 n s).
  { unfold probed_size, size_t_wrap in *.
    pose proof (Z.mod_pos_bound (qr_size_ret (probe f (cl_object w) obj2 n s).2)
                  (2 ^ 64) ltac:(lia)). lia. }
  unfold ccl_wrapper_get_info. rewrite Herr. cbn [negb].
  rewrite decide_False by done.
  rewrite (bind_run (load_wrapper wrapper1) _ s w s)
    by (unfold load_wrapper; by rewrite Hw).
  rewrite Hq.
  rewrite (bind_run (second_object wrapper2) _ s obj2 s)
    by (by apply second_object_run).
  rewrite (bind_run _ _ _ _ _ (call_info_fun_run f _ _ _ _ _ _ s)).
  fold (probe f (cl_object w) obj2 n s). cbv zeta.
  rewrite decide_False by (intros H; by apply H).
  fold (probed_size f (cl_object w) obj2 n s).
  rewrite decide_False by done.
  rewrite (bind_run _ _ _ _ _ (ccl_wrapper_info_new_run _ _ Hpos)).
  cbn [brk set_trace set_world info_mem wrappers wrapper_mem world trace].
  match goal with
  | |- (load_info ?i ≫= _) ?st = _ =>
      rewrite (bind_run (load_info i) _ st
                 (mkInfo (brk s + 1) (probed_size f (cl_object w) obj2 n s)
                    (repeat x00 (Z.to_nat
                       (probed_size f (cl_object w) obj2 n s)))) st)
        by (unfold load_info; simpl; by rewrite lookup_insert_eq)
  end.
  match goal with
  | |- (second_object _ ≫= _) ?st = _ =>
      rewrite (bind_run (second_object wrapper2) _ st obj2 st)
        by (by apply second_object_run)
  end.
  match goal with
  | |- (call_info_fun _ _ _ _ _ _ _ ≫= _) ?st = _ =>
      rewrite (bind_run _ _ _ _ _ (call_info_fun_run f _ _ _ _ _ _ st))
  end.
  cbn [brk set_trace set_world info_mem wrappers wrapper_mem world trace
         info_value info_size].
  fold (fetch f (cl_object w) obj2 n s).
  match goal with
  | |- (store_info ?i ?b ≫= _) ?st = _ =>
      rewrite (bind_run (store_info i b) _ st tt
                 (set_info_mem (<[i := b]> (info_mem st)) st))
        by (unfold store_info; simpl; by rewrite lookup_insert_eq)
  end.
  rewrite decide_False by (intros H; by apply H).
  match goal with
  | |- _ ?st = _ ?st' => replace st with st'; [done|]
  end.
  unfold after_fetch, fetched_info, fetch_event, probe_event,
    set_info_mem, set_trace, set_world.
  cbn [brk info_mem wrappers wrapper_mem world trace].
  apply state_eq; try done.
  - by rewrite insert_insert_eq.
  - by rewrite <- app_assoc.
Qed.

(** A [ccl_wrapper_get_info] that is defined has taken one of these ways:
    a guard or the cache answered and the state is the one it started in;
    a query was made on live wrappers and it failed, or it succeeded and
    the object made is in the cache. *)
Lemma ccl_wrapper_get_info_cases s w1 w2 n (f : ccl_wrapper_info_fp World)
    uc err i e s' :
  brk s ≠ NULL →
  ccl_wrapper_get_info w1 w2 n f uc err s = Some ((i, e), s') →
  (s' = s ∧ e = err ∧ (i = NULL ∨ (uc = true ∧ cache_entry s w1 n i))) ∨
  ∃ w obj2,
    wrapper_mem s !! w1 = Some w ∧ second_of s w2 = Some obj2 ∧
    w1 ≠ NULL ∧ err_unset err = true ∧
    negb uc || negb (info_cached w n) = true ∧
    ((i = NULL ∧
      (s' = after_probe f (cl_object w) obj2 n s ∨
       s' = after_fetch f (cl_object w) obj2 n s)) ∨
     (i = brk s ∧ e = err ∧
      probed_size f (cl_object w) obj2 n s ≠ 0 ∧
      (∀ old, old ∈ replaced w n →
         is_Some (info_mem (after_fetch f (cl_object w) obj2 n s) !! old)) ∧
      s' = after_add_info w1 n (brk s) w
             (after_fetch f (cl_object w) obj2 n s))).
Proof.
  intros Hbrk Hrun.
  destruct (err_unset err) eqn:Herr.
  2: { left. unfold ccl_wrapper_get_info in Hrun. rewrite Herr in Hrun.
       injection Hrun as <- <- <-. split_and!; [done | done | by left]. }
  destruct (decide (w1 = NULL)) as [->|Hw1].
  { left. unfold ccl_wrapper_get_info in Hrun. rewrite Herr in Hrun.
    injection Hrun as <- <- <-. split_and!; [done | done | by left]. }
  destruct (wrapper_mem s !! w1) as [w|] eqn:Hw.
  2: { unfold ccl_wrapper_get_info in Hrun. rewrite Herr in Hrun.
       cbn [negb] in Hrun. rewrite decide_False in Hrun by done.
       rewrite bind_undefined in Hrun; [done|].
       unfold load_wrapper. by rewrite Hw. }
  destruct (negb uc || negb (info_cached w n)) eqn:Hq.
  2: { left. apply orb_false_iff in Hq as [Huc Hc].
       apply negb_false_iff in Huc, Hc.
       rewrite (ccl_wrapper_get_info_hit s w1 w2 n f uc err w) in Hrun
         by done.
       injection Hrun as <- <- <-. split_and!; [done | done |]. right.
       split; [done|]. unfold info_cached in Hc.
       destruct (info w) as [t|] eqn:Ht; [|done].
       apply bool_decide_eq_true in Hc as [v Hv].
       exists w, t. simpl. rewrite Hv. by split_and!. }
  destruct (second_of s w2) as [obj2|] eqn:Hobj2.
  2: { unfold ccl_wrapper_get_info in Hrun. rewrite Herr in Hrun.
       cbn [negb] in Hrun. rewrite decide_False in Hrun by done.
       rewrite (bind_run (load_wrapper w1) _ s w s) in Hrun
         by (unfold load_wrapper; by rewrite Hw).
       rewrite Hq in Hrun. rewrite bind_undefined in Hrun; [done|].
       by apply second_object_undefined. }
  right. exists w, obj2. split_and!; try done.
  destruct (decide (qr_status (probe f (cl_object w) obj2 n s).2
                    = CL_SUCCESS)) as [Hst|Hst].
  2: { rewrite (ccl_wrapper_get_info_probe_failed s w1 w2 n f uc err w obj2)
         in Hrun by done.
       injection Hrun as <- _ <-. left. split; [done | by left]. }
  destruct (decide (probed_size f (cl_object w) obj2 n s = 0)) as [Hsz|Hsz].
  { rewrite (ccl_wrapper_get_info_size_zero s w1 w2 n f uc err w obj2)
      in Hrun by done.
    injection Hrun as <- _ <-. left. split; [done | by left]. }
  destruct (decide (qr_status (fetch f (cl_object w) obj2 n s).2
                    = CL_SUCCESS)) as [Hst2|Hst2].
  2: { rewrite (ccl_wrapper_get_info_fetch_failed s w1 w2 n f uc err w obj2)
         in Hrun by done.
       injection Hrun as <- _ <-. left. split; [done | by right]. }
  rewrite (ccl_wrapper_get_info_fetch_run s w1 w2 n f uc err w obj2) in Hrun
    by done.
  unfold mbind, M_bind, bind in Hrun.
  destruct (ccl_wrapper_add_info w1 n (brk s)
              (after_fetch f (cl_object w) obj2 n s)) as [[[] s2]|] eqn:Ha;
    [|done].
  injection Hrun as <- <- <-.
  destruct (ccl_wrapper_add_info_cases _ _ _ _ _ Ha)
    as [[[?|?] _]|(w' & _ & _ & Hw' & Hold & ->)]; [done | done |].
  simpl in Hw'. assert (w' = w) as -> by congruence.
  right. by split_and!.
Qed.

End Cases.

(** * The wrapper table and the teardown *)

Section Lifecycle.

Context {World : Type}.

Abbreviation state := (state World).
Abbreviation M := (M World).

Implicit Types s : state.

Lemma inv_one_wrapper_per_object s : inv s → one_wrapper_per_object s.
Proof.
  intros Hinv. split.
  - intros p1 p2 w1 w2. by apply inv_one_wrapper.
  - intros obj p. split.
    + intros He. by apply (inv_entry s obj p Hinv).
    + intros (w & Hw & <-).
      destruct (inv_registered s Hinv _ _ Hw) as (_ & t & Ht & Hl).
      unfold wrappers_entry. by rewrite Ht.
Qed.

Lemma inv_no_table s : inv s → (wrappers s = None ↔ wrapper_mem s = ∅).
Proof.
  intros Hinv. split.
  - intros Hnone. apply map_eq. intros p. rewrite lookup_empty.
    destruct (wrapper_mem s !! p) as [w|] eqn:Hw; [|done].
    destruct (inv_registered s Hinv _ _ Hw) as (_ & t & Ht & _). congruence.
  - intros Hempty. destruct (wrappers s) as [t|] eqn:Ht; [|done].
    exfalso. apply (inv_nonempty s Hinv). rewrite Ht. f_equal.
    apply map_eq. intros h. rewrite lookup_empty.
    destruct (t !! h) as [p|] eqn:Hp; [|done].
    destruct (inv_wrapped s Hinv _ _ _ Ht Hp) as (w & Hw & _).
    rewrite Hempty, lookup_empty in Hw. done.
Qed.

Lemma reachable_new s obj sz p s' :
  reachable s → ccl_wrapper_new obj sz s = Some (p, s') → reachable s'.
Proof.
  intros Hr Hrun. apply (reachable_call s (Call_new obj sz)); [done|].
  simpl. unfold mbind, M_bind, bind. by rewrite Hrun.
Qed.

Lemma reachable_unref s p sz rf rc err r s' :
  reachable s → ccl_wrapper_unref p sz rf rc err s = Some (r, s') →
  reachable s'.
Proof.
  intros Hr Hrun. apply (reachable_call s (Call_unref p sz rf rc err)); [done|].
  simpl. unfold mbind, M_bind, bind. by rewrite Hrun.
Qed.

(** C1.  In a reachable state, [ccl_wrapper_new] on a non-null object whose
    wrapper exists returns that wrapper, its reference count incremented and
    nothing else changed; when no wrapper exists it returns a fresh address
    holding a zero-filled wrapper with the object set and a reference count
    of 1, entered in the table of wrappers under the object.  Before and
    after the call no two live wrappers wrap the same object and the table
    holds exactly the live wrappers. *)
Theorem ccl_wrapper_new_find_or_create s obj sz :
  reachable s → obj ≠ NULL →
  ∃ p s',
    ccl_wrapper_new obj sz s = Some (p, s') ∧ p ≠ NULL ∧
    match wrappers_entry s obj with
    | Some q =>
        p = q ∧
        ∃ w, wrapper_mem s !! p = Some w ∧ cl_object w = obj ∧
             s' = set_wrapper_mem
                    (<[p := with_ref_count (g_atomic_int_inc (ref_count w)) w]>
                       (wrapper_mem s)) s
    | None =>
        wrapper_mem s !! p = None ∧ info_mem s !! p = None ∧
        wrapper_mem s'
        = <[p := with_ref_count 1 (with_cl_object obj zero_wrapper)]>
            (wrapper_mem s) ∧
        wrappers s' = Some (<[obj := p]> (default ∅ (wrappers s))) ∧
        info_mem s' = info_mem s ∧ world s' = world s ∧ trace s' = trace s
    end ∧
    one_wrapper_per_object s ∧ one_wrapper_per_object s'.
Proof.
  intros Hr Hobj. pose proof (reachable_inv s Hr) as Hinv.
  assert (Hgoal : ∀ p s', ccl_wrapper_new obj sz s = Some (p, s') →
            one_wrapper_per_object s ∧ one_wrapper_per_object s').
  { intros p s' Hrun. split; apply inv_one_wrapper_per_object; [done|].
    apply reachable_inv. by eapply reachable_new. }
  destruct (wrappers_entry s obj) as [q|] eqn:He.
  - destruct (inv_entry s obj q Hinv He) as (Hq & w & Hw & Ho).
    pose proof (ccl_wrapper_new_existing s obj sz q w Hobj Hq He Hw) as Hrun.
    eexists _, _. split; [exact Hrun|]. split; [done|].
    split; [|by eapply Hgoal]. split; [done|]. by exists w.
  - assert (Hb : brk s ≠ NULL).
    { pose proof (inv_brk s Hinv). unfold NULL. lia. }
    assert (Hrun : ccl_wrapper_new obj sz s
                   = Some (brk s, with_new_wrapper obj s)).
    { apply ccl_wrapper_new_absent; [done..|]. by rewrite He. }
    eexists _, _. split; [exact Hrun|]. split; [done|].
    split; [|by eapply Hgoal]. simpl. split_and!; try done.
    + destruct (wrapper_mem s !! brk s) as [w|] eqn:Hw; [|done].
      pose proof (inv_wrapper_addr s Hinv _ _ Hw). lia.
    + destruct (info_mem s !! brk s) as [b|] eqn:Hi; [|done].
      pose proof (inv_info_addr s Hinv _ _ Hi). lia.
Qed.

(** Facts about the state after a teardown. *)
Lemma after_teardown_gone s p sz w rf rc :
  let s' := after_teardown p sz w rf rc s in
  wrapper_mem s' !! p = None ∧
  wrappers_entry s' (cl_object w) = None ∧
  (∀ i, i ∈ cache_infos (info w) → info_mem s' !! i = None) ∧
  (∀ i, i ∉ cache_infos (info w) → info_mem s' !! i = info_mem s !! i).
Proof.
  cbv zeta. unfold after_teardown, wrappers_entry.
  cbn [wrappers wrapper_mem info_mem]. split_and!.
  - apply lookup_delete_eq.
  - unfold wrappers_without.
    destruct (wrappers s) as [t|]; [|done].
    case_decide; [done | apply lookup_delete_eq].
  - intros i Hi. rewrite free_infos_lookup. by rewrite decide_True.
  - intros i Hi. rewrite free_infos_lookup. by rewrite decide_False.
Qed.

(** C3.  When [ccl_wrapper_unref] drops the reference count to zero it
    returns [CL_TRUE] and the teardown runs in this order: the release of
    the OpenCL object (if a function is given); the destruction of every
    cached information object, then of the cache table (if there is one);
    the removal of the object's entry from the table of wrappers (and the
    release of that table if it is left empty); the release of the fields of
    the concrete wrapper (if a function is given); the deallocation of the
    wrapper.  The world outside is what the function that releases the
    fields leaves of what the function that releases the object left; the
    error is the one the release of the object gives, if any.  Afterwards
    the cached objects, the entry and the wrapper are gone, and the other
    information objects are as they were. *)
Theorem ccl_wrapper_unref_teardown_order s p sz rf rc err w :
  p ≠ NULL → err_unset err = true → wrapper_mem s !! p = Some w →
  (g_atomic_int_dec_and_test (ref_count w)).2 = true →
  cache_destroyable s w →
  ∃ e s',
    ccl_wrapper_unref p sz rf rc err s = Some ((CL_TRUE, e), s') ∧
    e = release_cl_error rc (cl_object w) (world s) err ∧
    trace s'
    = trace s
      ++ release_cl_events rc (cl_object w) (world s)
      ++ cache_events p (info w)
      ++ table_events (cl_object w) (wrappers s)
      ++ release_fields_events rf p
      ++ [EvSliceFree sz p] ∧
    world s'
    = release_fields_world rf p (release_cl_world rc (cl_object w) (world s)) ∧
    (∀ i, i ∈ cache_infos (info w) → info_mem s' !! i = None) ∧
    (∀ i, i ∉ cache_infos (info w) → info_mem s' !! i = info_mem s !! i) ∧
    wrappers_entry s' (cl_object w) = None ∧
    wrapper_mem s' !! p = None.
Proof.
  intros Hp He Hw Hz Hd. simpl in Hz. apply Z.eqb_eq in Hz.
  eexists _, _. split.
  { by apply ccl_wrapper_unref_teardown. }
  destruct (after_teardown_gone s p sz w rf rc) as (H1 & H2 & H3 & H4).
  split_and!; done.
Qed.

(** C4.  When the function that releases the OpenCL object returns a status
    other than [CL_SUCCESS] during the teardown, [ccl_wrapper_unref] records
    the error in the location it was given (a [NULL] location stays [NULL])
    and still destroys the cached information objects, removes the entry
    from the table of wrappers, calls the function that releases the fields,
    deallocates the wrapper and returns [CL_TRUE]. *)
Theorem ccl_wrapper_unref_release_error s p sz rf f err w :
  p ≠ NULL → err_unset err = true → wrapper_mem s !! p = Some w →
  (g_atomic_int_dec_and_test (ref_count w)).2 = true →
  cache_destroyable s w →
  (f (world s) (cl_object w)).2 ≠ CL_SUCCESS →
  ∃ s',
    ccl_wrapper_unref p sz rf (Some f) err s
    = Some ((CL_TRUE,
             g_set_error err CCL_ERROR_OCL
               (MsgReleaseObject (f (world s) (cl_object w)).2)), s') ∧
    (err = Some None →
     g_set_error err CCL_ERROR_OCL
       (MsgReleaseObject (f (world s) (cl_object w)).2)
     = Some (Some (mkGError CCL_ERROR_OCL
                     (MsgReleaseObject (f (world s) (cl_object w)).2)))) ∧
    (∀ i, i ∈ cache_infos (info w) → info_mem s' !! i = None) ∧
    wrappers_entry s' (cl_object w) = None ∧
    world s' = release_fields_world rf p (f (world s) (cl_object w)).1 ∧
    (∀ g, rf = Some g → EvReleaseFields p ∈ trace s') ∧
    EvSliceFree sz p ∈ trace s' ∧
    wrapper_mem s' !! p = None.
Proof.
  intros Hp He Hw Hz Hd Hst. simpl in Hz. apply Z.eqb_eq in Hz.
  eexists. split.
  { rewrite (ccl_wrapper_unref_teardown s p sz rf (Some f) err w) by done.
    simpl. by rewrite decide_True. }
  destruct (after_teardown_gone s p sz w rf (Some f)) as (H1 & H2 & H3 & _).
  split_and!; try done.
  - by intros ->.
  - intros g ->. cbn [trace after_teardown].
    unfold teardown_events, table_events, release_fields_events.
    set_solver.
  - cbn [trace after_teardown]. unfold teardown_events. set_solver.
Qed.

(** C8.  In a reachable state [ccl_wrapper_memcheck] returns true exactly
    when no wrapper is live.  It is true in the initial state; a
    construction leaves the table of wrappers in place, so it is false
    afterwards; the [unref] that destroys the only live wrapper releases
    the table and resets the pointer, so it is true again. *)
Theorem ccl_wrapper_memcheck_no_wrapper s :
  reachable s →
  ccl_wrapper_memcheck s = Some (bool_decide (wrapper_mem s = ∅), s) ∧
  (∀ σ : World,
     ccl_wrapper_memcheck (initial_state σ)
     = Some (CL_TRUE, initial_state σ)) ∧
  (∀ obj sz, obj ≠ NULL →
     ∃ p s', ccl_wrapper_new obj sz s = Some (p, s') ∧
             is_Some (wrappers s') ∧ is_Some (wrapper_mem s' !! p) ∧
             ccl_wrapper_memcheck s' = Some (CL_FALSE, s')) ∧
  (∀ p w sz rf rc err,
     wrapper_mem s = {[p := w]} → err_unset err = true →
     (g_atomic_int_dec_and_test (ref_count w)).2 = true →
     cache_destroyable s w →
     ∃ e s', ccl_wrapper_unref p sz rf rc err s = Some ((CL_TRUE, e), s') ∧
             wrapper_mem s' = ∅ ∧ wrappers s' = None ∧
             ccl_wrapper_memcheck s' = Some (CL_TRUE, s')).
Proof.
  intros Hr. pose proof (reachable_inv s Hr) as Hinv.
  assert (Hmc : ∀ s0 : state, inv s0 →
            ccl_wrapper_memcheck s0
            = Some (bool_decide (wrapper_mem s0 = ∅), s0)).
  { intros s0 H0. unfold ccl_wrapper_memcheck. do 2 f_equal.
    apply bool_decide_ext. by apply inv_no_table. }
  split_and!.
  - by apply Hmc.
  - done.
  - intros obj sz Hobj.
    assert (∃ p s', ccl_wrapper_new obj sz s = Some (p, s') ∧
                    is_Some (wrapper_mem s' !! p)) as (p & s' & Hrun & Hlive).
    { destruct (wrappers_entry s obj) as [q|] eqn:He.
      - destruct (inv_entry s obj q Hinv He) as (Hq & w & Hw & Ho).
        eexists _, _. split; [by eapply ccl_wrapper_new_existing|].
        simpl. rewrite lookup_insert_eq. eauto.
      - eexists _, _. split.
        + apply ccl_wrapper_new_absent; [done | | by rewrite He].
          pose proof (inv_brk s Hinv). unfold NULL. lia.
        + simpl. rewrite lookup_insert_eq. eauto. }
    exists p, s'. split; [done|].
    assert (Hinv' : inv s') by (by eapply reachable_inv, reachable_new).
    assert (Hne : wrapper_mem s' ≠ ∅).
    { intros Habs. rewrite Habs, lookup_empty in Hlive. by destruct Hlive. }
    split_and!; [|done|].
    + destruct (wrappers s') eqn:Et; [done|].
      by apply (inv_no_table s' Hinv') in Et.
    + rewrite (Hmc s' Hinv'). by rewrite bool_decide_eq_false_2.
  - intros p w sz rf rc err Hmem He Hz Hd. simpl in Hz. apply Z.eqb_eq in Hz.
    assert (Hw : wrapper_mem s !! p = Some w).
    { rewrite Hmem. apply lookup_singleton_eq. }
    assert (Hp : p ≠ NULL).
    { pose proof (inv_wrapper_addr s Hinv _ _ Hw). unfold NULL. lia. }
    pose proof (ccl_wrapper_unref_teardown s p sz rf rc err w Hp He Hw Hz Hd)
      as Hrun.
    eexists _, _. split; [exact Hrun|].
    assert (Hinv' : inv (after_teardown p sz w rf rc s)).
    { by eapply reachable_inv, reachable_unref. }
    assert (Hempty : wrapper_mem (after_teardown p sz w rf rc s) = ∅).
    { simpl. rewrite Hmem. apply delete_singleton_eq. }
    split_and!; [done | by apply inv_no_table |].
    rewrite (Hmc _ Hinv'). by rewrite bool_decide_eq_true_2.
Qed.

End Lifecycle.

(** * Properties of the query *)

Section QueryClaims.

Context {World : Type}.

Abbreviation state := (state World).
Abbreviation M := (M World).

Implicit Types s : state.

Lemma g_set_error_set err m :
  err_unset err = true → error_set (g_set_error err CCL_ERROR_OCL m).
Proof. by destruct err as [[e|]|]. Qed.

Lemma reachable_fresh s :
  reachable s →
  brk s ≠ NULL ∧ info_mem s !! brk s = None ∧ wrapper_mem s !! brk s = None.
Proof.
  intros Hr. pose proof (reachable_inv s Hr) as Hinv.
  pose proof (inv_brk s Hinv). split_and!.
  - unfold NULL. lia.
  - destruct (info_mem s !! brk s) as [b|] eqn:Hb; [|done].
    pose proof (inv_info_addr s Hinv _ _ Hb). lia.
  - destruct (wrapper_mem s !! brk s) as [w|] eqn:Hw; [|done].
    pose proof (inv_wrapper_addr s Hinv _ _ Hw). lia.
Qed.

(** C7, as amended.  When [ccl_wrapper_get_info] asks for the size and the
    size reported is zero, it returns [NULL] and sets the error; the value
    is not asked for, no information object is allocated and no cache
    changes.  So a call that makes the query returns an object only if the
    size reported was non-zero, and the object it then returns is the one
    it made: its size is that size and its value is not [NULL].  As long
    as the process leaves the caches to [ccl_wrapper_get_info], no call of
    it, whether it queries or answers from the cache, returns an empty
    object.  And in any reachable state, an empty object that
    [ccl_wrapper_get_info] returns was in the cache under that name before
    the call, which answered from the cache and changed nothing:
    [ccl_wrapper_get_info] makes and caches no empty object, and returns
    one only if [ccl_wrapper_add_info] put it in the cache. *)
Theorem ccl_wrapper_get_info_zero_size s wrapper1 wrapper2 n
    (f : ccl_wrapper_info_fp World) use_cache err w obj2 :
  err_unset err = true → wrapper1 ≠ NULL →
  wrapper_mem s !! wrapper1 = Some w →
  second_of s wrapper2 = Some obj2 →
  negb use_cache || negb (info_cached w n) = true →
  (probed_size f (cl_object w) obj2 n s = 0 →
   ∃ e s',
     ccl_wrapper_get_info wrapper1 wrapper2 n f use_cache err s
     = Some ((NULL, e), s') ∧
     error_set e ∧ (err = Some None → e ≠ Some None) ∧
     trace s' = trace s ++ [probe_event (cl_object w) obj2 n] ∧
     info_mem s' = info_mem s ∧ wrapper_mem s' = wrapper_mem s ∧
     brk s' = brk s) ∧
  (∀ i e s',
     ccl_wrapper_get_info wrapper1 wrapper2 n f use_cache err s
     = Some ((i, e), s') →
     i ≠ NULL →
     probed_size f (cl_object w) obj2 n s ≠ 0 ∧
     (reachable s →
      (∀ old, old ∈ replaced w n → is_Some (info_mem s !! old)) →
      ∃ b, info_mem s' !! i = Some b ∧
           info_size b = probed_size f (cl_object w) obj2 n s ∧
           info_value b ≠ NULL)) ∧
  (∀ cached i e s',
     reachable_by_queries s →
     ccl_wrapper_get_info wrapper1 wrapper2 n f cached err s
     = Some ((i, e), s') →
     i ≠ NULL →
     ∃ b, info_mem s' !! i = Some b ∧ info_size b ≠ 0 ∧ info_value b ≠ NULL) ∧
  (∀ cached i e s' b,
     reachable s →
     ccl_wrapper_get_info wrapper1 wrapper2 n f cached err s
     = Some ((i, e), s') →
     i ≠ NULL → info_mem s' !! i = Some b → info_size b = 0 →
     s' = s ∧ e = err ∧ cached = CL_TRUE ∧
     cache_entry s wrapper1 n i ∧ info_mem s !! i = Some b).
Proof.
  intros Herr Hw1 Hlive Hobj2 Hquery.
  assert (Hzero : probed_size f (cl_object w) obj2 n s = 0 →
    ∃ e,
      ccl_wrapper_get_info wrapper1 wrapper2 n f use_cache err s
      = Some ((NULL, e), after_probe f (cl_object w) obj2 n s) ∧
      error_set e ∧ (err = Some None → e ≠ Some None)).
  { intros Hz.
    destruct (decide (qr_status (probe f (cl_object w) obj2 n s).2
                      = CL_SUCCESS)) as [Hst|Hst].
    - eexists. split; [by eapply ccl_wrapper_get_info_size_zero|].
      split; [by apply g_set_error_set | by intros ->].
    - eexists. split; [by eapply ccl_wrapper_get_info_probe_failed|].
      split; [by apply g_set_error_set | by intros ->]. }
  split_and!.
  - intros Hz. destruct (Hzero Hz) as (e & Hrun & He1 & He2).
    exists e, (after_probe f (cl_object w) obj2 n s). by split_and!.
  - intros i e s' Hrun Hi.
    assert (Hz : probed_size f (cl_object w) obj2 n s ≠ 0).
    { intros Hz. destruct (Hzero Hz) as (e0 & Hrun0 & _). congruence. }
    split; [done|]. intros Hr Hold.
    destruct (reachable_fresh s Hr) as (Hbrk & Hfresh & _).
    destruct (decide (qr_status (probe f (cl_object w) obj2 n s).2
                      = CL_SUCCESS)) as [Hst|Hst].
    2: { rewrite (ccl_wrapper_get_info_probe_failed s wrapper1 wrapper2 n f
                    use_cache err w obj2) in Hrun by done.
         congruence. }
    destruct (decide (qr_status (fetch f (cl_object w) obj2 n s).2
                      = CL_SUCCESS)) as [Hst2|Hst2].
    2: { rewrite (ccl_wrapper_get_info_fetch_failed s wrapper1 wrapper2 n f
                    use_cache err w obj2) in Hrun by done.
         congruence. }
    rewrite (ccl_wrapper_get_info_fetched s wrapper1 wrapper2 n f use_cache
               err w obj2) in Hrun by done.
    injection Hrun as <- _ <-.
    exists (fetched_info f (cl_object w) obj2 n s). split_and!.
    + simpl. rewrite free_infos_lookup. rewrite decide_False.
      * apply lookup_insert_eq.
      * intros Hin. destruct (Hold _ Hin) as [b Hb]. congruence.
    + done.
    + simpl. pose proof (inv_brk s (reachable_inv s Hr)). unfold NULL. lia.
  - intros cached i e s' Hr Hrun Hi.
    destruct (reachable_by_queries_caches s Hr) as [Hsep Hne].
    pose proof (reachable_inv s (reachable_by_queries_reachable s Hr)) as Hinv.
    pose proof (get_info_returns_entry s wrapper1 wrapper2 n f cached err
                  i e s' Hinv Hsep Hrun Hi) as He.
    assert (Hr' : reachable_by_queries s').
    { apply (by_queries_call s
               (Call_get_info wrapper1 wrapper2 n f cached err)); [done..|].
      simpl. unfold mbind, M_bind, bind. by rewrite Hrun. }
    destruct (reachable_by_queries_caches s' Hr') as [Hsep' Hne'].
    destruct (proj1 Hsep' _ _ _ He) as [_ [b Hb]].
    exists b. split; [done|]. by apply (Hne' wrapper1 n i b).
  - intros cached i e s' b Hr Hrun Hi Hb Hempty.
    destruct (reachable_fresh s Hr) as (Hbrk & _ & _).
    destruct (ccl_wrapper_get_info_cases s wrapper1 wrapper2 n f cached err
                i e s' Hbrk Hrun)
      as [(-> & -> & [->|[-> He]])
         |(w0 & obj0 & _ & _ & _ & _ & _
           & [[-> _]|(-> & _ & Hsz & _ & ->)])]; try done.
    exfalso. simpl in Hb. rewrite free_infos_lookup in Hb.
    destruct (decide (brk s ∈ replaced w0 n)); [done|].
    rewrite lookup_insert_eq in Hb. injection Hb as <-. by apply Hsz.
Qed.

(** C9.  When the query [ccl_wrapper_get_info] makes fails (either call
    returns a status other than [CL_SUCCESS], or the size reported is zero)
    it returns [NULL] with the error set; every wrapper, hence every cache,
    is as before, and so is every information object that was live. *)
Theorem ccl_wrapper_get_info_failure_keeps_cache s wrapper1 wrapper2 n
    (f : ccl_wrapper_info_fp World) use_cache err w obj2 :
  reachable s →
  err_unset err = true → wrapper1 ≠ NULL →
  wrapper_mem s !! wrapper1 = Some w →
  second_of s wrapper2 = Some obj2 →
  negb use_cache || negb (info_cached w n) = true →
  query_fails f (cl_object w) obj2 n s →
  ∃ e s',
    ccl_wrapper_get_info wrapper1 wrapper2 n f use_cache err s
    = Some ((NULL, e), s') ∧
    error_set e ∧ (err = Some None → e ≠ Some None) ∧
    wrappers s' = wrappers s ∧
    wrapper_mem s' = wrapper_mem s ∧
    (∀ i b, info_mem s !! i = Some b → info_mem s' !! i = Some b).
Proof.
  intros Hr Herr Hw1 Hlive Hobj2 Hquery Hfail.
  destruct (reachable_fresh s Hr) as (_ & Hfresh & _).
  destruct (decide (qr_status (probe f (cl_object w) obj2 n s).2
                    = CL_SUCCESS)) as [Hst|Hst].
  - destruct (decide (probed_size f (cl_object w) obj2 n s = 0)) as [Hz|Hz].
    + eexists _, _. split; [by eapply ccl_wrapper_get_info_size_zero|].
      split_and!; try done; [by apply g_set_error_set | by intros ->].
    + destruct Hfail as [?|[?|Hst2]]; [done..|].
      eexists _, _. split; [by eapply ccl_wrapper_get_info_fetch_failed|].
      split_and!; try done; [by apply g_set_error_set | by intros -> |].
      intros i b Hi. simpl. rewrite lookup_insert_ne; [done|].
      intros <-. congruence.
  - eexists _, _. split; [by eapply ccl_wrapper_get_info_probe_failed|].
    split_and!; try done; [by apply g_set_error_set | by intros ->].
Qed.

(** C6, as amended.  With [use_cache] false [ccl_wrapper_get_info] always
    asks for the size, cached or not.  It asks for the value exactly when
    the size query succeeded with a non-zero size.  When both succeed it
    returns a fresh information object holding the value fetched, puts it
    in the cache under the parameter name, and the object that was cached
    there before is destroyed. *)
Theorem ccl_wrapper_get_info_forced_refresh s wrapper1 wrapper2 n
    (f : ccl_wrapper_info_fp World) err w obj2 :
  reachable s →
  err_unset err = true → wrapper1 ≠ NULL →
  wrapper_mem s !! wrapper1 = Some w →
  second_of s wrapper2 = Some obj2 →
  (∀ old, old ∈ replaced w n → is_Some (info_mem s !! old)) →
  let obj1 := cl_object w in
  let sized := qr_status (probe f obj1 obj2 n s).2 = CL_SUCCESS ∧
               probed_size f obj1 obj2 n s ≠ 0 in
  ∃ i e s' tl,
    ccl_wrapper_get_info wrapper1 wrapper2 n f CL_FALSE err s
    = Some ((i, e), s') ∧
    trace s' = trace s ++ probe_event obj1 obj2 n :: tl ∧
    (sized →
     ∃ tl', tl = fetch_event obj1 obj2 n (probed_size f obj1 obj2 n s)
                   (brk s + 1) :: tl') ∧
    (¬ sized → tl = []) ∧
    (i ≠ NULL ↔ sized ∧ qr_status (fetch f obj1 obj2 n s).2 = CL_SUCCESS) ∧
    (i ≠ NULL →
     i = brk s ∧ info_mem s !! i = None ∧
     info_mem s' !! i = Some (fetched_info f obj1 obj2 n s) ∧
     (∃ w', wrapper_mem s' !! wrapper1 = Some w' ∧
            ∃ t', info w' = Some t' ∧ t' !! n = Some i) ∧
     (∀ old, old ∈ replaced w n →
             info_mem s' !! old = None ∧ EvInfoDestroy old ∈ tl)).
Proof.
  intros Hr Herr Hw1 Hlive Hobj2 Hold obj1 sized.
  destruct (reachable_fresh s Hr) as (Hbrk & Hfresh & _).
  assert (Hquery : negb CL_FALSE || negb (info_cached w n) = true) by done.
  destruct (decide (qr_status (probe f obj1 obj2 n s).2 = CL_SUCCESS))
    as [Hst|Hst].
  2: { eexists _, _, _, []. split; [by eapply ccl_wrapper_get_info_probe_failed|].
       split_and!; try done.
       - by intros [? _].
       - split; [done | by intros [[? _] _]]. }
  destruct (decide (probed_size f obj1 obj2 n s = 0)) as [Hz|Hz].
  { eexists _, _, _, []. split; [by eapply ccl_wrapper_get_info_size_zero|].
    split_and!; try done.
    - by intros [_ ?].
    - split; [done | by intros [[_ ?] _]]. }
  destruct (decide (qr_status (fetch f obj1 obj2 n s).2 = CL_SUCCESS))
    as [Hst2|Hst2].
  2: { eexists _, _, _, [_].
       split; [by eapply ccl_wrapper_get_info_fetch_failed|].
       split_and!; try done.
       - intros _. by eexists.
       - intros Hn. exfalso. by apply Hn.
       - split; [done | by intros [_ ?]]. }
  eexists _, _, _, (_ :: map EvInfoDestroy (replaced w n)).
  split; [by eapply ccl_wrapper_get_info_fetched|].
  assert (Hnot : ∀ old, old ∈ replaced w n → old ≠ brk s).
  { intros old Hin ->. destruct (Hold _ Hin) as [b Hb]. congruence. }
  split_and!.
  - simpl. by rewrite <- app_assoc.
  - intros _. by eexists.
  - intros Hn. exfalso. by apply Hn.
  - done.
  - intros _. split_and!; try done.
    + simpl. rewrite free_infos_lookup.
      rewrite decide_False by (intros Hin; by apply (Hnot _ Hin)).
      apply lookup_insert_eq.
    + eexists. split; [simpl; apply lookup_insert_eq|].
      eexists. split; [done|]. apply lookup_insert_eq.
    + intros old Hin. split.
      * simpl. rewrite free_infos_lookup. by rewrite decide_True.
      * apply elem_of_cons. right. apply list_elem_of_fmap. eauto.
Qed.

(** C10, as amended.  [ccl_wrapper_get_info_value] and
    [ccl_wrapper_get_info_size] behave as [ccl_wrapper_get_info] followed
    by a read of the object it returned: they end in the state the inner
    call ends in, with the error it set; they return [NULL] and 0 when it
    returned [NULL], else the [value] and the [size] of the object.  As
    long as the process leaves the caches to [ccl_wrapper_get_info], the
    object returned is live, its [value] is not [NULL] and its [size] is
    not 0, so [NULL] and 0 are returned exactly when the inner call
    returned [NULL]; an empty object put in a cache with
    [ccl_wrapper_add_info] gives [NULL] and 0 as well. *)
Theorem ccl_wrapper_get_info_value_size s wrapper1 wrapper2 n
    (f : ccl_wrapper_info_fp World) use_cache err :
  let read (field : CCLWrapperInfo → Z) (failed : Z) :=
    match ccl_wrapper_get_info wrapper1 wrapper2 n f use_cache err s with
    | None => None
    | Some ((diw, e), s') =>
        if decide (diw = NULL) then Some ((failed, e), s')
        else (λ b, ((field b, e), s')) <$> info_mem s' !! diw
    end in
  ccl_wrapper_get_info_value wrapper1 wrapper2 n f use_cache err s
  = read info_value NULL ∧
  ccl_wrapper_get_info_size wrapper1 wrapper2 n f use_cache err s
  = read info_size 0 ∧
  (reachable_by_queries s →
   ∀ diw e s',
     ccl_wrapper_get_info wrapper1 wrapper2 n f use_cache err s
     = Some ((diw, e), s') →
     ∃ v sz,
       ccl_wrapper_get_info_value wrapper1 wrapper2 n f use_cache err s
       = Some ((v, e), s') ∧
       ccl_wrapper_get_info_size wrapper1 wrapper2 n f use_cache err s
       = Some ((sz, e), s') ∧
       (v = NULL ↔ diw = NULL) ∧ (sz = 0 ↔ diw = NULL)).
Proof.
  assert (Hguard : err_unset err = false ∨ wrapper1 = NULL →
    ccl_wrapper_get_info wrapper1 wrapper2 n f use_cache err s
    = Some ((NULL, err), s)).
  { unfold ccl_wrapper_get_info. intros [->| ->]; [done|].
    by destruct (negb (err_unset err)). }
  assert (Hread :
    ccl_wrapper_get_info_value wrapper1 wrapper2 n f use_cache err s
    = match ccl_wrapper_get_info wrapper1 wrapper2 n f use_cache err s with
      | None => None
      | Some ((diw, e), s') =>
          if decide (diw = NULL) then Some ((NULL, e), s')
          else (λ b, ((info_value b, e), s')) <$> info_mem s' !! diw
      end ∧
    ccl_wrapper_get_info_size wrapper1 wrapper2 n f use_cache err s
    = match ccl_wrapper_get_info wrapper1 wrapper2 n f use_cache err s with
      | None => None
      | Some ((diw, e), s') =>
          if decide (diw = NULL) then Some ((0, e), s')
          else (λ b, ((info_size b, e), s')) <$> info_mem s' !! diw
      end).
  { unfold ccl_wrapper_get_info_value, ccl_wrapper_get_info_size.
    destruct (err_unset err) eqn:Herr; simpl.
    2: { rewrite Hguard by auto. by rewrite decide_True. }
    destruct (decide (wrapper1 = NULL)) as [Hw|Hw].
    { rewrite Hguard by auto. by rewrite decide_True. }
    unfold mbind, M_bind, bind.
    destruct (ccl_wrapper_get_info wrapper1 wrapper2 n f use_cache err s)
      as [[[diw e] s']|]; [|done].
    destruct (decide (diw = NULL)) as [->|Hd].
    - by destruct (decide (NULL ≠ NULL)).
    - destruct (decide (diw ≠ NULL)) as [_|Hn]; [|by destruct Hn].
      unfold load_info. by destruct (info_mem s' !! diw). }
  destruct Hread as [Hvalue Hsize]. cbv zeta.
  split; [exact Hvalue|]. split; [exact Hsize|].
  intros Hr diw e s' Hrun. rewrite Hvalue, Hsize, Hrun.
  destruct (decide (diw = NULL)) as [->|Hd].
  { by exists NULL, 0. }
  destruct (reachable_by_queries_caches s Hr) as [Hsep Hne].
  pose proof (reachable_inv s (reachable_by_queries_reachable s Hr)) as Hinv.
  pose proof (get_info_returns_entry s wrapper1 wrapper2 n f use_cache err
                diw e s' Hinv Hsep Hrun Hd) as He.
  assert (Hr' : reachable_by_queries s').
  { apply (by_queries_call s
             (Call_get_info wrapper1 wrapper2 n f use_cache err)); [done..|].
    simpl. unfold mbind, M_bind, bind. by rewrite Hrun. }
  destruct (reachable_by_queries_caches s' Hr') as [Hsep' Hne'].
  destruct (proj1 Hsep' _ _ _ He) as [_ [b Hb]].
  destruct (Hne' wrapper1 n diw b He Hb) as [Hsz Hv].
  exists (info_value b), (info_size b). rewrite Hb. simpl.
  split_and!; [done | done | split; done | split; done].
Qed.

End QueryClaims.

(** * Reference counting *)

Section Counting.

Context {World : Type}.

Abbreviation state := (state World).
Abbreviation M := (M World).

Implicit Types s : state.
Implicit Types c : @rc_call World.
Implicit Types cs : list (@rc_call World).

Lemma gint_wrap_small z : - 2 ^ 31 ≤ z < 2 ^ 31 → gint_wrap z = z.
Proof. intros H. unfold gint_wrap. rewrite Z.mod_small; lia. Qed.

Lemma gint_wrap_add a b : gint_wrap (gint_wrap a + b) = gint_wrap (a + b).
Proof.
  unfold gint_wrap. f_equal.
  replace ((a + 2 ^ 31) mod 2 ^ 32 - 2 ^ 31 + b + 2 ^ 31)
    with ((a + 2 ^ 31) mod 2 ^ 32 + b) by lia.
  rewrite Zplus_mod_idemp_l. f_equal. lia.
Qed.

Lemma refs_cons c cs :
  refs (c :: cs) = (if is_ref c then 1 else 0) + refs cs.
Proof.
  unfold refs. destruct c; cbn [is_ref].
  - rewrite filter_cons_True by done. cbn [length]. lia.
  - rewrite filter_cons_False by done. lia.
Qed.

Lemma unrefs_cons c cs :
  unrefs (c :: cs) = (if is_ref c then 0 else 1) + unrefs cs.
Proof.
  unfold unrefs. destruct c; cbn [is_ref].
  - rewrite filter_cons_False by done. lia.
  - rewrite filter_cons_True by done. cbn [length]. lia.
Qed.

Lemma refs_nonneg cs : 0 ≤ refs cs.
Proof. unfold refs. lia. Qed.

Lemma unrefs_nonneg cs : 0 ≤ unrefs cs.
Proof. unfold unrefs. lia. Qed.

Lemma with_count_with_count p w k1 k2 s :
  with_count p (with_ref_count k1 w) k2 (with_count p w k1 s)
  = with_count p w k2 s.
Proof.
  unfold with_count, set_wrapper_mem; simpl. by rewrite insert_insert_eq.
Qed.

Lemma with_count_same p w s :
  wrapper_mem s !! p = Some w → with_count p w (ref_count w) s = s.
Proof.
  intros Hw. unfold with_count, set_wrapper_mem.
  replace (with_ref_count (ref_count w) w) with w by (by destruct w).
  rewrite insert_id by done. by destruct s.
Qed.

Lemma cache_destroyable_with_count p w k s :
  cache_destroyable s w →
  cache_destroyable (with_count p w k s) (with_ref_count k w).
Proof. done. Qed.

Lemma gint_wrap_range z : - 2 ^ 31 ≤ gint_wrap z < 2 ^ 31.
Proof.
  unfold gint_wrap.
  pose proof (Z.mod_pos_bound (z + 2 ^ 31) (2 ^ 32) ltac:(lia)). lia.
Qed.

(** Below [2 ^ 32] only zero wraps to zero. *)
Lemma gint_wrap_zero z : 0 ≤ z < 2 ^ 32 → gint_wrap z = 0 ↔ z = 0.
Proof.
  intros Hz. unfold gint_wrap. split; [|by intros ->].
  intros H. destruct (decide (z < 2 ^ 31)).
  - rewrite Z.mod_small in H; lia.
  - replace (z + 2 ^ 31) with (z - 2 ^ 31 + 1 * 2 ^ 32) in H by lia.
    rewrite Z_mod_plus_full, Z.mod_small in H; lia.
Qed.

(** A count that reads zero stands for a multiple of [2 ^ 32]. *)
Lemma gint_wrap_zero_multiple z : gint_wrap z = 0 → ∃ m, z = m * 2 ^ 32.
Proof.
  unfold gint_wrap. intros H.
  pose proof (Z.div_mod (z + 2 ^ 31) (2 ^ 32) ltac:(lia)) as Hdm.
  exists ((z + 2 ^ 31) / 2 ^ 32). lia.
Qed.

(** The calls run from [k] references held, the count field holding [k]
    wrapped to a [gint], and no [unref] is made while the references held
    are one more than a positive multiple of [2 ^ 32]: only the [unref]
    that gives back the last reference destroys the wrapper; that [unref]
    is the last call. *)
Lemma run_rc_counts p cs : ∀ s w k,
  p ≠ NULL → wrapper_mem s !! p = Some w →
  ref_count w = gint_wrap k → 1 ≤ k →
  (∀ j sz rf rc err m,
     cs !! j = Some (Rc_unref sz rf rc err) → 1 ≤ m →
     k + refs (take j cs) - unrefs (take j cs) ≠ m * 2 ^ 32 + 1) →
  cache_destroyable s w → errs_unset cs →
  (∀ j, (j < length cs)%nat →
        unrefs (take j cs) < k + refs (take j cs)) →
  ∃ ds s',
    run_rc p cs s = Some (ds, s') ∧
    if decide (unrefs cs = k + refs cs) then
      wrapper_mem s' !! p = None ∧
      ds = replicate (Z.to_nat (unrefs cs) - 1) CL_FALSE ++ [CL_TRUE]
    else
      s' = with_count p w (gint_wrap (k + refs cs - unrefs cs)) s ∧
      ds = replicate (Z.to_nat (unrefs cs)) CL_FALSE.
Proof.
  induction cs as [|c cs IH]; intros s w k Hp Hw Hrc Hk Htells Hd Herr Hlive.
  - exists [], s. split; [done|].
    rewrite decide_False by (unfold unrefs, refs; simpl; lia).
    split; [|done]. unfold refs, unrefs; simpl.
    rewrite Z.add_0_r, Z.sub_0_r, <- Hrc. by rewrite with_count_same.
  - rewrite refs_cons, unrefs_cons in *.
    pose proof (refs_nonneg cs). pose proof (unrefs_nonneg cs).
    assert (Herr' : errs_unset cs).
    { intros sz rf rc err Hin. eapply Herr. by apply elem_of_cons; right. }
    assert (Hlive' : ∀ j, (j < length cs)%nat →
              unrefs (c :: take j cs) < k + refs (c :: take j cs)).
    { intros j Hj. apply (Hlive (S j)). simpl. lia. }
    assert (Htells' : ∀ j sz rf rc err m,
              cs !! j = Some (Rc_unref sz rf rc err) → 1 ≤ m →
              k + refs (c :: take j cs) - unrefs (c :: take j cs)
              ≠ m * 2 ^ 32 + 1).
    { intros j sz rf rc err m Hj Hm.
      by apply (Htells (S j) sz rf rc err m). }
    destruct c as [|sz rf rc err]; simpl in *.
    + (* ref *)
      set (w1 := with_ref_count (gint_wrap (k + 1)) w).
      assert (Hrun : ccl_wrapper_ref p s
                     = Some (tt, with_count p w (gint_wrap (k + 1)) s)).
      { rewrite (ccl_wrapper_ref_run s p w) by done.
        unfold g_atomic_int_inc. by rewrite Hrc, gint_wrap_add. }
      destruct (IH (with_count p w (gint_wrap (k + 1)) s) w1 (k + 1))
        as (ds & s' & Hr & Hres).
      * done.
      * simpl. apply lookup_insert_eq.
      * done.
      * lia.
      * intros j sz rf rc err m Hj Hm.
        specialize (Htells' j sz rf rc err m Hj Hm).
        rewrite refs_cons, unrefs_cons in Htells'. simpl in *. lia.
      * done.
      * done.
      * intros j Hj. specialize (Hlive' j Hj).
        rewrite refs_cons, unrefs_cons in Hlive'. simpl in *. lia.
      * exists ds, s'. split.
        { unfold mbind, M_bind, bind. by rewrite Hrun. }
        destruct (decide (unrefs cs = k + 1 + refs cs)) as [He|He].
        -- rewrite decide_True by lia. done.
        -- rewrite decide_False by lia.
           destruct Hres as [-> ->]. split; [|done].
           unfold w1. rewrite with_count_with_count. do 2 f_equal. lia.
    + (* unref *)
      assert (Heu : err_unset err = true).
      { eapply Herr. by apply elem_of_cons; left. }
      assert (Hdec : gint_wrap (ref_count w - 1) = gint_wrap (k - 1)).
      { rewrite Hrc.
        replace (gint_wrap k - 1) with (gint_wrap k + -1) by lia.
        by rewrite gint_wrap_add. }
      destruct (decide (k = 1)) as [->|H1].
      * (* the last reference is given back: this is the last call *)
        assert (cs = []) as ->.
        { destruct cs as [|c' cs']; [done|]. exfalso.
          specialize (Hlive' 0%nat ltac:(simpl; lia)).
          rewrite refs_cons, unrefs_cons in Hlive'. simpl in Hlive'.
          unfold refs, unrefs in Hlive'. simpl in Hlive'. lia. }
        eexists _, _. split.
        { unfold mbind, M_bind, bind.
          rewrite (ccl_wrapper_unref_teardown s p sz rf rc err w) by done.
          reflexivity. }
        rewrite decide_True by (unfold refs, unrefs; simpl; lia).
        split; [apply lookup_delete_eq | done].
      * (* references remain *)
        assert (Hnz : gint_wrap (ref_count w - 1) ≠ 0).
        { rewrite Hdec. intros Hz.
          destruct (gint_wrap_zero_multiple _ Hz) as [m Hm].
          apply (Htells 0%nat sz rf rc err m); [done | nia |].
          unfold refs, unrefs. simpl. lia. }
        set (w1 := with_ref_count (gint_wrap (k - 1)) w).
        assert (Hrun : ccl_wrapper_unref p sz rf rc err s
                       = Some ((CL_FALSE, err),
                               with_count p w (gint_wrap (k - 1)) s)).
        { rewrite (ccl_wrapper_unref_keep s p sz rf rc err w) by done.
          by rewrite Hdec. }
        destruct (IH (with_count p w (gint_wrap (k - 1)) s) w1 (k - 1))
          as (ds & s' & Hr & Hres).
        -- done.
        -- simpl. apply lookup_insert_eq.
        -- done.
        -- lia.
        -- intros j sz' rf' rc' err' m Hj Hm.
           specialize (Htells' j sz' rf' rc' err' m Hj Hm).
           rewrite refs_cons, unrefs_cons in Htells'. simpl in *. lia.
        -- done.
        -- done.
        -- intros j Hj. specialize (Hlive' j Hj).
           rewrite refs_cons, unrefs_cons in Hlive'. simpl in *. lia.
        -- exists (CL_FALSE :: ds), s'. split.
           { unfold mbind, M_bind, bind. rewrite Hrun. simpl.
             unfold mbind, M_bind, bind in Hr. by rewrite Hr. }
           destruct (decide (unrefs cs = k - 1 + refs cs)) as [He|He].
           ++ rewrite decide_True by lia.
              destruct Hres as [Hgone ->]. split; [done|].
              replace (Z.to_nat (1 + unrefs cs) - 1)%nat
                with (S (Z.to_nat (unrefs cs) - 1))%nat by lia.
              done.
           ++ rewrite decide_False by lia.
              destruct Hres as [-> ->]. split.
              ** unfold w1. rewrite with_count_with_count. do 2 f_equal. lia.
              ** replace (Z.to_nat (1 + unrefs cs))
                   with (S (Z.to_nat (unrefs cs))) by lia.
                 done.
Qed.

(** A sequence during which at most [2 ^ 32] references are held at any
    time meets the condition on the count. *)
Lemma count_tells_bounded cs :
  (∀ j, held (take j cs) ≤ 2 ^ 32) → count_tells cs.
Proof.
  intros Hb j sz rf rc err m Hj Hm He. specialize (Hb j). nia.
Qed.

(** So does a sequence of fewer than [2 ^ 32] calls. *)
Lemma count_tells_short cs : Z.of_nat (length cs) < 2 ^ 32 → count_tells cs.
Proof.
  intros Hlen. apply count_tells_bounded. intros j.
  unfold held, refs.
  pose proof (unrefs_nonneg (take j cs)).
  pose proof (length_filter (λ c, is_ref c = true) (take j cs)) as Hf.
  pose proof (length_take cs j) as Ht. lia.
Qed.

(** C2, as amended.  Take a wrapper just constructed (reference count 1)
    and a sequence of [ref] and [unref] calls on it, each made while the
    wrapper still holds a reference, with error locations that are [NULL]
    or unset, and no [unref] made while the references held number
    [2 ^ 32 + 1], or one more than another positive multiple of [2 ^ 32]
    (the count is a 32-bit [gint] that wraps around, and reads 1 there).
    The calls are all defined; the wrapper is destroyed if and only if the
    [unref]s number the [ref]s plus one; then the last call returned
    [CL_TRUE] and every other [unref] returned [CL_FALSE], else all
    returned [CL_FALSE] and the count is one plus the [ref]s minus the
    [unref]s, as a [gint].  An [unref] that does not take the count to zero
    returns [CL_FALSE] and changes only the count. *)
Theorem ccl_wrapper_refcount_conservation s p w cs :
  p ≠ NULL → wrapper_mem s !! p = Some w → ref_count w = 1 →
  cache_destroyable s w → errs_unset cs →
  count_tells cs → calls_on_live cs →
  (∃ ds s',
     run_rc p cs s = Some (ds, s') ∧
     (wrapper_mem s' !! p = None ↔ unrefs cs = refs cs + 1) ∧
     (unrefs cs = refs cs + 1 →
      ds = replicate (Z.to_nat (unrefs cs) - 1) CL_FALSE ++ [CL_TRUE]) ∧
     (unrefs cs ≠ refs cs + 1 →
      ds = replicate (Z.to_nat (unrefs cs)) CL_FALSE ∧
      s' = with_count p w (gint_wrap (1 + refs cs - unrefs cs)) s)) ∧
  (∀ s0 w0 sz rf rc err,
     err_unset err = true → wrapper_mem s0 !! p = Some w0 →
     (g_atomic_int_dec_and_test (ref_count w0)).2 = false →
     ccl_wrapper_unref p sz rf rc err s0
     = Some ((CL_FALSE, err),
             with_count p w0 (g_atomic_int_dec_and_test (ref_count w0)).1 s0)).
Proof.
  intros Hp Hw H1 Hd Herr Htells Hlive. split.
  - assert (Htells' : ∀ j sz rf rc err m,
              cs !! j = Some (Rc_unref sz rf rc err) → 1 ≤ m →
              1 + refs (take j cs) - unrefs (take j cs) ≠ m * 2 ^ 32 + 1).
    { intros j sz rf rc err m Hj Hm. by apply (Htells j sz rf rc err m). }
    assert (Hlive' : ∀ j, (j < length cs)%nat →
              unrefs (take j cs) < 1 + refs (take j cs)).
    { intros j Hj. specialize (Hlive j Hj). lia. }
    destruct (run_rc_counts p cs s w 1 Hp Hw H1 ltac:(lia) Htells' Hd Herr
                Hlive') as (ds & s' & Hrun & Hres).
    + exists ds, s'. split; [done|].
      destruct (decide (unrefs cs = 1 + refs cs)) as [He|He].
      * destruct Hres as [Hgone ->]. split_and!.
        -- split; [lia | done].
        -- done.
        -- lia.
      * destruct Hres as [-> ->]. split_and!.
        -- split; [|lia]. simpl. rewrite lookup_insert_eq. done.
        -- lia.
        -- done.
  - intros s0 w0 sz rf rc err He Hw0 Hz. simpl in *.
    apply Z.eqb_neq in Hz.
    by apply ccl_wrapper_unref_keep.
Qed.


(** After [k] calls of [ref] the count is the count before plus [k],
    wrapped to 32 bits. *)
Lemma run_rc_refs p k : ∀ cs s w,
  p ≠ NULL → wrapper_mem s !! p = Some w →
  - 2 ^ 31 ≤ ref_count w < 2 ^ 31 →
  run_rc p (replicate k Rc_ref ++ cs) s
  = run_rc p cs (with_count p w (gint_wrap (ref_count w + Z.of_nat k)) s).
Proof.
  induction k as [|k IH]; intros cs s w Hp Hw Hr.
  - cbn [replicate app]. rewrite Z.add_0_r.
    rewrite gint_wrap_small by done. by rewrite with_count_same.
  - cbn [replicate app run_rc]. unfold mbind at 1, M_bind, bind.
    rewrite (ccl_wrapper_ref_run s p w) by done.
    fold (with_count p w (g_atomic_int_inc (ref_count w)) s).
    rewrite (IH cs _ (with_ref_count (g_atomic_int_inc (ref_count w)) w)).
    + rewrite with_count_with_count. cbn [ref_count with_ref_count].
      unfold g_atomic_int_inc. rewrite gint_wrap_add.
      do 3 f_equal. lia.
    + done.
    + unfold with_count, set_wrapper_mem. cbn [wrapper_mem].
      apply lookup_insert_eq.
    + cbn [ref_count with_ref_count]. apply gint_wrap_range.
Qed.

Lemma refs_replicate_ref k cs :
  refs (replicate k Rc_ref ++ cs) = Z.of_nat k + refs cs.
Proof.
  induction k as [|k IH]; cbn [replicate app]; [lia|].
  rewrite refs_cons, IH. cbn [is_ref]. lia.
Qed.

Lemma unrefs_replicate_ref k cs :
  unrefs (replicate k Rc_ref ++ cs) = unrefs cs.
Proof.
  induction k as [|k IH]; cbn [replicate app]; [done|].
  rewrite unrefs_cons, IH. cbn [is_ref]. lia.
Qed.

End Counting.

(** * The store of wrappers, call by call *)

Section WrapperStore.

Context {World : Type}.

Abbreviation state := (state World).
Abbreviation M := (M World).

Implicit Types s : state.

Lemma keeps_ret {A} (a : A) : keeps_wrappers (mret a : M A).
Proof. intros s. by apply wlp_ret. Qed.

Lemma keeps_bind {A B} (m : M A) (k : A → M B) :
  keeps_wrappers m → (∀ a, keeps_wrappers (k a)) → keeps_wrappers (m ≫= k).
Proof.
  intros Hm Hk s. apply wlp_bind. eapply wlp_mono; [apply (Hm s)|].
  intros a s1 H1. cbv beta in *. eapply wlp_mono; [apply (Hk a s1)|].
  intros b s2 H2. cbv beta in *. congruence.
Qed.

Lemma keeps_modify (g : state → state) :
  (∀ s, wrapper_mem (g s) = wrapper_mem s) → keeps_wrappers (modify g).
Proof. intros Hg s. apply wlp_modify, Hg. Qed.

Lemma keeps_emit e : keeps_wrappers (emit e : M unit).
Proof. intros s. by apply wlp_emit. Qed.

Lemma keeps_g_slice_alloc : keeps_wrappers (g_slice_alloc : M Z).
Proof. intros s. by apply wlp_g_slice_alloc. Qed.

Lemma keeps_load_wrapper p : keeps_wrappers (load_wrapper p : M _).
Proof. intros s. by apply wlp_load_wrapper. Qed.

Lemma keeps_load_info p : keeps_wrappers (load_info p : M _).
Proof. intros s. by apply wlp_load_info. Qed.

Lemma keeps_store_info p i : keeps_wrappers (store_info p i : M _).
Proof. intros s. by apply wlp_store_info. Qed.

Lemma keeps_call_info_fun (f : ccl_wrapper_info_fp World) o1 o2 n sz v b :
  keeps_wrappers (call_info_fun f o1 o2 n sz v b).
Proof. intros s. by apply wp_wlp, wp_call_info_fun. Qed.

Lemma keeps_call_release_cl (f : ccl_wrapper_release_cl_object World) obj :
  keeps_wrappers (call_release_cl f obj).
Proof. intros s. by apply wp_wlp, wp_call_release_cl. Qed.

Lemma keeps_call_release_fields (f : ccl_wrapper_release_fields World) p :
  keeps_wrappers (call_release_fields f p).
Proof. intros s. by apply wp_wlp, wp_call_release_fields. Qed.

Lemma keeps_wrappers_size : keeps_wrappers (wrappers_size : M Z).
Proof. intros s. by apply wp_wlp, wp_wrappers_size. Qed.

Create HintDb keeps discriminated.

#[local] Hint Resolve keeps_ret keeps_emit keeps_g_slice_alloc
  keeps_load_wrapper keeps_load_info keeps_store_info keeps_call_info_fun
  keeps_call_release_cl keeps_call_release_fields keeps_wrappers_size
  : keeps.

(** Splits a computation at its binds and branches; a [modify] is left to
    computation. *)
Ltac keeps :=
  repeat first
    [ solve [auto with keeps]
    | apply keeps_bind; [| intros ?]
    | apply keeps_modify; intros ?; simpl; try done
    | match goal with
      | |- keeps_wrappers (if ?b then _ else _) => destruct b
      | |- keeps_wrappers (match ?o with Some _ => _ | None => _ end) =>
          destruct o
      | |- keeps_wrappers (let '(_, _) := ?p in _) => destruct p
      end ].

Lemma keeps_second_object p : keeps_wrappers (second_object p : M _).
Proof. unfold second_object. keeps. Qed.

Lemma keeps_info_new sz : keeps_wrappers (ccl_wrapper_info_new sz : M _).
Proof. unfold ccl_wrapper_info_new. keeps. Qed.

Lemma keeps_info_destroy i : keeps_wrappers (ccl_wrapper_info_destroy i : M _).
Proof. unfold ccl_wrapper_info_destroy. keeps. Qed.

#[local] Hint Resolve keeps_second_object keeps_info_new keeps_info_destroy
  : keeps.

Lemma keeps_destroy_values vs : keeps_wrappers (destroy_values vs : M _).
Proof. induction vs as [|v vs IH]; simpl; keeps. Qed.

#[local] Hint Resolve keeps_destroy_values : keeps.

Lemma keeps_info_table_destroy p t :
  keeps_wrappers (info_table_destroy p t : M unit).
Proof. unfold info_table_destroy. keeps. Qed.

Lemma keeps_wrappers_remove key : keeps_wrappers (wrappers_remove key : M _).
Proof. unfold wrappers_remove. keeps. by destruct (wrappers _). Qed.

Lemma keeps_wrappers_destroy : keeps_wrappers (wrappers_destroy : M _).
Proof. unfold wrappers_destroy. keeps. Qed.

#[local] Hint Resolve keeps_info_table_destroy keeps_wrappers_remove
  keeps_wrappers_destroy : keeps.

Lemma wlp_keeps_bind {A B} (m : M A) (k : A → M B) Q s :
  keeps_wrappers m →
  (∀ a s1, wrapper_mem s1 = wrapper_mem s → wlp (k a) Q s1) →
  wlp (m ≫= k) Q s.
Proof.
  intros Hm Hk. apply wlp_bind. eapply wlp_mono; [apply (Hm s)|].
  intros a s1 H1. by apply Hk.
Qed.

Lemma wrappers_step_same s s' :
  wrapper_mem s' = wrapper_mem s → wrappers_step s s'.
Proof.
  intros Heq p w' Hp. rewrite Heq in Hp. rewrite Hp. apply step_same.
Qed.

Lemma wrappers_step_store s s' p w w' :
  wrapper_mem s !! p = Some w → wrapper_step (Some w) w' →
  wrapper_mem s' = <[p := w']> (wrapper_mem s) → wrappers_step s s'.
Proof.
  intros Hw Hstep Heq q w0 Hq. rewrite Heq in Hq.
  apply lookup_insert_Some in Hq as [[<- <-]|[_ Hq]].
  - by rewrite Hw.
  - rewrite Hq. apply step_same.
Qed.

Lemma wrappers_step_delete s s' p m :
  (∀ q w, q ≠ p → m !! q = Some w → wrapper_mem s !! q = Some w) →
  wrapper_mem s' = delete p m → wrappers_step s s'.
Proof.
  intros Hm Heq q w0 Hq. rewrite Heq in Hq.
  apply lookup_delete_Some in Hq as [Hne Hq].
  rewrite (Hm q w0) by done. apply step_same.
Qed.

Lemma wrappers_step_from s0 s s' :
  wrapper_mem s = wrapper_mem s0 → wrappers_step s s' → wrappers_step s0 s'.
Proof. intros Heq Hstep p w' Hp. rewrite <- Heq. by apply Hstep. Qed.

(** [ccl_wrapper_ref] changes the count of its wrapper. *)
Lemma ccl_wrapper_ref_step p s :
  wlp (ccl_wrapper_ref p) (λ _ s', wrappers_step s s') s.
Proof.
  unfold ccl_wrapper_ref. destruct (decide (p = NULL)).
  { by apply wlp_ret, wrappers_step_same. }
  apply wlp_bind, wlp_load_wrapper. intros w Hw.
  apply wlp_store_wrapper. intros _ _.
  eapply wrappers_step_store; [exact Hw | apply step_count | done].
Qed.

(** [ccl_wrapper_add_info] changes the cache of its wrapper. *)
Lemma ccl_wrapper_add_info_step p n i s :
  wlp (ccl_wrapper_add_info p n i) (λ _ s', wrappers_step s s') s.
Proof.
  unfold ccl_wrapper_add_info.
  destruct (decide (p = NULL)); [by apply wlp_ret, wrappers_step_same|].
  destruct (decide (i = NULL)); [by apply wlp_ret, wrappers_step_same|].
  apply wlp_bind, wlp_load_wrapper. intros w Hw.
  apply wlp_keeps_bind.
  { destruct (default ∅ (info w) !! n); keeps. }
  intros _ s1 H1. apply wlp_store_wrapper. intros _ _.
  eapply wrappers_step_store; [exact Hw | by apply step_cache |].
  simpl. by rewrite H1.
Qed.

(** [ccl_wrapper_get_info] changes a cache, if anything. *)
Lemma ccl_wrapper_get_info_step w1 w2 n (f : ccl_wrapper_info_fp World) uc
    err s :
  wlp (ccl_wrapper_get_info w1 w2 n f uc err) (λ _ s', wrappers_step s s') s.
Proof.
  unfold ccl_wrapper_get_info.
  destruct (negb (err_unset err)); [by apply wlp_ret, wrappers_step_same|].
  destruct (decide (w1 = NULL)); [by apply wlp_ret, wrappers_step_same|].
  apply wlp_keeps_bind; [keeps|]. intros w s1 H1.
  destruct (negb uc || negb (info_cached w n));
    [|by apply wlp_ret, wrappers_step_same].
  apply wlp_keeps_bind; [keeps|]. intros obj2 s2 H2.
  apply wlp_keeps_bind; [keeps|]. intros r s3 H3.
  destruct (decide (qr_status r ≠ CL_SUCCESS)).
  { apply wlp_ret, wrappers_step_same. congruence. }
  destruct (decide (size_t_wrap (qr_size_ret r) = 0)).
  { apply wlp_ret, wrappers_step_same. congruence. }
  apply wlp_keeps_bind; [keeps|]. intros i s4 H4.
  apply wlp_keeps_bind; [keeps|]. intros io s5 H5.
  apply wlp_keeps_bind; [keeps|]. intros obj2' s6 H6.
  apply wlp_keeps_bind; [keeps|]. intros r' s7 H7.
  apply wlp_keeps_bind; [keeps|]. intros _ s8 H8.
  destruct (decide (qr_status r' ≠ CL_SUCCESS)).
  { apply wlp_ret, wrappers_step_same. congruence. }
  apply wlp_bind.
  eapply wlp_mono; [apply ccl_wrapper_add_info_step|].
  intros ? s9 H9. apply wlp_ret.
  eapply wrappers_step_from; [|exact H9]. congruence.
Qed.

Lemma g_slice_free1_wrapper_store sz p s :
  wlp (g_slice_free1_wrapper sz p)
    (λ _ s', wrapper_mem s' = delete p (wrapper_mem s)) s.
Proof.
  unfold g_slice_free1_wrapper.
  apply wlp_bind, wlp_load_wrapper. intros _ _.
  by apply wlp_bind, wlp_emit, wlp_modify.
Qed.

(** [ccl_wrapper_unref] changes the count of its wrapper, or frees it. *)
Lemma ccl_wrapper_unref_step p sz rf rc err s :
  wlp (ccl_wrapper_unref p sz rf rc err) (λ _ s', wrappers_step s s') s.
Proof.
  unfold ccl_wrapper_unref.
  destruct (decide (p = NULL)); [by apply wlp_ret, wrappers_step_same|].
  destruct (negb (err_unset err)); [by apply wlp_ret, wrappers_step_same|].
  apply wlp_bind, wlp_load_wrapper. intros w Hw.
  unfold g_atomic_int_dec_and_test.
  apply wlp_bind, wlp_store_wrapper. intros _ _.
  set (s0 := set_wrapper_mem _ s).
  destruct (gint_wrap (ref_count w - 1) =? 0).
  2: { apply wlp_ret.
       eapply wrappers_step_store; [exact Hw | apply step_count | done]. }
  apply wlp_keeps_bind; [keeps|]. intros e s1 H1.
  apply wlp_keeps_bind; [keeps|]. intros _ s2 H2.
  apply wlp_keeps_bind; [keeps|]. intros _ s3 H3.
  apply wlp_keeps_bind; [keeps|]. intros k s4 H4.
  apply wlp_keeps_bind; [keeps|]. intros _ s5 H5.
  apply wlp_keeps_bind; [keeps|]. intros _ s6 H6.
  apply wlp_bind.
  eapply wlp_mono; [apply g_slice_free1_wrapper_store|].
  intros ? s7 H7. apply wlp_ret.
  eapply wrappers_step_delete; [|exact H7].
  intros q w0 Hne Hq.
  rewrite H6, H5, H4, H3, H2, H1 in Hq. simpl in Hq.
  by rewrite lookup_insert_ne in Hq.
Qed.

(** [ccl_wrapper_new] changes the count of a wrapper or makes one. *)
Lemma ccl_wrapper_new_step obj sz s p s' :
  inv s → ccl_wrapper_new obj sz s = Some (p, s') → wrappers_step s s'.
Proof.
  intros Hinv Hrun.
  destruct (decide (obj = NULL)) as [->|Hobj].
  { rewrite ccl_wrapper_new_null in Hrun. injection Hrun as _ <-.
    by apply wrappers_step_same. }
  destruct (wrappers_entry s obj) as [q|] eqn:He.
  - destruct (inv_entry s obj q Hinv He) as (Hq & w & Hw & Ho).
    rewrite (ccl_wrapper_new_existing s obj sz q w) in Hrun by done.
    injection Hrun as _ <-.
    eapply wrappers_step_store; [exact Hw | apply step_count | done].
  - rewrite ccl_wrapper_new_absent in Hrun.
    + injection Hrun as _ <-. intros q w' Hq. simpl in Hq.
      apply lookup_insert_Some in Hq as [[<- <-]|[_ Hq]].
      * destruct (wrapper_mem s !! brk s) as [w0|] eqn:E.
        { pose proof (inv_wrapper_addr s Hinv _ _ E). lia. }
        by apply step_new.
      * rewrite Hq. apply step_same.
    + done.
    + pose proof (inv_brk s Hinv). unfold NULL. lia.
    + by rewrite He.
Qed.

(** Every call of the interface changes the store of wrappers by steps. *)
Lemma exec_wrappers_step c s s' :
  inv s → exec c s = Some (tt, s') → wrappers_step s s'.
Proof.
  intros Hinv Hrun.
  destruct c; simpl in Hrun.
  - unfold mbind, M_bind, bind in Hrun.
    destruct (ccl_wrapper_new obj sz s) as [[p s1]|] eqn:E; [|done].
    injection Hrun as <-. by eapply ccl_wrapper_new_step.
  - by apply (proj1 (wlp_run _ _ _) (ccl_wrapper_ref_step wrapper s) tt s').
  - unfold mbind, M_bind, bind in Hrun.
    destruct (ccl_wrapper_unref wrapper sz rel_fields_fun rel_cl_fun err s)
      as [[r s1]|] eqn:E; [|done].
    injection Hrun as <-.
    by apply (proj1 (wlp_run _ _ _)
                (ccl_wrapper_unref_step wrapper sz rel_fields_fun rel_cl_fun
                   err s) r s1).
  - by apply (proj1 (wlp_run _ _ _)
                (ccl_wrapper_add_info_step wrapper param_name i s) tt s').
  - unfold mbind, M_bind, bind in Hrun.
    destruct (ccl_wrapper_get_info wrapper1 wrapper2 param_name info_fun
                use_cache err s) as [[r s1]|] eqn:E; [|done].
    injection Hrun as <-.
    by apply (proj1 (wlp_run _ _ _)
                (ccl_wrapper_get_info_step wrapper1 wrapper2 param_name
                   info_fun use_cache err s) r s1).
  - unfold mbind, M_bind, bind in Hrun.
    destruct (ccl_wrapper_get_info_value wrapper1 wrapper2 param_name info_fun
                use_cache err s) as [[r s1]|] eqn:E; [|done].
    injection Hrun as <-.
    destruct (get_info_value_state _ _ _ _ _ _ _ _ _ E) as [->|[r0 E0]].
    + by apply wrappers_step_same.
    + by apply (proj1 (wlp_run _ _ _)
                  (ccl_wrapper_get_info_step wrapper1 wrapper2 param_name
                     info_fun use_cache err s) r0 s1).
  - unfold mbind, M_bind, bind in Hrun.
    destruct (ccl_wrapper_get_info_size wrapper1 wrapper2 param_name info_fun
                use_cache err s) as [[r s1]|] eqn:E; [|done].
    injection Hrun as <-.
    destruct (get_info_size_state _ _ _ _ _ _ _ _ _ E) as [->|[r0 E0]].
    + by apply wrappers_step_same.
    + by apply (proj1 (wlp_run _ _ _)
                  (ccl_wrapper_get_info_step wrapper1 wrapper2 param_name
                     info_fun use_cache err s) r0 s1).
  - unfold mbind, M_bind, bind in Hrun.
    destruct (ccl_wrapper_info_new sz s) as [[r s1]|] eqn:E; [|done].
    injection Hrun as <-. apply wrappers_step_same.
    by apply (proj1 (wlp_run _ _ _) (keeps_info_new sz s) r s1).
  - apply wrappers_step_same.
    by apply (proj1 (wlp_run _ _ _) (keeps_info_destroy i s) tt s').
Qed.

Lemma wrapper_step_wellformed o w' :
  wrapper_step o w' → (∀ w, o = Some w → wellformed w) → wellformed w'.
Proof.
  intros Hstep Ho. destruct Hstep as [w | w k | w n i Hi | obj Hobj].
  - by apply Ho.
  - destruct (Ho w eq_refl) as (H1 & H2 & H3).
    split_and!; [done | apply gint_wrap_range | done].
  - destruct (Ho w eq_refl) as (H1 & H2 & H3).
    split_and!; [done | done |].
    intros t m [= <-] Hm.
    apply lookup_insert_Some in Hm as [[_ Hm]|[_ Hm]]; [done|].
    destruct (info w) as [t0|] eqn:E; simpl in Hm.
    + by apply (H3 t0 m).
    + by rewrite lookup_empty in Hm.
  - split_and!; [done | unfold gint_range; simpl; lia | by intros t m [=]].
Qed.

Lemma wrappers_step_wellformed s s' :
  wrappers_step s s' → all_wrappers wellformed s → all_wrappers wellformed s'.
Proof.
  intros Hstep Hall p w' Hp.
  apply (wrapper_step_wellformed (wrapper_mem s !! p)); [by apply Hstep|].
  intros w Hw. by apply (Hall p).
Qed.

Lemma reachable_wellformed s : reachable s → all_wrappers wellformed s.
Proof.
  induction 1 as [σ | s c s' Hr IH Hrun | s σ _ IH].
  - intros p w Hp. simpl in Hp. by rewrite lookup_empty in Hp.
  - eapply wrappers_step_wellformed; [|exact IH].
    eapply exec_wrappers_step; [by apply reachable_inv | exact Hrun].
  - exact IH.
Qed.

End WrapperStore.

(** * Wrapping and unwrapping *)

Section Wrapping.

Context {World : Type}.

Abbreviation state := (state World).
Abbreviation M := (M World).

Implicit Types s : state.

Lemma ccl_wrapper_unwrap_run s p w :
  p ≠ NULL → wrapper_mem s !! p = Some w →
  ccl_wrapper_unwrap p s = Some (cl_object w, s).
Proof.
  intros Hp Hw. unfold ccl_wrapper_unwrap. rewrite decide_False by done.
  unfold mbind, M_bind, bind, load_wrapper. by rewrite Hw.
Qed.

Lemma ccl_wrapper_ref_count_run s p w :
  p ≠ NULL → wrapper_mem s !! p = Some w →
  ccl_wrapper_ref_count p s = Some (ref_count w, s).
Proof.
  intros Hp Hw. unfold ccl_wrapper_ref_count. rewrite decide_False by done.
  unfold mbind, M_bind, bind, load_wrapper. by rewrite Hw.
Qed.

Lemma inv_live_not_null s p w :
  inv s → wrapper_mem s !! p = Some w → p ≠ NULL.
Proof.
  intros Hinv Hw. pose proof (inv_wrapper_addr s Hinv _ _ Hw).
  unfold NULL. lia.
Qed.

Lemma inv_live_entry s p w :
  inv s → wrapper_mem s !! p = Some w →
  cl_object w ≠ NULL ∧ wrappers_entry s (cl_object w) = Some p.
Proof.
  intros Hinv Hw.
  destruct (inv_registered s Hinv _ _ Hw) as (Ho & t & Ht & Hp).
  split; [done|]. unfold wrappers_entry. by rewrite Ht.
Qed.

(** What [ccl_wrapper_new] returns for an object that is not [NULL], and
    the state it leaves. *)
Lemma ccl_wrapper_new_run s obj sz :
  inv s → obj ≠ NULL →
  ∃ p s' w',
    ccl_wrapper_new obj sz s = Some (p, s') ∧ p ≠ NULL ∧
    wrapper_mem s' !! p = Some w' ∧ cl_object w' = obj ∧
    (∀ q w, wrapper_mem s !! q = Some w →
            ∃ w0, wrapper_mem s' !! q = Some w0 ∧
                  cl_object w0 = cl_object w) ∧
    match wrappers_entry s obj with
    | Some q =>
        q = p ∧
        ∃ w, wrapper_mem s !! p = Some w ∧
             w' = with_ref_count (g_atomic_int_inc (ref_count w)) w ∧
             s' = set_wrapper_mem (<[p := w']> (wrapper_mem s)) s
    | None =>
        p = brk s ∧ w' = mkWrapper obj None 1 ∧ s' = with_new_wrapper obj s
    end.
Proof.
  intros Hinv Hobj.
  destruct (wrappers_entry s obj) as [q|] eqn:He.
  - destruct (inv_entry s obj q Hinv He) as (Hq & w & Hw & Ho).
    exists q, (set_wrapper_mem
                 (<[q := with_ref_count (g_atomic_int_inc (ref_count w)) w]>
                    (wrapper_mem s)) s),
      (with_ref_count (g_atomic_int_inc (ref_count w)) w).
    split_and!; try done.
    + by apply ccl_wrapper_new_existing.
    + simpl. apply lookup_insert_eq.
    + intros q' w0 Hq'. simpl.
      destruct (decide (q = q')) as [<-|Hne].
      * rewrite lookup_insert_eq. eexists. split; [done|].
        simpl. congruence.
      * rewrite lookup_insert_ne by done. eauto.
    + eauto.
  - assert (Hbrk : brk s ≠ NULL).
    { pose proof (inv_brk s Hinv). unfold NULL. lia. }
    exists (brk s), (with_new_wrapper obj s), (mkWrapper obj None 1).
    split_and!; try done.
    + apply ccl_wrapper_new_absent; [done..|]. by rewrite He.
    + simpl. apply lookup_insert_eq.
    + intros q' w0 Hq'. simpl.
      destruct (decide (brk s = q')) as [<-|Hne].
      * pose proof (inv_wrapper_addr s Hinv _ _ Hq'). lia.
      * rewrite lookup_insert_ne by done. eauto.
Qed.

(** X1.  [ccl_wrapper_unwrap] gives back the object [ccl_wrapper_new] was
    given, and [ccl_wrapper_ref_count] tells 1 for a wrapper just made, one
    more than before for a wrapper that was there. *)
Theorem ccl_wrapper_new_unwrap s obj sz :
  reachable s → obj ≠ NULL →
  ∃ p s',
    ccl_wrapper_new obj sz s = Some (p, s') ∧ p ≠ NULL ∧
    ccl_wrapper_unwrap p s' = Some (obj, s') ∧
    (wrapper_mem s !! p = None →
     ccl_wrapper_ref_count p s' = Some (1, s')) ∧
    (∀ w, wrapper_mem s !! p = Some w →
          ccl_wrapper_ref_count p s'
          = Some (g_atomic_int_inc (ref_count w), s')).
Proof.
  intros Hr Hobj. pose proof (reachable_inv s Hr) as Hinv.
  destruct (ccl_wrapper_new_run s obj sz Hinv Hobj)
    as (p & s' & w' & Hrun & Hp & Hw' & Ho & _ & Hcase).
  exists p, s'. split_and!; [done | done | | |].
  - rewrite (ccl_wrapper_unwrap_run s' p w') by done. by rewrite Ho.
  - intros Hnone.
    destruct (wrappers_entry s obj) as [q|].
    + destruct Hcase as (_ & w & Hw & _). congruence.
    + destruct Hcase as (_ & -> & _).
      by rewrite (ccl_wrapper_ref_count_run s' p _ Hp Hw').
  - intros w Hw.
    destruct (wrappers_entry s obj) as [q|].
    + destruct Hcase as (_ & w0 & Hw0 & -> & _).
      rewrite (ccl_wrapper_ref_count_run s' p _ Hp Hw'). simpl. congruence.
    + destruct Hcase as (-> & _).
      pose proof (inv_wrapper_addr s Hinv _ _ Hw). lia.
Qed.

(** X2.  The object of a live wrapper is not [NULL], and [ccl_wrapper_new]
    on it is [ccl_wrapper_ref] on the wrapper: it returns that wrapper and
    leaves the state [ccl_wrapper_ref] leaves. *)
Theorem ccl_wrapper_unwrap_new s p w sz :
  reachable s → wrapper_mem s !! p = Some w →
  ∃ obj s',
    ccl_wrapper_unwrap p s = Some (obj, s) ∧ obj ≠ NULL ∧
    ccl_wrapper_new obj sz s = Some (p, s') ∧
    ccl_wrapper_ref p s = Some (tt, s') ∧
    ccl_wrapper_unwrap p s' = Some (obj, s').
Proof.
  intros Hr Hw. pose proof (reachable_inv s Hr) as Hinv.
  pose proof (inv_live_not_null s p w Hinv Hw) as Hp.
  destruct (inv_live_entry s p w Hinv Hw) as [Ho He].
  exists (cl_object w),
    (set_wrapper_mem
       (<[p := with_ref_count (g_atomic_int_inc (ref_count w)) w]>
          (wrapper_mem s)) s).
  split_and!; [| done | | |].
  - by apply ccl_wrapper_unwrap_run.
  - by apply ccl_wrapper_new_existing.
  - by apply ccl_wrapper_ref_run.
  - rewrite (ccl_wrapper_unwrap_run _ p
               (with_ref_count (g_atomic_int_inc (ref_count w)) w));
      [done | done |].
    simpl. apply lookup_insert_eq.
Qed.

(** X3.  Two calls of [ccl_wrapper_new] return the same wrapper exactly when
    they are given the same object. *)
Theorem ccl_wrapper_new_same_object s obj1 sz1 obj2 sz2 :
  reachable s → obj1 ≠ NULL → obj2 ≠ NULL →
  ∃ p1 s1 p2 s2,
    ccl_wrapper_new obj1 sz1 s = Some (p1, s1) ∧
    ccl_wrapper_new obj2 sz2 s1 = Some (p2, s2) ∧
    (p1 = p2 ↔ obj1 = obj2).
Proof.
  intros Hr Ho1 Ho2. pose proof (reachable_inv s Hr) as Hinv.
  destruct (ccl_wrapper_new_run s obj1 sz1 Hinv Ho1)
    as (p1 & s1 & w1 & Hrun1 & Hp1 & Hw1 & Hobj1 & _ & _).
  assert (Hinv1 : inv s1).
  { apply reachable_inv. by eapply reachable_new. }
  destruct (ccl_wrapper_new_run s1 obj2 sz2 Hinv1 Ho2)
    as (p2 & s2 & w2 & Hrun2 & Hp2 & Hw2 & Hobj2 & Hkeep & Hcase).
  exists p1, s1, p2, s2. split_and!; [done | done |]. split.
  - intros <-. destruct (Hkeep p1 w1 Hw1) as (w0 & Hw0 & Ho0). congruence.
  - intros <-. destruct (inv_live_entry s1 p1 w1 Hinv1 Hw1) as [_ He].
    rewrite Hobj1 in He. rewrite He in Hcase. by destruct Hcase as [-> _].
Qed.

End Wrapping.

(** * A reference taken and given back *)

Section RoundTrips.

Context {World : Type}.

Abbreviation state := (state World).
Abbreviation M := (M World).

Implicit Types s : state.

Lemma state_eta s :
  mkState (wrappers s) (wrapper_mem s) (info_mem s) (brk s) (world s)
    (trace s) = s.
Proof. by destruct s. Qed.

Lemma with_ref_count_same w : with_ref_count (ref_count w) w = w.
Proof. by destruct w. Qed.

(** Taking the entry of [obj] out of the table it was just put in gives
    back the table, released if it was not there. *)
Lemma wrappers_without_insert (ws : option (gmap Z Z)) obj p :
  ws ≠ Some ∅ →
  match ws with Some t => t !! obj | None => None end = None →
  wrappers_without obj (Some (<[obj := p]> (default ∅ ws))) = ws.
Proof.
  intros Hne Hobj. unfold wrappers_without.
  destruct ws as [t|]; simpl.
  - rewrite delete_insert_id by done.
    destruct (decide (base.size t = 0%nat)) as [Hz|Hz]; [|done].
    apply map_size_empty_iff in Hz. by subst t.
  - rewrite delete_insert_id by apply lookup_empty.
    by rewrite map_size_empty.
Qed.

(** X4.  A wrapper made by [ccl_wrapper_new] and given back at once with
    [ccl_wrapper_unref] is destroyed, and the table of wrappers, the live
    wrappers and the information objects are what they were; the release
    functions given have been called. *)
Theorem ccl_wrapper_new_unref_round_trip s obj sz sz' rf rc err :
  reachable s → obj ≠ NULL → wrappers_entry s obj = None →
  err_unset err = true →
  ∃ p s1 s2,
    ccl_wrapper_new obj sz s = Some (p, s1) ∧
    ccl_wrapper_unref p sz' rf rc err s1
    = Some ((CL_TRUE, release_cl_error rc obj (world s) err), s2) ∧
    wrappers s2 = wrappers s ∧ wrapper_mem s2 = wrapper_mem s ∧
    info_mem s2 = info_mem s ∧
    world s2
    = release_fields_world rf p (release_cl_world rc obj (world s)) ∧
    ccl_wrapper_memcheck s2 = Some (bool_decide (wrappers s = None), s2).
Proof.
  intros Hr Hobj He Herr. pose proof (reachable_inv s Hr) as Hinv.
  destruct (reachable_fresh s Hr) as (Hbrk & _ & Hfree).
  exists (brk s), (with_new_wrapper obj s),
    (after_teardown (brk s) sz' (mkWrapper obj None 1) rf rc
       (with_new_wrapper obj s)).
  assert (Hws : wrappers_without obj
                  (Some (<[obj := brk s]> (default ∅ (wrappers s))))
                = wrappers s).
  { apply wrappers_without_insert; [apply (inv_nonempty s Hinv)|].
    exact He. }
  split_and!.
  - apply ccl_wrapper_new_absent; [done..|]. by rewrite He.
  - rewrite (ccl_wrapper_unref_teardown (with_new_wrapper obj s) (brk s) sz'
               rf rc err (mkWrapper obj None 1)); [done | done | done | | done |].
    + simpl. apply lookup_insert_eq.
    + by intros t [=].
  - exact Hws.
  - simpl. by apply delete_insert_id.
  - done.
  - done.
  - unfold ccl_wrapper_memcheck. cbn [wrappers after_teardown cl_object].
    cbn [with_new_wrapper wrappers]. by rewrite Hws.
Qed.

(** X5.  On a live wrapper whose count is not 0, [ccl_wrapper_ref] followed
    by [ccl_wrapper_unref] destroys nothing, calls no release function and
    ends in the state it started in. *)
Theorem ccl_wrapper_ref_unref_round_trip s p w sz rf rc err :
  reachable s → wrapper_mem s !! p = Some w → ref_count w ≠ 0 →
  err_unset err = true →
  ∃ s1,
    ccl_wrapper_ref p s = Some (tt, s1) ∧
    ccl_wrapper_ref_count p s1 = Some (g_atomic_int_inc (ref_count w), s1) ∧
    ccl_wrapper_unref p sz rf rc err s1 = Some ((CL_FALSE, err), s).
Proof.
  intros Hr Hw Hc Herr. pose proof (reachable_inv s Hr) as Hinv.
  pose proof (inv_live_not_null s p w Hinv Hw) as Hp.
  destruct (reachable_wellformed s Hr p w Hw) as (_ & Hrange & _).
  set (w1 := with_ref_count (g_atomic_int_inc (ref_count w)) w).
  exists (set_wrapper_mem (<[p := w1]> (wrapper_mem s)) s).
  assert (Hw1 : wrapper_mem (set_wrapper_mem (<[p := w1]> (wrapper_mem s)) s)
                !! p = Some w1) by (simpl; apply lookup_insert_eq).
  assert (Hback : gint_wrap (ref_count w1 - 1) = ref_count w).
  { unfold w1, g_atomic_int_inc. simpl.
    replace (gint_wrap (ref_count w + 1) - 1)
      with (gint_wrap (ref_count w + 1) + -1) by lia.
    rewrite gint_wrap_add.
    replace (ref_count w + 1 + -1) with (ref_count w) by lia.
    by apply gint_wrap_small. }
  split_and!.
  - by apply ccl_wrapper_ref_run.
  - by rewrite (ccl_wrapper_ref_count_run _ p w1).
  - rewrite (ccl_wrapper_unref_keep _ p sz rf rc err w1);
      [| done | done | done | by rewrite Hback].
    rewrite Hback. do 2 f_equal.
    unfold set_wrapper_mem; simpl. rewrite insert_insert_eq.
    replace (with_ref_count (ref_count w) w1) with w
      by (unfold w1; by destruct w).
    rewrite insert_id by done. apply state_eta.
Qed.

(** X6.  An object whose wrapper was destroyed can be wrapped again: the new
    wrapper holds one reference and has no cache, and what the old one
    cached is gone. *)
Theorem ccl_wrapper_new_after_destroy s p w sz rf rc err sz' :
  reachable s → wrapper_mem s !! p = Some w → ref_count w = 1 →
  cache_destroyable s w → err_unset err = true →
  ∃ e s1 p' s2,
    ccl_wrapper_unref p sz rf rc err s = Some ((CL_TRUE, e), s1) ∧
    ccl_wrapper_new (cl_object w) sz' s1 = Some (p', s2) ∧
    p' ≠ NULL ∧
    wrapper_mem s2 !! p' = Some (mkWrapper (cl_object w) None 1) ∧
    ccl_wrapper_ref_count p' s2 = Some (1, s2) ∧
    (∀ i, i ∈ cache_infos (info w) → info_mem s2 !! i = None).
Proof.
  intros Hr Hw Hc Hd Herr. pose proof (reachable_inv s Hr) as Hinv.
  pose proof (inv_live_not_null s p w Hinv Hw) as Hp.
  destruct (inv_live_entry s p w Hinv Hw) as [Ho _].
  assert (Hz : gint_wrap (ref_count w - 1) = 0) by (by rewrite Hc).
  pose proof (ccl_wrapper_unref_teardown s p sz rf rc err w Hp Herr Hw Hz Hd)
    as Hrun.
  set (s1 := after_teardown p sz w rf rc s) in *.
  assert (Hr1 : reachable s1) by (by eapply reachable_unref).
  pose proof (reachable_inv s1 Hr1) as Hinv1.
  destruct (after_teardown_gone s p sz w rf rc) as (_ & He & Hfreed & _).
  fold s1 in He, Hfreed.
  destruct (ccl_wrapper_new_run s1 (cl_object w) sz' Hinv1 Ho)
    as (p' & s2 & w' & Hrun2 & Hp' & Hw' & _ & _ & Hcase).
  rewrite He in Hcase. destruct Hcase as (-> & -> & ->).
  exists (release_cl_error rc (cl_object w) (world s) err), s1, (brk s1),
    (with_new_wrapper (cl_object w) s1).
  split_and!; try done.
  by rewrite (ccl_wrapper_ref_count_run _ (brk s1) _ Hp' Hw').
Qed.

End RoundTrips.

(** * What a teardown leaves alone *)

Section Isolation.

Context {World : Type}.

Abbreviation state := (state World).
Abbreviation M := (M World).

Implicit Types s : state.

(** An object the teardown of a cache destroys is an entry of that
    cache. *)
Lemma cache_infos_entry s p w i :
  wrapper_mem s !! p = Some w → i ∈ cache_infos (info w) →
  ∃ n, cache_entry s p n i.
Proof.
  intros Hw Hi. unfold cache_infos in Hi.
  destruct (info w) as [t|] eqn:Ht; [|by apply elem_of_nil in Hi].
  unfold cached_infos in Hi.
  apply list_elem_of_filter in Hi as [_ Hi].
  apply (list_elem_of_fmap_1 snd) in Hi as ([n v] & -> & Hnv).
  apply elem_of_map_to_list in Hnv.
  exists n, w, t. by split_and!.
Qed.

Lemma wrappers_without_other obj obj' ws :
  obj' ≠ obj →
  match wrappers_without obj ws with Some t => t !! obj' | None => None end
  = match ws with Some t => t !! obj' | None => None end.
Proof.
  intros Hne. unfold wrappers_without. destruct ws as [t|]; [|done].
  destruct (decide (base.size (delete obj t) = 0%nat)) as [Hz|Hz].
  - apply map_size_empty_iff in Hz.
    rewrite <- (lookup_delete_ne t obj obj') by done.
    by rewrite Hz, lookup_empty.
  - by rewrite lookup_delete_ne.
Qed.

(** X7.  The [ccl_wrapper_unref] that destroys a wrapper leaves every other
    wrapper, its entry in the table of wrappers, its cache and the objects
    it caches as they are; an information object that the destroyed wrapper
    did not cache stays too. *)
Theorem ccl_wrapper_unref_leaves_others s p w sz rf rc err :
  reachable s → caches_separate s → wrapper_mem s !! p = Some w →
  ref_count w = 1 → err_unset err = true →
  ∃ e s',
    ccl_wrapper_unref p sz rf rc err s = Some ((CL_TRUE, e), s') ∧
    (∀ q, q ≠ p → wrapper_mem s' !! q = wrapper_mem s !! q) ∧
    (∀ obj, obj ≠ cl_object w →
            wrappers_entry s' obj = wrappers_entry s obj) ∧
    (∀ q n i, q ≠ p → cache_entry s q n i →
              cache_entry s' q n i ∧ info_mem s' !! i = info_mem s !! i) ∧
    (∀ i, (∀ n, ¬ cache_entry s p n i) →
          info_mem s' !! i = info_mem s !! i).
Proof.
  intros Hr Hsep Hw Hc Herr. pose proof (reachable_inv s Hr) as Hinv.
  pose proof (inv_live_not_null s p w Hinv Hw) as Hp.
  assert (Hz : gint_wrap (ref_count w - 1) = 0) by (by rewrite Hc).
  pose proof (caches_separate_destroyable s p w Hsep Hw) as Hd.
  exists (release_cl_error rc (cl_object w) (world s) err),
    (after_teardown p sz w rf rc s).
  destruct (after_teardown_gone s p sz w rf rc) as (_ & _ & _ & Hkept).
  assert (Hother : ∀ i, (∀ n, ¬ cache_entry s p n i) →
            info_mem (after_teardown p sz w rf rc s) !! i
            = info_mem s !! i).
  { intros i Hi. apply Hkept. intros Hin.
    destruct (cache_infos_entry s p w i Hw Hin) as [n Hn].
    by apply (Hi n). }
  split_and!.
  - by apply ccl_wrapper_unref_teardown.
  - intros q Hq. simpl. by apply lookup_delete_ne.
  - intros obj Hobj. unfold wrappers_entry. simpl.
    by apply wrappers_without_other.
  - intros q n i Hq (w0 & t & Hw0 & Ht & Hn). split.
    + exists w0, t. split_and!; [|done..].
      simpl. by rewrite lookup_delete_ne.
    + apply Hother. intros n' He.
      destruct (proj2 Hsep p n' q n i He) as [Heq _].
      * by exists w0, t.
      * by apply Hq.
  - exact Hother.
Qed.

End Isolation.

(** * Information objects and the cache *)

Section Infos.

Context {World : Type}.

Abbreviation state := (state World).
Abbreviation M := (M World).

Implicit Types s : state.

(** X8.  [ccl_wrapper_info_new] makes a live object at a fresh address, of
    the size asked for, zero-filled, with a buffer exactly when the size is
    not 0; [ccl_wrapper_info_destroy] on it gives back the store of
    information objects as it was, and a second [ccl_wrapper_info_destroy]
    on it is undefined. *)
Theorem ccl_wrapper_info_new_destroy s sz :
  reachable s → 0 ≤ sz →
  ∃ i b s1 s2,
    ccl_wrapper_info_new sz s = Some (i, s1) ∧
    i ≠ NULL ∧ info_mem s !! i = None ∧ wrapper_mem s !! i = None ∧
    info_mem s1 = <[i := b]> (info_mem s) ∧
    info_size b = sz ∧ info_bytes b = repeat x00 (Z.to_nat sz) ∧
    (info_value b = NULL ↔ sz = 0) ∧ info_value b ≠ i ∧
    ccl_wrapper_info_destroy i s1 = Some (tt, s2) ∧
    info_mem s2 = info_mem s ∧ wrapper_mem s2 = wrapper_mem s ∧
    wrappers s2 = wrappers s ∧
    ccl_wrapper_info_destroy i s2 = None.
Proof.
  intros Hr Hsz. destruct (reachable_fresh s Hr) as (Hbrk & Hfree & Hwfree).
  pose proof (inv_brk s (reachable_inv s Hr)) as Hpos.
  assert (Hcase : ∃ b s1,
    ccl_wrapper_info_new sz s = Some (brk s, s1) ∧
    info_mem s1 = <[brk s := b]> (info_mem s) ∧
    wrapper_mem s1 = wrapper_mem s ∧ wrappers s1 = wrappers s ∧
    info_size b = sz ∧ info_bytes b = repeat x00 (Z.to_nat sz) ∧
    (info_value b = NULL ↔ sz = 0) ∧ info_value b ≠ brk s).
  { destruct (decide (sz = 0)) as [->|Hnz].
    - eexists _, _. split; [apply ccl_wrapper_info_new_zero|].
      simpl. split_and!; try done; unfold NULL in *; lia.
    - eexists _, _. split; [apply ccl_wrapper_info_new_run; lia|].
      split_and!; try done; unfold NULL in *; cbn [info_value]; lia. }
  destruct Hcase as (b & s1 & Hnew & Hmem & Hwm & Hws & Hb1 & Hb2 & Hb3 & Hb4).
  assert (Hlive : info_mem s1 !! brk s = Some b)
    by (rewrite Hmem; apply lookup_insert_eq).
  exists (brk s), b, s1,
    (mkState (wrappers s1) (wrapper_mem s1) (delete (brk s) (info_mem s1))
       (brk s1) (world s1) (trace s1 ++ [EvInfoDestroy (brk s)])).
  split_and!; try done.
  - by apply (ccl_wrapper_info_destroy_run s1 (brk s) b).
  - simpl. rewrite Hmem. by apply delete_insert_id.
  - unfold ccl_wrapper_info_destroy. rewrite decide_False by done.
    unfold mbind, M_bind, bind, load_info. simpl.
    by rewrite lookup_delete_eq.
Qed.

(** X9.  An object put in the cache with [ccl_wrapper_add_info] is what
    [ccl_wrapper_get_info] returns for its name when the cache may be used,
    without any query and whatever the second wrapper; the object the name
    had is destroyed, and the other names keep theirs. *)
Theorem ccl_wrapper_add_info_get_info s p n i w wrapper2
    (f : ccl_wrapper_info_fp World) err :
  p ≠ NULL → i ≠ NULL → wrapper_mem s !! p = Some w →
  (∀ old, old ∈ replaced w n → is_Some (info_mem s !! old)) →
  err_unset err = true →
  ∃ s1,
    ccl_wrapper_add_info p n i s = Some (tt, s1) ∧
    ccl_wrapper_get_info p wrapper2 n f CL_TRUE err s1 = Some ((i, err), s1) ∧
    (∀ old, old ∈ replaced w n → info_mem s1 !! old = None) ∧
    (∀ j, j ∉ replaced w n → info_mem s1 !! j = info_mem s !! j) ∧
    (∀ n' j, n' ≠ n → cache_entry s p n' j →
       ccl_wrapper_get_info p wrapper2 n' f CL_TRUE err s1
       = Some ((j, err), s1)) ∧
    world s1 = world s ∧ wrappers s1 = wrappers s.
Proof.
  intros Hp Hi Hw Hold Herr.
  set (w1 := with_info (Some (<[n := i]> (default ∅ (info w)))) w).
  assert (Hw1 : wrapper_mem (after_add_info p n i w s) !! p = Some w1)
    by (simpl; apply lookup_insert_eq).
  exists (after_add_info p n i w s). split_and!.
  - by apply ccl_wrapper_add_info_run.
  - rewrite (ccl_wrapper_get_info_hit _ p wrapper2 n f CL_TRUE err w1);
      try done.
    + unfold w1. simpl. by rewrite lookup_insert_eq.
    + unfold info_cached, w1. simpl. rewrite lookup_insert_eq.
      by apply bool_decide_eq_true.
  - intros old Hin. simpl. rewrite free_infos_lookup.
    by rewrite decide_True.
  - intros j Hj. simpl. rewrite free_infos_lookup.
    by rewrite decide_False.
  - intros n' j Hn' (w0 & t & Hw0 & Ht & Hj).
    assert (w0 = w) as -> by congruence.
    rewrite (ccl_wrapper_get_info_hit _ p wrapper2 n' f CL_TRUE err w1);
      try done.
    + unfold w1. simpl. rewrite lookup_insert_ne by done.
      by rewrite Ht; simpl; rewrite Hj.
    + unfold info_cached, w1. simpl. rewrite lookup_insert_ne by done.
      rewrite Ht; simpl. rewrite Hj. by apply bool_decide_eq_true.
  - done.
  - done.
Qed.

(** X10.  [ccl_wrapper_add_info] does not look at the object it replaces:
    given the object the name already has, it destroys that object and keeps
    it in the cache, so that [ccl_wrapper_get_info] still returns it and
    reading its value is undefined. *)
Theorem ccl_wrapper_add_info_again s p n i w b wrapper2
    (f : ccl_wrapper_info_fp World) err :
  p ≠ NULL → i ≠ NULL → wrapper_mem s !! p = Some w →
  cache_entry s p n i → info_mem s !! i = Some b →
  err_unset err = true →
  ∃ s1,
    ccl_wrapper_add_info p n i s = Some (tt, s1) ∧
    cache_entry s1 p n i ∧ info_mem s1 !! i = None ∧
    ccl_wrapper_get_info p wrapper2 n f CL_TRUE err s1 = Some ((i, err), s1) ∧
    ccl_wrapper_get_info_value p wrapper2 n f CL_TRUE err s1 = None ∧
    ccl_wrapper_get_info_size p wrapper2 n f CL_TRUE err s1 = None.
Proof.
  intros Hp Hi Hw He Hb Herr.
  assert (Hrep : replaced w n = [i]).
  { destruct He as (w0 & t & Hw0 & Ht & Hn).
    assert (w0 = w) as -> by congruence.
    unfold replaced. rewrite Ht; simpl. rewrite Hn.
    by rewrite decide_False. }
  set (w1 := with_info (Some (<[n := i]> (default ∅ (info w)))) w).
  assert (Hw1 : wrapper_mem (after_add_info p n i w s) !! p = Some w1)
    by (simpl; apply lookup_insert_eq).
  assert (Hget : ccl_wrapper_get_info p wrapper2 n f CL_TRUE err
                   (after_add_info p n i w s)
                 = Some ((i, err), after_add_info p n i w s)).
  { rewrite (ccl_wrapper_get_info_hit _ p wrapper2 n f CL_TRUE err w1);
      try done.
    + unfold w1. simpl. by rewrite lookup_insert_eq.
    + unfold info_cached, w1. simpl. rewrite lookup_insert_eq.
      by apply bool_decide_eq_true. }
  assert (Hgone : info_mem (after_add_info p n i w s) !! i = None).
  { simpl. rewrite free_infos_lookup, Hrep.
    rewrite decide_True; [done | apply list_elem_of_singleton; done]. }
  exists (after_add_info p n i w s). split_and!.
  - apply ccl_wrapper_add_info_run; try done.
    intros old Hin. rewrite Hrep in Hin.
    apply list_elem_of_singleton in Hin as ->. by eexists.
  - exists w1, (<[n := i]> (default ∅ (info w))).
    split_and!; [done | done | apply lookup_insert_eq].
  - exact Hgone.
  - exact Hget.
  - unfold ccl_wrapper_get_info_value. rewrite Herr. simpl.
    rewrite decide_False by done.
    unfold mbind, M_bind, bind. rewrite Hget.
    rewrite decide_True by done.
    unfold load_info. by rewrite Hgone.
  - unfold ccl_wrapper_get_info_size. rewrite Herr. simpl.
    rewrite decide_False by done.
    unfold mbind, M_bind, bind. rewrite Hget.
    rewrite decide_True by done.
    unfold load_info. by rewrite Hgone.
Qed.

End Infos.

(** * Queries that fail, and what they leave *)

Section FailedQueries.

Context {World : Type}.

Abbreviation state := (state World).
Abbreviation M := (M World).

Implicit Types s : state.

(** X11.  When the size query succeeds and the value query fails,
    [ccl_wrapper_get_info] returns [NULL] and sets the error, and the
    information object it made for the value is not destroyed: it stays
    live, at an address no cache holds. *)
Theorem ccl_wrapper_get_info_failed_fetch_leaks s wrapper1 wrapper2 n
    (f : ccl_wrapper_info_fp World) use_cache err w obj2 :
  reachable s → caches_separate s →
  err_unset err = true → wrapper1 ≠ NULL →
  wrapper_mem s !! wrapper1 = Some w →
  second_of s wrapper2 = Some obj2 →
  negb use_cache || negb (info_cached w n) = true →
  qr_status (probe f (cl_object w) obj2 n s).2 = CL_SUCCESS →
  probed_size f (cl_object w) obj2 n s ≠ 0 →
  qr_status (fetch f (cl_object w) obj2 n s).2 ≠ CL_SUCCESS →
  ∃ e s',
    ccl_wrapper_get_info wrapper1 wrapper2 n f use_cache err s
    = Some ((NULL, e), s') ∧
    error_set e ∧
    info_mem s !! brk s = None ∧
    info_mem s' = <[brk s := fetched_info f (cl_object w) obj2 n s]>
                    (info_mem s) ∧
    wrapper_mem s' = wrapper_mem s ∧
    (∀ p m, ¬ cache_entry s' p m (brk s)).
Proof.
  intros Hr Hsep Herr Hw1 Hw Hobj2 Hq Hst Hsz Hst2.
  destruct (reachable_fresh s Hr) as (_ & Hfree & _).
  eexists _, _. split_and!.
  - by apply (ccl_wrapper_get_info_fetch_failed s wrapper1 wrapper2 n f
                use_cache err w obj2).
  - by apply g_set_error_set.
  - done.
  - done.
  - done.
  - intros p m He.
    assert (He0 : cache_entry s p m (brk s))
      by (by apply (cache_entry_same s (after_fetch f (cl_object w) obj2 n s))).
    destruct (proj1 Hsep p m (brk s) He0) as [_ [b Hb]]. congruence.
Qed.

(** X12.  A wrapper made, queried with a value query that fails, and given
    back: the table of wrappers and the live wrappers are what they were, so
    [ccl_wrapper_memcheck] answers as before, and one information object
    more is live. *)
Theorem ccl_wrapper_memcheck_misses_leak s obj sz n
    (f : ccl_wrapper_info_fp World) use_cache err sz' rf rc err' :
  reachable s → obj ≠ NULL → wrappers_entry s obj = None →
  err_unset err = true → err_unset err' = true →
  qr_status (probe f obj None n s).2 = CL_SUCCESS →
  probed_size f obj None n s ≠ 0 →
  qr_status (fetch f obj None n (with_new_wrapper obj s)).2 ≠ CL_SUCCESS →
  ∃ p s1 e s2 e' s3 b,
    ccl_wrapper_new obj sz s = Some (p, s1) ∧
    ccl_wrapper_get_info p NULL n f use_cache err s1 = Some ((NULL, e), s2) ∧
    ccl_wrapper_unref p sz' rf rc err' s2 = Some ((CL_TRUE, e'), s3) ∧
    wrappers s3 = wrappers s ∧ wrapper_mem s3 = wrapper_mem s ∧
    ccl_wrapper_memcheck s3 = Some (bool_decide (wrappers s = None), s3) ∧
    info_mem s !! (brk s + 1) = None ∧
    info_mem s3 = <[brk s + 1 := b]> (info_mem s).
Proof.
  intros Hr Hobj He Herr Herr' Hst Hsz Hst2.
  pose proof (reachable_inv s Hr) as Hinv.
  destruct (reachable_fresh s Hr) as (Hbrk & _ & Hfree).
  set (s1 := with_new_wrapper obj s).
  set (w := mkWrapper obj None 1).
  assert (Hw : wrapper_mem s1 !! brk s = Some w)
    by (simpl; apply lookup_insert_eq).
  assert (Hnew : ccl_wrapper_new obj sz s = Some (brk s, s1)).
  { apply ccl_wrapper_new_absent; [done..|]. by rewrite He. }
  assert (Hr1 : reachable s1) by (by eapply reachable_new).
  destruct (reachable_fresh s1 Hr1) as (_ & Hfree1 & _).
  set (s2 := after_fetch f obj None n s1).
  assert (Hget : ccl_wrapper_get_info (brk s) NULL n f use_cache err s1
                 = Some ((NULL, g_set_error err CCL_ERROR_OCL
                            (MsgInfoValue (qr_status (fetch f obj None n s1).2))),
                         s2)).
  { apply (ccl_wrapper_get_info_fetch_failed s1 (brk s) NULL n f use_cache
             err w None); try done.
    unfold info_cached. simpl. apply orb_true_r. }
  assert (Hw2 : wrapper_mem s2 !! brk s = Some w) by exact Hw.
  assert (Hws : wrappers_without obj
                  (Some (<[obj := brk s]> (default ∅ (wrappers s))))
                = wrappers s).
  { apply wrappers_without_insert; [apply (inv_nonempty s Hinv) | exact He]. }
  exists (brk s), s1,
    (g_set_error err CCL_ERROR_OCL
       (MsgInfoValue (qr_status (fetch f obj None n s1).2))), s2,
    (release_cl_error rc (cl_object w) (world s2) err'),
    (after_teardown (brk s) sz' w rf rc s2),
    (fetched_info f obj None n s1).
  split_and!.
  - exact Hnew.
  - exact Hget.
  - apply (ccl_wrapper_unref_teardown s2 (brk s) sz' rf rc err' w);
      [done | done | done | done |].
    by intros t [=].
  - exact Hws.
  - simpl. by apply delete_insert_id.
  - unfold ccl_wrapper_memcheck.
    cbn [wrappers after_teardown cl_object w s2 after_fetch s1
           with_new_wrapper].
    by rewrite Hws.
  - exact Hfree1.
  - done.
Qed.

(** X13.  [ccl_wrapper_get_info] returns [NULL] exactly when it reports an
    error: a call on live wrappers, in a state whose caches are separate,
    either returns an object that is live and cached under the name, with
    the error location as it was, or returns [NULL] with the error set. *)
Theorem ccl_wrapper_get_info_null_iff_error s wrapper1 wrapper2 n
    (f : ccl_wrapper_info_fp World) use_cache err w obj2 :
  reachable s → caches_separate s →
  err_unset err = true →
  wrapper_mem s !! wrapper1 = Some w →
  second_of s wrapper2 = Some obj2 →
  ∃ i e s',
    ccl_wrapper_get_info wrapper1 wrapper2 n f use_cache err s
    = Some ((i, e), s') ∧
    (i ≠ NULL →
     e = err ∧ cache_entry s' wrapper1 n i ∧ is_Some (info_mem s' !! i)) ∧
    (i = NULL → error_set e ∧ wrapper_mem s' = wrapper_mem s) ∧
    (err = Some None → (i = NULL ↔ e ≠ Some None)).
Proof.
  intros Hr Hsep Herr Hw Hobj2.
  pose proof (reachable_inv s Hr) as Hinv.
  pose proof (inv_live_not_null s wrapper1 w Hinv Hw) as Hw1.
  destruct (reachable_fresh s Hr) as (Hbrk & Hfree & _).
  assert (Hset : ∀ m, err = Some None →
            g_set_error err CCL_ERROR_OCL m ≠ Some None).
  { by intros m ->. }
  destruct (negb use_cache || negb (info_cached w n)) eqn:Hq.
  - destruct (decide (qr_status (probe f (cl_object w) obj2 n s).2
                      = CL_SUCCESS)) as [Hst|Hst].
    2: { eexists _, _, _. split;
           [by apply (ccl_wrapper_get_info_probe_failed s wrapper1 wrapper2 n
                        f use_cache err w obj2)|].
         split_and!; [done | | ].
         - intros _. split; [by apply g_set_error_set | done].
         - intros He. split; [by intros _; apply Hset | done]. }
    destruct (decide (probed_size f (cl_object w) obj2 n s = 0)) as [Hsz|Hsz].
    { eexists _, _, _. split;
        [by apply (ccl_wrapper_get_info_size_zero s wrapper1 wrapper2 n
                     f use_cache err w obj2)|].
      split_and!; [done | | ].
      - intros _. split; [by apply g_set_error_set | done].
      - intros He. split; [by intros _; apply Hset | done]. }
    destruct (decide (qr_status (fetch f (cl_object w) obj2 n s).2
                      = CL_SUCCESS)) as [Hst2|Hst2].
    2: { eexists _, _, _. split;
           [by apply (ccl_wrapper_get_info_fetch_failed s wrapper1 wrapper2 n
                        f use_cache err w obj2)|].
         split_and!; [done | | ].
         - intros _. split; [by apply g_set_error_set | done].
         - intros He. split; [by intros _; apply Hset | done]. }
    assert (Hold : ∀ old, old ∈ replaced w n → is_Some (info_mem s !! old)).
    { intros old Hin.
      apply (replaced_entry s wrapper1 n w old Hw) in Hin as [_ Hin].
      by apply (proj1 Hsep wrapper1 n old). }
    destruct (fetched_separate s wrapper1 n w f obj2 Hinv Hsep Hw)
      as (_ & Hentry & Hlive & _).
    eexists _, _, _. split;
      [by apply (ccl_wrapper_get_info_fetched s wrapper1 wrapper2 n
                   f use_cache err w obj2)|].
    split_and!.
    + intros _. split_and!; [done | exact Hentry | by rewrite Hlive].
    + done.
    + intros ->. split; [done|]. intros He. by destruct He.
  - apply orb_false_iff in Hq as [Huc Hc].
    apply negb_false_iff in Huc, Hc.
    unfold info_cached in Hc.
    destruct (info w) as [t|] eqn:Ht; [|done].
    apply bool_decide_eq_true in Hc as [i Hi].
    assert (He : cache_entry s wrapper1 n i) by (by exists w, t).
    destruct (proj1 Hsep wrapper1 n i He) as [Hi0 Hlive].
    exists i, err, s. split.
    { rewrite (ccl_wrapper_get_info_hit s wrapper1 wrapper2 n f use_cache
                 err w); try done.
      - by rewrite Ht; simpl; rewrite Hi.
      - unfold info_cached. rewrite Ht. apply bool_decide_eq_true. eauto. }
    split_and!; [done | done |].
    intros ->. split; [done|]. intros He'. by destruct He'.
Qed.

End FailedQueries.

(** * Guards, and what every live wrapper looks like *)

Section Guards.

Context {World : Type}.

Abbreviation state := (state World).
Abbreviation M := (M World).

Implicit Types s : state.

(** X14.  The guards. Called with a [NULL] wrapper (or a [NULL] object, or a
    [NULL] information object) every function returns its default and
    changes nothing. Given an error location that already holds an error,
    [ccl_wrapper_unref] gives no reference back and destroys nothing, and
    the three query functions make no query. Both hold in any state and
    whatever the other arguments, dangling pointers included: a guard fires
    before anything is read. *)
Theorem ccl_wrapper_guards s sz rf rc err g n i p wrapper2
    (f : ccl_wrapper_info_fp World) use_cache :
  (ccl_wrapper_new NULL sz s = Some (NULL, s) ∧
   ccl_wrapper_ref NULL s = Some (tt, s) ∧
   ccl_wrapper_unref NULL sz rf rc err s = Some ((CL_FALSE, err), s) ∧
   ccl_wrapper_ref_count NULL s = Some (-1, s) ∧
   ccl_wrapper_unwrap NULL s = Some (NULL, s) ∧
   ccl_wrapper_add_info NULL n i s = Some (tt, s) ∧
   ccl_wrapper_add_info p n NULL s = Some (tt, s) ∧
   ccl_wrapper_get_info NULL wrapper2 n f use_cache err s
   = Some ((NULL, err), s) ∧
   ccl_wrapper_get_info_value NULL wrapper2 n f use_cache err s
   = Some ((NULL, err), s) ∧
   ccl_wrapper_get_info_size NULL wrapper2 n f use_cache err s
   = Some ((0, err), s) ∧
   ccl_wrapper_info_destroy NULL s = Some (tt, s)) ∧
  (let pending := Some (Some g) in
   ccl_wrapper_unref p sz rf rc pending s = Some ((CL_FALSE, pending), s) ∧
   ccl_wrapper_get_info p wrapper2 n f use_cache pending s
   = Some ((NULL, pending), s) ∧
   ccl_wrapper_get_info_value p wrapper2 n f use_cache pending s
   = Some ((NULL, pending), s) ∧
   ccl_wrapper_get_info_size p wrapper2 n f use_cache pending s
   = Some ((0, pending), s)).
Proof.
  split; split_and!; try done.
  - unfold ccl_wrapper_add_info. by destruct (decide (p = NULL)).
  - unfold ccl_wrapper_get_info. by destruct (negb (err_unset err)).
  - unfold ccl_wrapper_get_info_value. by destruct (negb (err_unset err)).
  - unfold ccl_wrapper_get_info_size. by destruct (negb (err_unset err)).
  - unfold ccl_wrapper_unref. by destruct (decide (p = NULL)).
Qed.

(** X15.  In every state a process reaches, whatever calls it makes, a live
    wrapper wraps an object that is not [NULL], its count is a [gint], and
    [ccl_wrapper_get_info] on a name its cache holds returns an object that
    is not [NULL], with no error and no query. *)
Theorem ccl_wrapper_live_wellformed s p w :
  reachable s → wrapper_mem s !! p = Some w →
  p ≠ NULL ∧
  (∃ obj, ccl_wrapper_unwrap p s = Some (obj, s) ∧ obj ≠ NULL) ∧
  (∃ c, ccl_wrapper_ref_count p s = Some (c, s) ∧ gint_range c) ∧
  (∀ n wrapper2 (f : ccl_wrapper_info_fp World) err,
     info_cached w n = true → err_unset err = true →
     ∃ i, i ≠ NULL ∧
          ccl_wrapper_get_info p wrapper2 n f CL_TRUE err s
          = Some ((i, err), s)).
Proof.
  intros Hr Hw. pose proof (reachable_inv s Hr) as Hinv.
  pose proof (inv_live_not_null s p w Hinv Hw) as Hp.
  destruct (reachable_wellformed s Hr p w Hw) as (Ho & Hc & Hn).
  split_and!; [done | | |].
  - exists (cl_object w). split; [by apply ccl_wrapper_unwrap_run | done].
  - exists (ref_count w). split; [by apply ccl_wrapper_ref_count_run | done].
  - intros n wrapper2 f err Hcached Herr.
    unfold info_cached in Hcached.
    destruct (info w) as [t|] eqn:Ht; [|done].
    apply bool_decide_eq_true in Hcached as [i Hi].
    exists i. split.
    + intros ->. by apply (Hn t n).
    + rewrite (ccl_wrapper_get_info_hit s p wrapper2 n f CL_TRUE err w);
        try done.
      * by rewrite Ht; simpl; rewrite Hi.
      * unfold info_cached. rewrite Ht. apply bool_decide_eq_true. eauto.
Qed.

(** X16.  No call of the interface changes the object of a wrapper that
    stays live, and none takes a name out of its cache: a name once cached
    stays cached until the wrapper is destroyed. *)
Theorem ccl_wrapper_cache_grows s c s' p w w' :
  reachable s → exec c s = Some (tt, s') →
  wrapper_mem s !! p = Some w → wrapper_mem s' !! p = Some w' →
  cl_object w' = cl_object w ∧
  (∀ n, info_cached w n = true → info_cached w' n = true) ∧
  (info w ≠ None → info w' ≠ None).
Proof.
  intros Hr Hrun Hw Hw'.
  pose proof (exec_wrappers_step c s s' (reachable_inv s Hr) Hrun p w' Hw')
    as Hstep.
  rewrite Hw in Hstep.
  inversion Hstep as [w0 | w0 k | w0 n i Hi |]; subst.
  - done.
  - done.
  - split_and!; [done | | done].
    intros m Hm. unfold info_cached in *. simpl.
    apply bool_decide_eq_true.
    destruct (decide (n = m)) as [->|Hne].
    + rewrite lookup_insert_eq. eauto.
    + rewrite lookup_insert_ne by done.
      destruct (info w) as [t|]; [|done]. simpl.
      by apply bool_decide_eq_true in Hm.
Qed.

(** X17.  After [k] calls of [ccl_wrapper_ref] on a live wrapper,
    [ccl_wrapper_ref_count] returns its count plus [k], wrapped around as a
    [gint]; the object is the same. *)
Theorem ccl_wrapper_ref_count_after_refs s p w k :
  reachable s → wrapper_mem s !! p = Some w →
  ∃ s',
    run_rc p (replicate k Rc_ref) s = Some ([], s') ∧
    ccl_wrapper_ref_count p s'
    = Some (gint_wrap (ref_count w + Z.of_nat k), s') ∧
    ccl_wrapper_unwrap p s' = Some (cl_object w, s').
Proof.
  intros Hr Hw. pose proof (reachable_inv s Hr) as Hinv.
  pose proof (inv_live_not_null s p w Hinv Hw) as Hp.
  destruct (reachable_wellformed s Hr p w Hw) as (_ & Hc & _).
  pose proof (run_rc_refs p k [] s w Hp Hw Hc) as Hrun.
  rewrite app_nil_r in Hrun.
  set (c := gint_wrap (ref_count w + Z.of_nat k)) in *.
  assert (Hlive : wrapper_mem (with_count p w c s) !! p
                  = Some (with_ref_count c w))
    by (simpl; apply lookup_insert_eq).
  exists (with_count p w c s). split_and!.
  - by rewrite Hrun.
  - by rewrite (ccl_wrapper_ref_count_run _ p (with_ref_count c w)).
  - by rewrite (ccl_wrapper_unwrap_run _ p (with_ref_count c w)).
Qed.

End Guards.

(** * Calls on live wrappers are defined *)

Section Safety.

Context {World : Type}.

Abbreviation state := (state World).
Abbreviation M := (M World).

Implicit Types s : state.





End Safety.

(** * The only leak *)

Section Leaks.

Context {World : Type}.

Abbreviation state := (state World).
Abbreviation M := (M World).

Implicit Types s : state.

Lemma cache_entry_infos s p w n i :
  wrapper_mem s !! p = Some w → cache_entry s p n i → i ≠ NULL →
  i ∈ cache_infos (info w).
Proof.
  intros Hw (w0 & t & Hw0 & Ht & Hn) Hi.
  assert (w0 = w) as -> by congruence.
  unfold cache_infos. rewrite Ht. unfold cached_infos.
  apply list_elem_of_filter. split; [done|].
  apply (list_elem_of_fmap_2 snd (map_to_list t) (n, i)).
  by apply elem_of_map_to_list.
Qed.

(** Entries and objects that stay keep the store free of leaks. *)
Lemma leak_free_same s s' :
  leak_free s → info_mem s' = info_mem s →
  (∀ p n i, cache_entry s p n i → cache_entry s' p n i) →
  leak_free s'.
Proof.
  intros Hfree Hmem Hkeep i b Hi. rewrite Hmem in Hi.
  destruct (Hfree i b Hi) as (p & n & He). exists p, n. by apply Hkeep.
Qed.

Lemma leak_free_store s p w w' :
  wrapper_mem s !! p = Some w → info w' = info w → leak_free s →
  leak_free (set_wrapper_mem (<[p := w']> (wrapper_mem s)) s).
Proof.
  intros Hw Hi Hfree. apply (leak_free_same s); [done | done |].
  intros q n i He. by apply (cache_entry_store s p w w').
Qed.

Lemma new_leak_free s obj sz p s' :
  inv s → leak_free s → ccl_wrapper_new obj sz s = Some (p, s') →
  leak_free s'.
Proof.
  intros Hinv Hfree Hrun.
  destruct (decide (obj = NULL)) as [->|Hobj].
  { rewrite ccl_wrapper_new_null in Hrun. by injection Hrun as _ <-. }
  destruct (ccl_wrapper_new_run s obj sz Hinv Hobj)
    as (p0 & s0 & w' & Hrun0 & _ & _ & _ & _ & Hcase).
  rewrite Hrun in Hrun0. injection Hrun0 as <- <-.
  destruct (wrappers_entry s obj) as [q|].
  - destruct Hcase as (_ & w & Hw & -> & ->). by apply (leak_free_store s p w).
  - destruct Hcase as (-> & _ & ->). apply (leak_free_same s); [done | done |].
    intros q n i (w0 & t & Hw0 & Ht & Hn). exists w0, t.
    split_and!; [|done..]. simpl. rewrite lookup_insert_ne; [done|].
    intros <-. pose proof (inv_wrapper_addr s Hinv _ _ Hw0). lia.
Qed.

Lemma ref_leak_free s p s' :
  leak_free s → ccl_wrapper_ref p s = Some (tt, s') → leak_free s'.
Proof.
  intros Hfree Hrun.
  destruct (decide (p = NULL)) as [->|Hp].
  { by injection Hrun as <-. }
  destruct (wrapper_mem s !! p) as [w|] eqn:Hw.
  - rewrite (ccl_wrapper_ref_run s p w) in Hrun by done.
    injection Hrun as <-. by apply (leak_free_store s p w).
  - unfold ccl_wrapper_ref in Hrun. rewrite decide_False in Hrun by done.
    unfold mbind, M_bind, bind, load_wrapper in Hrun.
    cbv beta in Hrun. by rewrite Hw in Hrun.
Qed.

Lemma unref_leak_free s p sz rf rc err r s' :
  caches_separate s → leak_free s →
  ccl_wrapper_unref p sz rf rc err s = Some (r, s') → leak_free s'.
Proof.
  intros Hsep Hfree Hrun.
  destruct (decide (p = NULL)) as [->|Hp].
  { by injection Hrun as _ <-. }
  destruct (err_unset err) eqn:Herr.
  2: { unfold ccl_wrapper_unref in Hrun.
       rewrite decide_False, Herr in Hrun by done. cbn [negb] in Hrun.
       by injection Hrun as _ <-. }
  destruct (wrapper_mem s !! p) as [w|] eqn:Hw.
  2: { unfold ccl_wrapper_unref in Hrun.
       rewrite decide_False, Herr in Hrun by done. cbn [negb] in Hrun.
       unfold mbind, M_bind, bind, load_wrapper in Hrun.
       cbv beta in Hrun. by rewrite Hw in Hrun. }
  destruct (decide (gint_wrap (ref_count w - 1) = 0)) as [Hz|Hz].
  - rewrite (ccl_wrapper_unref_teardown s p sz rf rc err w) in Hrun;
      [|done..|by eapply caches_separate_destroyable].
    injection Hrun as _ <-.
    destruct (after_teardown_gone s p sz w rf rc) as (_ & _ & Hgone & Hkept).
    intros i b Hi.
    destruct (decide (i ∈ cache_infos (info w))) as [Hin|Hin].
    { rewrite (Hgone i Hin) in Hi. done. }
    rewrite (Hkept i Hin) in Hi.
    destruct (Hfree i b Hi) as (q & n & He).
    exists q, n. destruct He as (w0 & t & Hw0 & Ht & Hn).
    exists w0, t. split_and!; [|done..]. simpl.
    rewrite lookup_delete_ne; [done|]. intros <-.
    apply Hin. apply (cache_entry_infos s p w n i Hw); [by exists w0, t|].
    by apply (proj1 Hsep p n i); exists w0, t.
  - rewrite (ccl_wrapper_unref_keep s p sz rf rc err w) in Hrun by done.
    injection Hrun as _ <-. by apply (leak_free_store s p w).
Qed.

Lemma get_info_leak_free s w1 w2 n (f : ccl_wrapper_info_fp World) uc err
    r s' :
  inv s → caches_separate s → leak_free s →
  ccl_wrapper_get_info w1 w2 n f uc err s = Some (r, s') →
  ¬ fetch_fails s w1 w2 n f uc → leak_free s'.
Proof.
  intros Hinv Hsep Hfree Hrun Hok.
  destruct (get_info_defined s w1 w2 n f uc err r s' Hrun)
    as [->|([w Hw] & Hlive2 & Herr)]; [done|]. simpl in *.
  pose proof (inv_live_not_null s w1 w Hinv Hw) as Hw1.
  destruct (second_of_defined s w2 Hlive2) as [obj2 Hobj2].
  destruct (negb uc || negb (info_cached w n)) eqn:Hq.
  2: { apply orb_false_iff in Hq as [Huc Hc].
       apply negb_false_iff in Huc, Hc.
       rewrite (ccl_wrapper_get_info_hit s w1 w2 n f uc err w) in Hrun
         by done.
       by injection Hrun as _ <-. }
  destruct (decide (qr_status (probe f (cl_object w) obj2 n s).2
                    = CL_SUCCESS)) as [Hst|Hst].
  2: { rewrite (ccl_wrapper_get_info_probe_failed s w1 w2 n f uc err w obj2)
         in Hrun by done.
       injection Hrun as _ <-. apply (leak_free_same s); [done | done |].
       intros p m i He. by apply (cache_entry_same s). }
  destruct (decide (probed_size f (cl_object w) obj2 n s = 0)) as [Hsz|Hsz].
  { rewrite (ccl_wrapper_get_info_size_zero s w1 w2 n f uc err w obj2)
      in Hrun by done.
    injection Hrun as _ <-. apply (leak_free_same s); [done | done |].
    intros p m i He. by apply (cache_entry_same s). }
  destruct (decide (qr_status (fetch f (cl_object w) obj2 n s).2
                    = CL_SUCCESS)) as [Hst2|Hst2].
  2: { destruct Hok. exists w, obj2. by split_and!. }
  assert (Hold : ∀ old, old ∈ replaced w n → is_Some (info_mem s !! old)).
  { intros old Hin.
    apply (replaced_entry s w1 n w old Hw) in Hin as [_ Hin].
    by apply (proj1 Hsep w1 n old). }
  assert (Hbrk : brk s ≠ NULL).
  { pose proof (inv_brk s Hinv). unfold NULL. lia. }
  rewrite (ccl_wrapper_get_info_fetched s w1 w2 n f uc err w obj2) in Hrun
    by done.
  injection Hrun as _ <-.
  destruct (fetched_separate s w1 n w f obj2 Hinv Hsep Hw)
    as (_ & Hentry & _ & Hkeep).
  intros i b Hi. simpl in Hi. rewrite free_infos_lookup in Hi.
  destruct (decide (i ∈ replaced w n)) as [Hin|Hin]; [done|].
  destruct (decide (brk s = i)) as [<-|Hne].
  { by exists w1, n. }
  rewrite lookup_insert_ne in Hi by done.
  destruct (Hfree i b Hi) as (q & m & He).
  exists q, m. apply Hkeep; [|done].
  intros [-> ->]. apply Hin.
  apply (replaced_entry s w1 n w i Hw). split; [|done].
  by apply (proj1 Hsep w1 n i).
Qed.

(** X19.  A value query that fails is the only way an information object is
    lost. As long as a process leaves the caches to [ccl_wrapper_get_info],
    a call that is not a query whose value is refused keeps every live
    information object in the cache of a live wrapper; and then, when no
    wrapper is left, no information object is left either. *)
Theorem ccl_wrapper_only_leak s c s' :
  reachable_by_queries s → leak_free s → leaves_caches c = true →
  exec c s = Some (tt, s') → ¬ value_query_fails s c →
  leak_free s' ∧
  (ccl_wrapper_memcheck s' = Some (CL_TRUE, s') → info_mem s' = ∅).
Proof.
  intros Hr Hfree Hc Hrun Hok.
  pose proof (reachable_inv s (reachable_by_queries_reachable s Hr)) as Hinv.
  destruct (reachable_by_queries_caches s Hr) as [Hsep _].
  assert (Hfree' : leak_free s').
  { destruct c; simpl in *; try done;
      unfold mbind, M_bind, bind in Hrun.
    - destruct (ccl_wrapper_new obj sz s) as [[p s1]|] eqn:E; [|done].
      injection Hrun as <-. by eapply new_leak_free.
    - by eapply ref_leak_free.
    - destruct (ccl_wrapper_unref wrapper sz rel_fields_fun rel_cl_fun err s)
        as [[r s1]|] eqn:E; [|done].
      injection Hrun as <-. by eapply unref_leak_free.
    - destruct (ccl_wrapper_get_info wrapper1 wrapper2 param_name info_fun
                  use_cache err s) as [[r s1]|] eqn:E; [|done].
      injection Hrun as <-. by eapply get_info_leak_free.
    - destruct (ccl_wrapper_get_info_value wrapper1 wrapper2 param_name
                  info_fun use_cache err s) as [[r s1]|] eqn:E; [|done].
      injection Hrun as <-.
      destruct (get_info_value_state _ _ _ _ _ _ _ _ _ E) as [->|[r0 E0]];
        [done|]. by eapply get_info_leak_free.
    - destruct (ccl_wrapper_get_info_size wrapper1 wrapper2 param_name
                  info_fun use_cache err s) as [[r s1]|] eqn:E; [|done].
      injection Hrun as <-.
      destruct (get_info_size_state _ _ _ _ _ _ _ _ _ E) as [->|[r0 E0]];
        [done|]. by eapply get_info_leak_free. }
  split; [done|].
  intros Hcheck. unfold ccl_wrapper_memcheck in Hcheck.
  injection Hcheck as Hcheck. apply bool_decide_eq_true in Hcheck.
  assert (Hinv' : inv s').
  { apply reachable_inv. eapply reachable_call; [|exact Hrun].
    by apply reachable_by_queries_reachable. }
  apply (inv_no_table s' Hinv') in Hcheck.
  apply map_eq. intros i. rewrite lookup_empty.
  destruct (info_mem s' !! i) as [b|] eqn:Hi; [|done].
  destruct (Hfree' i b Hi) as (p & n & w & t & Hw & _).
  rewrite Hcheck in Hw. by rewrite lookup_empty in Hw.
Qed.

End Leaks.

(** * When a teardown is defined *)

Section Defined.

Context {World : Type}.

Abbreviation state := (state World).
Abbreviation M := (M World).

Implicit Types s : state.

Lemma wlp_const {A} (m : M A) (P : Prop) s : P → wlp m (λ _ _, P) s.
Proof. intros HP. unfold wlp. by destruct (m s) as [[a s']|]. Qed.

(** [g_hash_table_destroy] on a cache is defined only if the objects it
    holds are live and no object is held twice. *)
Lemma destroy_values_defined vs : ∀ s s',
  destroy_values vs s = Some (tt, s') →
  destroyable (info_mem s) (filter (λ v, v ≠ NULL) vs).
Proof.
  induction vs as [|v vs IH]; intros s s' Hrun.
  - split; [apply NoDup_nil_2 | by intros v Hv; apply elem_of_nil in Hv].
  - simpl in Hrun. unfold mbind, M_bind, bind in Hrun.
    destruct (decide (v = NULL)) as [->|Hv].
    + unfold ccl_wrapper_info_destroy in Hrun.
      rewrite decide_True in Hrun by done. simpl in Hrun.
      rewrite filter_cons_False by (intros H; by apply H).
      by apply (IH s s').
    + destruct (info_mem s !! v) as [b|] eqn:Hb.
      2: { unfold ccl_wrapper_info_destroy in Hrun.
           rewrite decide_False in Hrun by done.
           unfold mbind, M_bind, bind, load_info in Hrun.
           cbv beta in Hrun. by rewrite Hb in Hrun. }
      rewrite (ccl_wrapper_info_destroy_run s v b) in Hrun by done.
      destruct (IH _ _ Hrun) as [Hnd Hlive]. simpl in Hlive.
      rewrite filter_cons_True by done. split.
      * apply NoDup_cons. split; [|done].
        intros Hin. destruct (Hlive v Hin) as [b' Hb'].
        by rewrite lookup_delete_eq in Hb'.
      * intros u Hu. apply elem_of_cons in Hu as [->|Hu]; [by eexists|].
        destruct (Hlive u Hu) as [b' Hb'].
        apply lookup_delete_Some in Hb' as [_ Hb']. by eexists.
Qed.

Lemma unref_destroyable s p w sz rf rc err :
  p ≠ NULL → wrapper_mem s !! p = Some w →
  gint_wrap (ref_count w - 1) = 0 →
  err_unset err = true →
  wlp (ccl_wrapper_unref p sz rf rc err) (λ _ _, cache_destroyable s w) s.
Proof.
  intros Hp Hw Hc Herr. unfold ccl_wrapper_unref.
  rewrite decide_False by done. rewrite Herr. cbn [negb].
  apply wlp_bind, wlp_load_wrapper. intros w0 Hw0.
  assert (w0 = w) as -> by congruence.
  unfold g_atomic_int_dec_and_test. rewrite Hc. cbn [Z.eqb].
  apply wlp_bind, wlp_store_wrapper. intros _ _.
  set (s0 := set_wrapper_mem _ s).
  apply wlp_bind.
  eapply wlp_mono.
  { instantiate (1 := λ _ s1, info_mem s1 = info_mem s).
    destruct rc as [f|]; [|by apply wlp_ret].
    apply wlp_bind, wp_wlp, wp_call_release_cl.
    by destruct (decide (_ ≠ CL_SUCCESS)); apply wlp_ret. }
  intros e s1 H1. cbv beta.
  destruct (info w) as [t|] eqn:Ht.
  2: { apply wlp_const. intros t Ht'. congruence. }
  apply wlp_bind. unfold wlp at 1.
  destruct (info_table_destroy p t s1) as [[[] s2]|] eqn:E; [|done].
  apply wlp_const. intros t' Ht'. assert (t' = t) as -> by congruence.
  unfold info_table_destroy, mbind, M_bind, bind in E.
  destruct (destroy_values (map snd (map_to_list t)) s1) as [[[] s3]|] eqn:E2;
    [|done].
  rewrite <- H1. by apply (destroy_values_defined _ s1 s3).
Qed.

(** X20.  The [ccl_wrapper_unref] that takes the last reference of a live
    wrapper is defined exactly when the objects in the cache of the wrapper
    are live and each is cached once; otherwise the teardown of the cache
    reads or frees an object that is gone. *)
Theorem ccl_wrapper_unref_defined_iff s p w sz rf rc err :
  p ≠ NULL → wrapper_mem s !! p = Some w → ref_count w = 1 →
  err_unset err = true →
  is_Some (ccl_wrapper_unref p sz rf rc err s) ↔ cache_destroyable s w.
Proof.
  intros Hp Hw Hc Herr. split.
  - intros [[r s'] Hrun].
    assert (Hz : gint_wrap (ref_count w - 1) = 0) by (by rewrite Hc).
    by apply (proj1 (wlp_run _ _ _)
                (unref_destroyable s p w sz rf rc err Hp Hw Hz Herr) r s').
  - intros Hd. eexists.
    apply (ccl_wrapper_unref_teardown s p sz rf rc err w); try done.
    by rewrite Hc.
Qed.

End Defined.

(** * A cached parameter stays cached *)

Section Kept.

Context {World : Type}.

Abbreviation state := (state World).
Abbreviation M := (M World).

Implicit Types s : state.

Lemma queries_of_other obj n tr o1 o2 m sz v want :
  ¬ (o1 = obj ∧ m = n) →
  queries_of obj n (tr ++ [EvInfoFun o1 o2 m sz v want]) = queries_of obj n tr.
Proof.
  intros Hne. rewrite queries_of_app. unfold queries_of at 2.
  rewrite filter_cons_False.
  - by rewrite app_nil_r.
  - simpl. by rewrite bool_decide_eq_false_2.
Qed.

Lemma queries_of_teardown obj n p sz w rf rc s :
  queries_of obj n (teardown_events p sz w rf rc s) = [].
Proof.
  unfold teardown_events. rewrite !queries_of_app.
  assert (H1 : queries_of obj n
                 (release_cl_events rc (cl_object w) (world s)) = [])
    by (by destruct rc).
  assert (H2 : queries_of obj n (cache_events p (info w)) = []).
  { destruct (info w); [|done]. simpl.
    by rewrite queries_of_app, queries_of_destroys. }
  assert (H3 : queries_of obj n (table_events (cl_object w) (wrappers s)) = []).
  { unfold table_events. by destruct (wrappers_without _ _). }
  assert (H4 : queries_of obj n (release_fields_events rf p) = [])
    by (by destruct rf).
  by rewrite H1, H2, H3, H4.
Qed.

(** ** What a defined call has done, continued *)

Lemma ccl_wrapper_ref_cases s p s' :
  ccl_wrapper_ref p s = Some (tt, s') →
  s' = s ∨
  ∃ w, wrapper_mem s !! p = Some w ∧
       s' = set_wrapper_mem
              (<[p := with_ref_count (g_atomic_int_inc (ref_count w)) w]>
                 (wrapper_mem s)) s.
Proof.
  intros Hrun. destruct (decide (p = NULL)) as [->|Hp].
  { left. by injection Hrun as <-. }
  destruct (wrapper_mem s !! p) as [w|] eqn:Hw.
  - right. exists w. split; [done|].
    rewrite (ccl_wrapper_ref_run s p w) in Hrun by done.
    by injection Hrun as <-.
  - unfold ccl_wrapper_ref in Hrun. rewrite decide_False in Hrun by done.
    rewrite bind_undefined in Hrun; [done|].
    unfold load_wrapper. by rewrite Hw.
Qed.

Lemma ccl_wrapper_unref_cases s p sz rf rc err r s' :
  ccl_wrapper_unref p sz rf rc err s = Some (r, s') →
  s' = s ∨
  ∃ w, p ≠ NULL ∧ wrapper_mem s !! p = Some w ∧
    ((gint_wrap (ref_count w - 1) ≠ 0 ∧
      s' = set_wrapper_mem
             (<[p := with_ref_count (gint_wrap (ref_count w - 1)) w]>
                (wrapper_mem s)) s) ∨
     (gint_wrap (ref_count w - 1) = 0 ∧
      s' = after_teardown p sz w rf rc s)).
Proof.
  intros Hrun. destruct (decide (p = NULL)) as [->|Hp].
  { left. by injection Hrun as _ <-. }
  destruct (err_unset err) eqn:Herr.
  2: { left. unfold ccl_wrapper_unref in Hrun.
       rewrite decide_False in Hrun by done. rewrite Herr in Hrun.
       by injection Hrun as _ <-. }
  destruct (wrapper_mem s !! p) as [w|] eqn:Hw.
  2: { unfold ccl_wrapper_unref in Hrun.
       rewrite decide_False in Hrun by done. rewrite Herr in Hrun.
       cbn [negb] in Hrun. rewrite bind_undefined in Hrun; [done|].
       unfold load_wrapper. by rewrite Hw. }
  right. exists w. split_and!; try done.
  destruct (decide (gint_wrap (ref_count w - 1) = 0)) as [Hz|Hz].
  - right. split; [done|].
    assert (Hd : cache_destroyable s w).
    { by apply (proj1 (wlp_run _ _ _)
                  (unref_destroyable s p w sz rf rc err Hp Hw Hz Herr) r s'). }
    rewrite (ccl_wrapper_unref_teardown s p sz rf rc err w) in Hrun by done.
    by injection Hrun as _ <-.
  - left. split; [done|].
    rewrite (ccl_wrapper_unref_keep s p sz rf rc err w) in Hrun by done.
    by injection Hrun as _ <-.
Qed.

Lemma ccl_wrapper_info_new_cases s sz i s' :
  ccl_wrapper_info_new sz s = Some (i, s') →
  i = brk s ∧ wrapper_mem s' = wrapper_mem s ∧ trace s' = trace s ∧
  ∃ b, info_mem s' = <[brk s := b]> (info_mem s).
Proof.
  unfold ccl_wrapper_info_new, mbind, M_bind, bind, g_slice_alloc, modify,
    mret, M_ret, ret.
  destruct (0 <? sz); simpl; intros Hrun; injection Hrun as <- <-;
    (split_and!; [done..|by eexists]).
Qed.

(** ** The calls that keep the entry *)

Lemma entry_kept_to p obj n i b qs s s' :
  entry_kept p obj n i b qs s →
  (∀ w, wrapper_mem s !! p = Some w →
        ∃ w', wrapper_mem s' !! p = Some w' ∧ cl_object w' = cl_object w) →
  cache_entry s' p n i →
  info_mem s' !! i = info_mem s !! i →
  (∀ p' n', cache_entry s' p' n' i → cache_entry s p' n' i) →
  queries_of obj n (trace s') = queries_of obj n (trace s) →
  entry_kept p obj n i b qs s'.
Proof.
  intros [(w & Hw & Ho) He Hb Ha Hq] H1 H2 H3 H4 H5. split.
  - destruct (H1 w Hw) as (w' & Hw' & Ho').
    exists w'. split; [done | congruence].
  - done.
  - by rewrite H3.
  - intros p' n' He'. by apply Ha, H4.
  - by rewrite H5.
Qed.

Lemma entry_kept_same p obj n i b qs s s' :
  entry_kept p obj n i b qs s →
  wrapper_mem s' = wrapper_mem s →
  info_mem s' !! i = info_mem s !! i →
  queries_of obj n (trace s') = queries_of obj n (trace s) →
  entry_kept p obj n i b qs s'.
Proof.
  intros Hk Hw Hi Hq. apply (entry_kept_to _ _ _ _ _ _ s); [done|..].
  - intros w0 Hw0. exists w0. by rewrite Hw.
  - apply (cache_entry_same s s'); [done | apply Hk].
  - done.
  - intros p' n' He. by apply (cache_entry_same s s') in He.
  - done.
Qed.

Lemma entry_kept_store p obj n i b qs s q w w' :
  entry_kept p obj n i b qs s →
  wrapper_mem s !! q = Some w →
  info w' = info w → cl_object w' = cl_object w →
  entry_kept p obj n i b qs (set_wrapper_mem (<[q := w']> (wrapper_mem s)) s).
Proof.
  intros Hk Hw Hi Ho. apply (entry_kept_to _ _ _ _ _ _ s); [done|..].
  - intros w0 Hw0. simpl. destruct (decide (q = p)) as [->|Hne].
    + rewrite lookup_insert_eq. exists w'. split; [done | congruence].
    + rewrite lookup_insert_ne by done. by exists w0.
  - apply (cache_entry_store s q w w'); [done | done | apply Hk].
  - done.
  - intros p' n' He. by apply (cache_entry_store s q w w') in He.
  - done.
Qed.

Lemma entry_kept_new p obj n i b qs s obj' :
  inv s → entry_kept p obj n i b qs s →
  entry_kept p obj n i b qs (with_new_wrapper obj' s).
Proof.
  intros Hinv Hk.
  assert (Hfree : ∀ q w, wrapper_mem s !! q = Some w → brk s ≠ q).
  { intros q w Hw. pose proof (inv_wrapper_addr s Hinv q w Hw). lia. }
  apply (entry_kept_to _ _ _ _ _ _ s); [done|..].
  - intros w0 Hw0. simpl. rewrite lookup_insert_ne by by eapply Hfree.
    by exists w0.
  - destruct (kept_entry _ _ _ _ _ _ _ Hk) as (w0 & t & Hw0 & Ht & Hi).
    exists w0, t. simpl. rewrite lookup_insert_ne by by eapply Hfree. done.
  - done.
  - intros p' n' (w0 & t & Hw0 & Ht & Hi). simpl in Hw0.
    destruct (decide (brk s = p')) as [<-|Hne].
    + rewrite lookup_insert_eq in Hw0. by injection Hw0 as <-.
    + rewrite lookup_insert_ne in Hw0 by done. by exists w0, t.
  - done.
Qed.

Lemma entry_kept_teardown p obj n i b qs s q sz w rf rc :
  entry_kept p obj n i b qs s → wrapper_mem s !! q = Some w → q ≠ p →
  entry_kept p obj n i b qs (after_teardown q sz w rf rc s).
Proof.
  intros Hk Hw Hne. apply (entry_kept_to _ _ _ _ _ _ s); [done|..].
  - intros w0 Hw0. simpl. rewrite lookup_delete_ne by done. by exists w0.
  - destruct (kept_entry _ _ _ _ _ _ _ Hk) as (w0 & t & Hw0 & Ht & Hi).
    exists w0, t. simpl. by rewrite lookup_delete_ne by done.
  - simpl. rewrite free_infos_lookup.
    destruct (decide (i ∈ cache_infos (info w))) as [Hin|]; [|done].
    destruct (cache_infos_entry s q w i Hw Hin) as [n' He].
    by destruct (kept_alone _ _ _ _ _ _ _ Hk q n' He) as [-> _].
  - intros p' n' (w0 & t & Hw0 & Ht & Hi). simpl in Hw0.
    apply lookup_delete_Some in Hw0 as [_ Hw0]. by exists w0, t.
  - simpl. by rewrite queries_of_app, queries_of_teardown, app_nil_r.
Qed.

Lemma entry_kept_add_info p obj n i b qs s q m j w :
  entry_kept p obj n i b qs s → wrapper_mem s !! q = Some w →
  ¬ (q = p ∧ m = n) → j ≠ i →
  entry_kept p obj n i b qs (after_add_info q m j w s).
Proof.
  intros Hk Hw Hne Hj. apply (entry_kept_to _ _ _ _ _ _ s); [done|..].
  - intros w0 Hw0. simpl. destruct (decide (q = p)) as [->|Hpq].
    + rewrite lookup_insert_eq. eexists. split; [done|]. simpl. congruence.
    + rewrite lookup_insert_ne by done. by exists w0.
  - apply (cache_entry_after_add_info s q m j w); [done|]. right.
    split; [|apply Hk]. intros [-> ->]. by apply Hne.
  - simpl. rewrite free_infos_lookup.
    destruct (decide (i ∈ replaced w m)) as [Hin|]; [|done].
    apply (replaced_entry s q m w i Hw) in Hin as [_ He].
    destruct (kept_alone _ _ _ _ _ _ _ Hk q m He). exfalso. by apply Hne.
  - intros p' n' He.
    apply (cache_entry_after_add_info s q m j w p' n' i Hw) in He
      as [(_ & _ & Heq)|[_ He]]; [|done].
    exfalso. by apply Hj.
  - simpl. by rewrite queries_of_app, queries_of_destroys, app_nil_r.
Qed.

Lemma new_entry_kept p obj n i b qs s obj' sz q s' :
  inv s → entry_kept p obj n i b qs s →
  ccl_wrapper_new obj' sz s = Some (q, s') →
  entry_kept p obj n i b qs s'.
Proof.
  intros Hinv Hk Hrun. destruct (decide (obj' = NULL)) as [->|Ho].
  { rewrite ccl_wrapper_new_null in Hrun. by injection Hrun as _ <-. }
  destruct (ccl_wrapper_new_run s obj' sz Hinv Ho)
    as (q0 & s0 & w' & Hrun0 & _ & _ & _ & _ & Hcase).
  rewrite Hrun in Hrun0. injection Hrun0 as <- <-.
  destruct (wrappers_entry s obj') as [q1|].
  - destruct Hcase as (-> & w & Hw & -> & ->).
    by apply (entry_kept_store _ _ _ _ _ _ s q w).
  - destruct Hcase as (-> & -> & ->). by apply entry_kept_new.
Qed.

Lemma get_info_entry_kept p obj n i b qs s q w2 m
    (f : ccl_wrapper_info_fp World) uc err r s' :
  inv s → entry_kept p obj n i b qs s →
  ¬ (q = p ∧ m = n ∧ uc = CL_FALSE) →
  ccl_wrapper_get_info q w2 m f uc err s = Some (r, s') →
  entry_kept p obj n i b qs s'.
Proof.
  intros Hinv Hk Hnd Hrun. destruct r as [i0 e0].
  assert (Hbrk : brk s ≠ NULL).
  { pose proof (inv_brk s Hinv). unfold NULL. lia. }
  destruct (ccl_wrapper_get_info_cases s q w2 m f uc err i0 e0 s' Hbrk Hrun)
    as [(-> & _)|(w & obj2 & Hw & Hobj2 & Hq & Herr & Hquery & Hcase)];
    [done|].
  destruct (kept_object _ _ _ _ _ _ _ Hk) as (wp & Hwp & Hobj).
  assert (Hother : ¬ (cl_object w = obj ∧ m = n)).
  { intros [Ho ->].
    assert (q = p) as ->.
    { apply (inv_one_wrapper s q p w wp); try done. congruence. }
    assert (w = wp) as -> by congruence.
    destruct (cache_entry_cached s p n i wp Hwp
                (kept_entry _ _ _ _ _ _ _ Hk)) as [Hc _].
    rewrite Hc in Hquery. destruct uc; [done|]. by apply Hnd. }
  assert (Hi : brk s ≠ i).
  { pose proof (inv_info_addr s Hinv i b (kept_live _ _ _ _ _ _ _ Hk)). lia. }
  assert (Hprobe : entry_kept p obj n i b qs
                     (after_probe f (cl_object w) obj2 m s)).
  { apply (entry_kept_same _ _ _ _ _ _ s); [done | done | done |].
    simpl. by apply queries_of_other. }
  assert (Hfetch : entry_kept p obj n i b qs
                     (after_fetch f (cl_object w) obj2 m s)).
  { apply (entry_kept_same _ _ _ _ _ _ s); [done | done | |].
    - simpl. by rewrite lookup_insert_ne.
    - simpl. rewrite queries_of_app. unfold queries_of at 2.
      rewrite !filter_cons_False.
      + by rewrite app_nil_r.
      + simpl. by rewrite bool_decide_eq_false_2.
      + simpl. by rewrite bool_decide_eq_false_2. }
  destruct Hcase as [[-> [->| ->]]|(-> & -> & _ & _ & ->)]; [done | done |].
  apply entry_kept_add_info; [done | done | | done].
  intros [-> ->]. apply Hother. split; [|done].
  assert (w = wp) by congruence. by subst.
Qed.

(** A call that is defined, does not disturb and leaves the wrapper live
    keeps the entry. *)
Lemma exec_entry_kept p obj n i b qs c s s' :
  inv s → entry_kept p obj n i b qs s → ¬ disturbs p n i c →
  exec c s = Some (tt, s') → is_Some (wrapper_mem s' !! p) →
  entry_kept p obj n i b qs s'.
Proof.
  intros Hinv Hk Hnd Hrun Hlive.
  destruct c as [obj' sz|q|q sz rf rc err|q m j|q w2 m f uc err
                |q w2 m f uc err|q w2 m f uc err|sz|j];
    simpl in Hrun, Hnd.
  - unfold mbind, M_bind, bind in Hrun.
    destruct (ccl_wrapper_new obj' sz s) as [[q s0]|] eqn:E; [|done].
    injection Hrun as <-. by eapply new_entry_kept.
  - destruct (ccl_wrapper_ref_cases _ _ _ Hrun) as [->|(w & Hw & ->)];
      [done|].
    by apply (entry_kept_store _ _ _ _ _ _ s q w).
  - unfold mbind, M_bind, bind in Hrun.
    destruct (ccl_wrapper_unref q sz rf rc err s) as [[r s0]|] eqn:E;
      [|done].
    injection Hrun as <-.
    destruct (ccl_wrapper_unref_cases _ _ _ _ _ _ _ _ E)
      as [->|(w & Hq & Hw & [[_ ->]|[_ ->]])]; [done | |].
    + by apply (entry_kept_store _ _ _ _ _ _ s q w).
    + apply entry_kept_teardown; [done | done |]. intros ->.
      simpl in Hlive. rewrite lookup_delete_eq in Hlive.
      by destruct Hlive.
  - destruct (ccl_wrapper_add_info_cases _ _ _ _ _ Hrun)
      as [[_ ->]|(w & Hq & Hj & Hw & _ & ->)]; [done|].
    apply entry_kept_add_info; [done | done | |].
    + intros [-> ->]. apply Hnd. by left.
    + intros ->. apply Hnd. by right.
  - unfold mbind, M_bind, bind in Hrun.
    destruct (ccl_wrapper_get_info q w2 m f uc err s) as [[r s0]|] eqn:E;
      [|done].
    injection Hrun as <-. by eapply get_info_entry_kept.
  - unfold mbind, M_bind, bind in Hrun.
    destruct (ccl_wrapper_get_info_value q w2 m f uc err s) as [[r s0]|]
      eqn:E; [|done].
    injection Hrun as <-.
    destruct (get_info_value_state _ _ _ _ _ _ _ _ _ E) as [->|[r0 Hr0]];
      [done|].
    by eapply get_info_entry_kept.
  - unfold mbind, M_bind, bind in Hrun.
    destruct (ccl_wrapper_get_info_size q w2 m f uc err s) as [[r s0]|]
      eqn:E; [|done].
    injection Hrun as <-.
    destruct (get_info_size_state _ _ _ _ _ _ _ _ _ E) as [->|[r0 Hr0]];
      [done|].
    by eapply get_info_entry_kept.
  - unfold mbind, M_bind, bind in Hrun.
    destruct (ccl_wrapper_info_new sz s) as [[j s0]|] eqn:E; [|done].
    injection Hrun as <-.
    destruct (ccl_wrapper_info_new_cases _ _ _ _ E)
      as (_ & Hwm & Htr & b' & Him).
    apply (entry_kept_same _ _ _ _ _ _ s); [done | done | |].
    + rewrite Him. rewrite lookup_insert_ne; [done|].
      pose proof (inv_info_addr s Hinv i b (kept_live _ _ _ _ _ _ _ Hk)).
      lia.
    + by rewrite Htr.
  - destruct (ccl_wrapper_info_destroy_cases _ _ _ Hrun)
      as [[_ ->]|(Hj & _ & ->)]; [done|].
    apply (entry_kept_same _ _ _ _ _ _ s); [done | done | |].
    + simpl. by rewrite lookup_delete_ne.
    + simpl. rewrite queries_of_app.
      change [EvInfoDestroy j] with (map EvInfoDestroy [j]).
      by rewrite queries_of_destroys, app_nil_r.
Qed.

Lemma undisturbed_kept p obj n i b qs s s2 :
  undisturbed p n i s s2 → reachable s → entry_kept p obj n i b qs s →
  reachable s2 ∧ entry_kept p obj n i b qs s2.
Proof.
  induction 1 as [s|s c s' s2 Hnd Hrun Hlive _ IH|s σ s2 _ IH];
    intros Hr Hk.
  - done.
  - apply IH; [by eapply reachable_call|].
    eapply exec_entry_kept; try done. by apply reachable_inv.
  - apply IH; [by apply reachable_world|].
    by apply (entry_kept_same _ _ _ _ _ _ s).
Qed.

(** C5, as amended.  Take a reachable state whose caches are separate and
    a call of [ccl_wrapper_get_info] with [use_cache] true that succeeds:
    the parameter is cached, or the query the call makes does not fail.
    The call returns an information object that is live, and the query
    function was called for that parameter of that object either not at
    all or once for the size and once for the value.  Then let the process
    go on in any way that is defined, leaves the wrapper live and does not
    disturb the entry: calls of [ccl_wrapper_new], [ccl_wrapper_ref],
    [ccl_wrapper_unref] but for the one that destroys the wrapper,
    [ccl_wrapper_info_new], queries on any wrapper but for a forced
    refresh ([use_cache] false) of that parameter on that wrapper,
    [ccl_wrapper_add_info] and [ccl_wrapper_info_destroy] but for those
    given that slot of the cache or that object, and changes of the world
    outside.  Every later call with [use_cache] true for the parameter,
    whatever its query function and second wrapper, returns the object the
    first call returned and changes nothing; the object is live with the
    contents it had after the first call; and the query function has not
    been called again for that parameter of that object. *)
Theorem ccl_wrapper_get_info_cache_round_trip s wrapper1 wrapper2 n
    (f : ccl_wrapper_info_fp World) err w obj2 :
  reachable s → caches_separate s →
  err_unset err = true →
  wrapper_mem s !! wrapper1 = Some w →
  second_of s wrapper2 = Some obj2 →
  let obj1 := cl_object w in
  info_cached w n = true ∨ ¬ query_fails f obj1 obj2 n s →
  ∃ i s1,
    ccl_wrapper_get_info wrapper1 wrapper2 n f CL_TRUE err s
    = Some ((i, err), s1) ∧
    i ≠ NULL ∧ is_Some (info_mem s1 !! i) ∧
    (queries_of obj1 n (trace s1) = queries_of obj1 n (trace s) ∨
     queries_of obj1 n (trace s1)
     = queries_of obj1 n (trace s)
       ++ [probe_event obj1 obj2 n;
           fetch_event obj1 obj2 n (probed_size f obj1 obj2 n s) (brk s + 1)]) ∧
    ∀ s2 wrapper2' (f' : ccl_wrapper_info_fp World) err2,
      undisturbed wrapper1 n i s1 s2 → err_unset err2 = true →
      ccl_wrapper_get_info wrapper1 wrapper2' n f' CL_TRUE err2 s2
      = Some ((i, err2), s2) ∧
      info_mem s2 !! i = info_mem s1 !! i ∧
      queries_of obj1 n (trace s2) = queries_of obj1 n (trace s1).
Proof.
  intros Hr Hsep Herr Hlive Hobj2 obj1 Hcase. subst obj1.
  pose proof (reachable_inv s Hr) as Hinv.
  assert (Hw1 : wrapper1 ≠ NULL).
  { pose proof (inv_wrapper_addr s Hinv _ _ Hlive). unfold NULL. lia. }
  (* the first call leaves the parameter cached *)
  assert (∃ i s1 w1,
      ccl_wrapper_get_info wrapper1 wrapper2 n f CL_TRUE err s
      = Some ((i, err), s1) ∧
      frame s s1 ∧ caches_separate s1 ∧
      wrapper_mem s1 !! wrapper1 = Some w1 ∧ cl_object w1 = cl_object w ∧
      cache_entry s1 wrapper1 n i ∧
      (queries_of (cl_object w) n (trace s1)
       = queries_of (cl_object w) n (trace s) ∨
       queries_of (cl_object w) n (trace s1)
       = queries_of (cl_object w) n (trace s)
         ++ [probe_event (cl_object w) obj2 n;
             fetch_event (cl_object w) obj2 n
               (probed_size f (cl_object w) obj2 n s) (brk s + 1)]))
    as (i & s1 & w1 & Hfirst & Hf1 & Hsep1 & Hlive1 & Ho1 & He1 & Htr1).
  { destruct (info_cached w n) eqn:Hc.
    - (* cached: the first call changes nothing *)
      assert (∃ i, cache_entry s wrapper1 n i ∧
                   default ∅ (info w) !! n = Some i) as (i & He & Hi).
      { unfold info_cached in Hc. destruct (info w) as [t|] eqn:Ht; [|done].
        apply bool_decide_eq_true in Hc as [i Hi].
        exists i. split; [by exists w, t | done]. }
      exists i, s, w. split.
      { rewrite (ccl_wrapper_get_info_hit s wrapper1 wrapper2 n f CL_TRUE err w)
          by done.
        by rewrite Hi. }
      split_and!; [apply frame_refl | done.. | by left].
    - (* not cached: the query succeeds and its result is cached *)
      destruct Hcase as [?|Hok]; [done|].
      assert (Hquery : negb CL_TRUE || negb (info_cached w n) = true)
        by (by rewrite Hc).
      assert (Hrep : replaced w n = []).
      { unfold replaced. unfold info_cached in Hc.
        destruct (info w) as [t|]; simpl.
        - apply bool_decide_eq_false in Hc.
          destruct (t !! n) eqn:E; [|done]. exfalso. apply Hc. eauto.
        - by rewrite lookup_empty. }
      unfold query_fails in Hok.
      assert (Hst : qr_status (probe f (cl_object w) obj2 n s).2 = CL_SUCCESS).
      { destruct (decide (qr_status (probe f (cl_object w) obj2 n s).2
                          = CL_SUCCESS)); [done | tauto]. }
      assert (Hz : probed_size f (cl_object w) obj2 n s ≠ 0) by tauto.
      assert (Hst2 : qr_status (fetch f (cl_object w) obj2 n s).2
                     = CL_SUCCESS).
      { destruct (decide (qr_status (fetch f (cl_object w) obj2 n s).2
                          = CL_SUCCESS)); [done | tauto]. }
      assert (Hbrk : brk s ≠ NULL).
      { pose proof (inv_brk s Hinv). unfold NULL. lia. }
      assert (Hold : ∀ old, old ∈ replaced w n → is_Some (info_mem s !! old)).
      { rewrite Hrep. set_solver. }
      pose proof (ccl_wrapper_get_info_fetched s wrapper1 wrapper2 n f CL_TRUE
                    err w obj2 Herr Hw1 Hlive Hobj2 Hquery Hst Hz Hst2 Hbrk
                    Hold) as Hrun.
      destruct (fetched_separate s wrapper1 n w f obj2 Hinv Hsep Hlive)
        as (Hsep' & Hentry & _ & _).
      eexists _, _, _. split; [exact Hrun|].
      split_and!.
      + eapply frame_run; [apply framing_get_info | exact Hrun].
      + done.
      + simpl. apply lookup_insert_eq.
      + done.
      + done.
      + right. simpl. rewrite Hrep. simpl. rewrite app_nil_r.
        rewrite queries_of_app. f_equal.
        unfold queries_of, probe_event, fetch_event.
        rewrite !filter_cons_True; [done | |];
          simpl; by rewrite bool_decide_eq_true_2. }
  assert (Hr1 : reachable s1).
  { apply (reachable_call s (Call_get_info wrapper1 wrapper2 n f CL_TRUE err));
      [done|].
    simpl. unfold mbind, M_bind, bind. by rewrite Hfirst. }
  destruct (proj1 Hsep1 wrapper1 n i He1) as [Hi [b Hb]].
  assert (Hk1 : entry_kept wrapper1 (cl_object w) n i b
                  (queries_of (cl_object w) n (trace s1)) s1).
  { split; [by exists w1 | done | done | | done].
    intros p' n' He'. by apply (proj2 Hsep1 p' n' wrapper1 n i). }
  exists i, s1. split_and!; [done | done | by exists b | done |].
  (* what follows keeps it there *)
  intros s2 wrapper2' f' err2 Hund Herr2.
  destruct (undisturbed_kept _ _ _ _ _ _ _ _ Hund Hr1 Hk1)
    as [Hr2 [(w2 & Hlive2 & _) He2 Hb2 _ Hq2]].
  destruct (cache_entry_cached s2 wrapper1 n i w2 Hlive2 He2) as [Hc2 Hl2].
  split_and!.
  - rewrite (ccl_wrapper_get_info_hit s2 wrapper1 wrapper2' n f' CL_TRUE err2
               w2) by done.
    by rewrite Hl2.
  - by rewrite Hb2.
  - done.
Qed.

End Kept.

(** * The small process: instances and counterexamples *)

Lemma reachable_ex_fresh : reachable ex_fresh.
Proof.
  apply (reachable_call (initial_state tt) (Call_new ex_obj ex_size)).
  - apply reachable_init.
  - reflexivity.
Qed.

Lemma ex_fresh_live : wrapper_mem ex_fresh !! 1 = Some ex_wrapper.
Proof. reflexivity. Qed.

Lemma reachable_ex_cached : reachable ex_cached.
Proof.
  apply (reachable_call ex_fresh
           (Call_get_info 1 NULL CL_DEVICE_NAME query_name CL_TRUE (Some None))).
  - apply reachable_ex_fresh.
  - reflexivity.
Qed.

Lemma ex_cached_live : wrapper_mem ex_cached !! 1 = Some ex_cached_wrapper.
Proof. reflexivity. Qed.

Lemma cache_destroyable_ex_fresh (s : state unit) :
  cache_destroyable s ex_wrapper.
Proof. intros t [=]. Qed.

Lemma ex_cached_info :
  brk ex_cached = 4 ∧ trace ex_cached ≠ [] ∧
  info_mem ex_cached !! 2 = Some (mkInfo 3 3 [x47; x50; x55]).
Proof. split_and!; [reflexivity | done | reflexivity]. Qed.

Lemma cache_destroyable_ex_cached :
  cache_destroyable ex_cached ex_cached_wrapper.
Proof.
  intros t [= <-].
  replace (cached_infos {[CL_DEVICE_NAME := 2]}) with [2] by reflexivity.
  split.
  - apply NoDup_singleton.
  - intros v Hv. apply list_elem_of_singleton in Hv as ->.
    exists (mkInfo 3 3 [x47; x50; x55]). reflexivity.
Qed.

Lemma second_of_null (s : state unit) : second_of s NULL = Some None.
Proof. reflexivity. Qed.

(** Instance of C1: a second construction for the object of [ex_fresh]. *)
Lemma ccl_wrapper_new_find_or_create_witness :
  reachable ex_fresh ∧ ex_obj ≠ NULL ∧
  ∃ p s', ccl_wrapper_new ex_obj ex_size ex_fresh = Some (p, s') ∧
          p ≠ NULL ∧ one_wrapper_per_object s'.
Proof.
  split; [exact reachable_ex_fresh|]. split; [done|].
  destruct (ccl_wrapper_new_find_or_create ex_fresh ex_obj ex_size
              reachable_ex_fresh)
    as (p & s' & Hrun & Hp & _ & _ & H1); [done|].
  by exists p, s'.
Defined.

Lemma errs_unset_ex_calls : errs_unset ex_calls.
Proof.
  intros sz rf rc err Hin. unfold ex_calls in Hin.
  rewrite !elem_of_cons, elem_of_nil in Hin.
  destruct Hin as [?|[[= _ _ _ ->]|[[= _ _ _ ->]|[]]]]; done.
Qed.

Lemma calls_on_live_ex_calls : calls_on_live ex_calls.
Proof.
  intros k Hk. simpl in Hk.
  destruct k as [|[|[|k]]]; [by vm_compute..|lia].
Qed.

(** Instance of C2: the wrapper of [ex_fresh], a [ref], two [unref]s. *)
Lemma count_tells_ex_calls : count_tells ex_calls.
Proof. apply count_tells_short. simpl. lia. Qed.

Lemma ccl_wrapper_refcount_conservation_witness :
  (1 ≠ NULL ∧ wrapper_mem ex_fresh !! 1 = Some ex_wrapper ∧
   ref_count ex_wrapper = 1 ∧ cache_destroyable ex_fresh ex_wrapper ∧
   errs_unset ex_calls ∧ count_tells ex_calls ∧
   calls_on_live ex_calls) ∧
  ∃ s', run_rc 1 ex_calls ex_fresh = Some ([CL_FALSE; CL_TRUE], s') ∧
        wrapper_mem s' !! 1 = None.
Proof.
  assert (H1 : (1 : Z) ≠ NULL) by done.
  split.
  { split_and!; [done | reflexivity | reflexivity
                 | apply cache_destroyable_ex_fresh
                 | apply errs_unset_ex_calls | apply count_tells_ex_calls
                 | apply calls_on_live_ex_calls]. }
  destruct (ccl_wrapper_refcount_conservation ex_fresh 1 ex_wrapper ex_calls
              H1 ex_fresh_live eq_refl (cache_destroyable_ex_fresh _)
              errs_unset_ex_calls count_tells_ex_calls
              calls_on_live_ex_calls)
    as [(ds & s' & Hrun & Hiff & Hds & _) _].
  exists s'. rewrite Hds in Hrun by reflexivity. split.
  - exact Hrun.
  - apply Hiff. reflexivity.
Defined.

(** Counterexample to C2 as stated: after [2 ^ 32] calls of [ref] the count
    is 1 again, so a single [unref] destroys the wrapper although the
    [unref]s do not number the [ref]s plus one. *)
Lemma ccl_wrapper_refcount_wraps :
  ∃ s', run_rc 1 ex_wrapping_calls ex_fresh = Some ([CL_TRUE], s') ∧
        wrapper_mem s' !! 1 = None ∧
        unrefs ex_wrapping_calls = 1 ∧
        refs ex_wrapping_calls = 2 ^ 32 ∧
        unrefs ex_wrapping_calls ≠ refs ex_wrapping_calls + 1.
Proof.
  unfold ex_wrapping_calls.
  assert (Hk : Z.of_nat (Z.to_nat (2 ^ 32)) = 2 ^ 32) by (apply Z2Nat.id; lia).
  revert Hk. generalize (Z.to_nat (2 ^ 32)). intros k Hk.
  rewrite unrefs_replicate_ref, refs_replicate_ref, Hk.
  rewrite (run_rc_refs 1 k _ ex_fresh ex_wrapper);
    [| done | reflexivity | by vm_compute].
  rewrite Hk.
  replace (gint_wrap (ref_count ex_wrapper + 2 ^ 32)) with 1 by reflexivity.
  eexists. split_and!.
  - reflexivity.
  - reflexivity.
  - reflexivity.
  - reflexivity.
  - by vm_compute.
Qed.

(** Instance of C3: the last reference of the wrapper of [ex_cached] is
    dropped; both release functions are given. *)
Lemma ccl_wrapper_unref_teardown_order_witness :
  (1 ≠ NULL ∧ err_unset (Some None) = true ∧
   wrapper_mem ex_cached !! 1 = Some ex_cached_wrapper ∧
   (g_atomic_int_dec_and_test (ref_count ex_cached_wrapper)).2 = true ∧
   cache_destroyable ex_cached ex_cached_wrapper) ∧
  ∃ s',
    ccl_wrapper_unref 1 ex_size (Some release_fields_nothing)
      (Some release_refused) (Some None) ex_cached
    = Some ((CL_TRUE,
             Some (Some (mkGError CCL_ERROR_OCL
                           (MsgReleaseObject CL_INVALID_VALUE)))), s') ∧
    trace s'
    = trace ex_cached
      ++ [EvReleaseCl ex_obj CL_INVALID_VALUE; EvInfoDestroy 2;
          EvInfoTableDestroy 1; EvWrappersRemove ex_obj; EvWrappersDestroy;
          EvReleaseFields 1; EvSliceFree ex_size 1] ∧
    world s' = tt.
Proof.
  assert (H1 : (1 : Z) ≠ NULL) by done.
  split.
  { split_and!; [done | reflexivity | reflexivity | reflexivity
                 | apply cache_destroyable_ex_cached]. }
  destruct (ccl_wrapper_unref_teardown_order ex_cached 1 ex_size
              (Some release_fields_nothing) (Some release_refused)
              (Some None) ex_cached_wrapper H1 eq_refl ex_cached_live eq_refl
              cache_destroyable_ex_cached)
    as (e & s' & Hrun & -> & Htr & Hworld & _).
  exists s'. split_and!; [exact Hrun | rewrite Htr; reflexivity |].
  by destruct (world s').
Defined.

(** Instance of C4: the release of the OpenCL object is refused. *)
Lemma ccl_wrapper_unref_release_error_witness :
  (1 ≠ NULL ∧ err_unset (Some None) = true ∧
   wrapper_mem ex_cached !! 1 = Some ex_cached_wrapper ∧
   (g_atomic_int_dec_and_test (ref_count ex_cached_wrapper)).2 = true ∧
   cache_destroyable ex_cached ex_cached_wrapper ∧
   (release_refused (world ex_cached) (cl_object ex_cached_wrapper)).2
   ≠ CL_SUCCESS) ∧
  ∃ s',
    ccl_wrapper_unref 1 ex_size None (Some release_refused) (Some None)
      ex_cached
    = Some ((CL_TRUE,
             Some (Some (mkGError CCL_ERROR_OCL
                           (MsgReleaseObject CL_INVALID_VALUE)))), s') ∧
    info_mem s' !! 2 = None ∧ wrappers_entry s' ex_obj = None ∧
    wrapper_mem s' !! 1 = None.
Proof.
  assert (H1 : (1 : Z) ≠ NULL) by done.
  assert (H2 : (release_refused (world ex_cached)
                  (cl_object ex_cached_wrapper)).2 ≠ CL_SUCCESS) by done.
  split.
  { split_and!; [done | reflexivity | reflexivity | reflexivity
                 | apply cache_destroyable_ex_cached | done]. }
  destruct (ccl_wrapper_unref_release_error ex_cached 1 ex_size None
              release_refused (Some None) ex_cached_wrapper H1 eq_refl
              ex_cached_live eq_refl cache_destroyable_ex_cached H2)
    as (s' & Hrun & _ & Hinfo & Hentry & _ & _ & _ & Hgone).
  exists s'. split; [exact Hrun|]. split_and!.
  - apply Hinfo. by apply list_elem_of_singleton.
  - exact Hentry.
  - exact Hgone.
Defined.

Lemma query_name_succeeds :
  ¬ query_fails query_name (cl_object ex_wrapper) None CL_DEVICE_NAME ex_fresh.
Proof. intros [H|[H|H]]; [by apply H | done | by apply H]. Qed.

Lemma caches_separate_ex_fresh : caches_separate ex_fresh.
Proof.
  assert (Hnone : ∀ p n i, ¬ cache_entry ex_fresh p n i).
  { intros p n i (w & t & Hw & Ht & _).
    replace (wrapper_mem ex_fresh) with ({[1 := ex_wrapper]} : gmap Z CCLWrapper)
      in Hw by reflexivity.
    apply lookup_singleton_Some in Hw as [_ <-]. done. }
  split.
  - intros p n i He. by destruct (Hnone _ _ _ He).
  - intros p n p' n' i He. by destruct (Hnone _ _ _ He).
Qed.

Lemma replaced_ex_cached_live :
  ∀ old, old ∈ replaced ex_cached_wrapper CL_DEVICE_NAME →
         is_Some (info_mem ex_cached !! old).
Proof.
  replace (replaced ex_cached_wrapper CL_DEVICE_NAME) with [2] by reflexivity.
  intros old Hin. apply list_elem_of_singleton in Hin as ->.
  exists (mkInfo 3 3 [x47; x50; x55]). reflexivity.
Qed.

Lemma query_name_sized :
  qr_status (probe query_name (cl_object ex_cached_wrapper) None
               CL_DEVICE_NAME ex_cached).2 = CL_SUCCESS ∧
  probed_size query_name (cl_object ex_cached_wrapper) None CL_DEVICE_NAME
    ex_cached ≠ 0.
Proof. split; [reflexivity | by vm_compute]. Qed.

(** Instance of C6: the name, already cached in [ex_cached], is queried
    again with [use_cache] false. *)
Lemma ccl_wrapper_get_info_forced_refresh_witness :
  (reachable ex_cached ∧ err_unset (Some None) = true ∧ 1 ≠ NULL ∧
   wrapper_mem ex_cached !! 1 = Some ex_cached_wrapper ∧
   second_of ex_cached NULL = Some None ∧
   ∀ old, old ∈ replaced ex_cached_wrapper CL_DEVICE_NAME →
          is_Some (info_mem ex_cached !! old)) ∧
  ∃ i e s',
    ccl_wrapper_get_info 1 NULL CL_DEVICE_NAME query_name CL_FALSE (Some None)
      ex_cached = Some ((i, e), s') ∧
    i ≠ NULL ∧ i ≠ 2 ∧
    info_mem s' !! 2 = None ∧
    info_mem s' !! i
    = Some (mkInfo (brk ex_cached + 1) 3 [x47; x50; x55]).
Proof.
  assert (H1 : (1 : Z) ≠ NULL) by done.
  split.
  { split_and!; [apply reachable_ex_cached | reflexivity | done | reflexivity
                 | reflexivity | apply replaced_ex_cached_live]. }
  destruct (ccl_wrapper_get_info_forced_refresh ex_cached 1 NULL
              CL_DEVICE_NAME query_name (Some None) ex_cached_wrapper None
              reachable_ex_cached eq_refl H1 ex_cached_live
              (second_of_null _) replaced_ex_cached_live)
    as (i & e & s' & tl & Hrun & _ & _ & _ & Hiff & Hnew).
  assert (Hi : i ≠ NULL).
  { apply Hiff. split; [apply query_name_sized | reflexivity]. }
  destruct (Hnew Hi) as (_ & Hfresh & Hlive & _ & Hold).
  exists i, e, s'. split_and!; [exact Hrun | exact Hi | | | exact Hlive].
  - intros ->. rewrite (proj2 (proj2 (ex_cached_info))) in Hfresh. done.
  - apply Hold. replace (replaced ex_cached_wrapper CL_DEVICE_NAME) with [2]
      by reflexivity.
    by apply list_elem_of_singleton.
Defined.

(** Counterexample to C6 as stated: with [use_cache] false and the size
    query refused, the value is never asked for. *)
Lemma ccl_wrapper_get_info_refused_no_fetch :
  ccl_wrapper_get_info 1 NULL CL_DEVICE_NAME query_refused CL_FALSE
    (Some None) ex_cached
  = Some ((NULL, ex_refused_error), ex_refresh_refused) ∧
  trace ex_refresh_refused
  = trace ex_cached ++ [probe_event ex_obj None CL_DEVICE_NAME] ∧
  ∀ sz v, fetch_event ex_obj None CL_DEVICE_NAME sz v
          ∉ [probe_event ex_obj None CL_DEVICE_NAME].
Proof.
  split_and!; [reflexivity | reflexivity |].
  intros sz v Hin. by apply list_elem_of_singleton in Hin.
Qed.

(** Instance of C7: the query of [ex_fresh] reports a size of zero. *)
Lemma ccl_wrapper_get_info_zero_size_witness :
  (err_unset (Some None) = true ∧ 1 ≠ NULL ∧
   wrapper_mem ex_fresh !! 1 = Some ex_wrapper ∧
   second_of ex_fresh NULL = Some None ∧
   negb CL_TRUE || negb (info_cached ex_wrapper CL_DEVICE_NAME) = true ∧
   probed_size query_empty (cl_object ex_wrapper) None CL_DEVICE_NAME ex_fresh
   = 0) ∧
  ∃ e s',
    ccl_wrapper_get_info 1 NULL CL_DEVICE_NAME query_empty CL_TRUE (Some None)
      ex_fresh = Some ((NULL, e), s') ∧
    e ≠ Some None ∧
    info_mem s' = info_mem ex_fresh ∧ wrapper_mem s' = wrapper_mem ex_fresh.
Proof.
  assert (H1 : (1 : Z) ≠ NULL) by done.
  split.
  { split_and!; [reflexivity | done | reflexivity..]. }
  destruct (ccl_wrapper_get_info_zero_size ex_fresh 1 NULL CL_DEVICE_NAME
              query_empty CL_TRUE (Some None) ex_wrapper None eq_refl H1
              ex_fresh_live (second_of_null _) eq_refl)
    as (Hzero & _ & _ & _).
  destruct (Hzero eq_refl) as (e & s' & Hrun & _ & He & _ & Hi & Hw & _).
  exists e, s'. split_and!; [exact Hrun | by apply He | exact Hi | exact Hw].
Defined.

(** Counterexample to C7 as stated: the state [ex_empty_info] is
    reachable, and there [ccl_wrapper_get_info] returns the empty
    information object of the cache, with no error set. *)
Lemma ccl_wrapper_get_info_returns_empty :
  reachable ex_empty_info ∧
  ccl_wrapper_get_info 1 NULL CL_DEVICE_NAME query_name CL_TRUE (Some None)
    ex_empty_info = Some ((2, Some None), ex_empty_info) ∧
  2 ≠ NULL ∧
  info_mem ex_empty_info !! 2 = Some (mkInfo NULL 0 []).
Proof.
  split_and!; [|reflexivity|done|reflexivity].
  apply (reachable_call (ex_after (ccl_wrapper_info_new 0) ex_fresh)
           (Call_add_info 1 CL_DEVICE_NAME 2)); [|reflexivity].
  apply (reachable_call ex_fresh (Call_info_new 0));
    [apply reachable_ex_fresh | reflexivity].
Qed.

(** Instance of C8: the state [ex_fresh], in which one wrapper is live. *)
Lemma ccl_wrapper_memcheck_no_wrapper_witness :
  reachable ex_fresh ∧
  ccl_wrapper_memcheck ex_fresh = Some (CL_FALSE, ex_fresh) ∧
  ∃ e s',
    ccl_wrapper_unref 1 ex_size None None None ex_fresh
    = Some ((CL_TRUE, e), s') ∧
    ccl_wrapper_memcheck s' = Some (CL_TRUE, s').
Proof.
  split; [apply reachable_ex_fresh|].
  destruct (ccl_wrapper_memcheck_no_wrapper ex_fresh reachable_ex_fresh)
    as (Hmc & _ & _ & Hlast).
  split; [exact Hmc|].
  destruct (Hlast 1 ex_wrapper ex_size None None None eq_refl eq_refl eq_refl
              (cache_destroyable_ex_fresh _))
    as (e & s' & Hrun & _ & _ & Hmc').
  by exists e, s'.
Defined.

Lemma query_refused_fails :
  query_fails query_refused (cl_object ex_cached_wrapper) None CL_DEVICE_NAME
    ex_cached.
Proof. by left. Qed.

(** Instance of C9: a refresh of the cached name is refused. *)
Lemma ccl_wrapper_get_info_failure_keeps_cache_witness :
  (reachable ex_cached ∧ err_unset (Some None) = true ∧ 1 ≠ NULL ∧
   wrapper_mem ex_cached !! 1 = Some ex_cached_wrapper ∧
   second_of ex_cached NULL = Some None ∧
   negb CL_FALSE || negb (info_cached ex_cached_wrapper CL_DEVICE_NAME)
   = true ∧
   query_fails query_refused (cl_object ex_cached_wrapper) None
     CL_DEVICE_NAME ex_cached) ∧
  ∃ e s',
    ccl_wrapper_get_info 1 NULL CL_DEVICE_NAME query_refused CL_FALSE
      (Some None) ex_cached = Some ((NULL, e), s') ∧
    wrapper_mem s' !! 1 = Some ex_cached_wrapper ∧
    info_mem s' !! 2 = Some (mkInfo 3 3 [x47; x50; x55]).
Proof.
  assert (H1 : (1 : Z) ≠ NULL) by done.
  split.
  { split_and!; [apply reachable_ex_cached | reflexivity | done
                 | reflexivity | reflexivity | reflexivity
                 | apply query_refused_fails]. }
  destruct (ccl_wrapper_get_info_failure_keeps_cache ex_cached 1 NULL
              CL_DEVICE_NAME query_refused CL_FALSE (Some None)
              ex_cached_wrapper None reachable_ex_cached eq_refl H1
              ex_cached_live (second_of_null _) eq_refl query_refused_fails)
    as (e & s' & Hrun & _ & _ & _ & Hw & Hi).
  exists e, s'. split_and!; [exact Hrun | |].
  - rewrite Hw. reflexivity.
  - apply Hi. reflexivity.
Defined.

Lemma reachable_by_queries_ex_cached : reachable_by_queries ex_cached.
Proof.
  apply (by_queries_call ex_fresh
           (Call_get_info 1 NULL CL_DEVICE_NAME query_name CL_TRUE (Some None)));
    [|reflexivity..].
  apply (by_queries_call (initial_state tt) (Call_new ex_obj ex_size));
    [|reflexivity..].
  apply by_queries_init.
Qed.

(** Instance of C10: value and size of the name cached in [ex_cached]. *)
Lemma ccl_wrapper_get_info_value_size_witness :
  reachable_by_queries ex_cached ∧
  ccl_wrapper_get_info_value 1 NULL CL_DEVICE_NAME query_name CL_TRUE
    (Some None) ex_cached = Some ((3, Some None), ex_cached) ∧
  ccl_wrapper_get_info_size 1 NULL CL_DEVICE_NAME query_name CL_TRUE
    (Some None) ex_cached = Some ((3, Some None), ex_cached).
Proof.
  split; [apply reachable_by_queries_ex_cached|].
  destruct (ccl_wrapper_get_info_value_size ex_cached 1 NULL CL_DEVICE_NAME
              query_name CL_TRUE (Some None)) as (Hv & Hs & _).
  split; [rewrite Hv | rewrite Hs]; reflexivity.
Defined.

(** Counterexample to C10 as stated: for the empty information object in
    the cache of [ex_empty_info] the inner call succeeds and returns the
    object, yet the value is [NULL] and the size is 0. *)
Lemma ccl_wrapper_get_info_empty_object :
  ccl_wrapper_get_info 1 NULL CL_DEVICE_NAME query_name CL_TRUE (Some None)
    ex_empty_info = Some ((2, Some None), ex_empty_info) ∧
  2 ≠ NULL ∧
  ccl_wrapper_get_info_value 1 NULL CL_DEVICE_NAME query_name CL_TRUE
    (Some None) ex_empty_info = Some ((NULL, Some None), ex_empty_info) ∧
  ccl_wrapper_get_info_size 1 NULL CL_DEVICE_NAME query_name CL_TRUE
    (Some None) ex_empty_info = Some ((0, Some None), ex_empty_info).
Proof. split_and!; [reflexivity | done | reflexivity | reflexivity]. Qed.

(** * The further theorems on the small process *)

Lemma ex_obj_not_null : ex_obj ≠ NULL.
Proof. done. Qed.

Lemma ccl_wrapper_new_unwrap_witness :
  (reachable (initial_state tt) ∧ ex_obj ≠ NULL) ∧
  ∃ p s',
    ccl_wrapper_new ex_obj ex_size (initial_state tt) = Some (p, s') ∧
    ccl_wrapper_unwrap p s' = Some (ex_obj, s') ∧
    ccl_wrapper_ref_count p s' = Some (1, s').
Proof.
  split; [split; [apply reachable_init | done]|].
  destruct (ccl_wrapper_new_unwrap (initial_state tt) ex_obj ex_size
              (reachable_init tt) ex_obj_not_null)
    as (p & s' & Hnew & _ & Hunwrap & Hfresh & _).
  exists p, s'. split_and!; [done | done |].
  apply Hfresh. apply lookup_empty.
Defined.

Lemma ccl_wrapper_unwrap_new_witness :
  (reachable ex_fresh ∧ wrapper_mem ex_fresh !! 1 = Some ex_wrapper) ∧
  ∃ s',
    ccl_wrapper_unwrap 1 ex_fresh = Some (ex_obj, ex_fresh) ∧
    ccl_wrapper_new ex_obj ex_size ex_fresh = Some (1, s') ∧
    ccl_wrapper_ref 1 ex_fresh = Some (tt, s').
Proof.
  split; [split; [apply reachable_ex_fresh | apply ex_fresh_live]|].
  destruct (ccl_wrapper_unwrap_new ex_fresh 1 ex_wrapper ex_size
              reachable_ex_fresh ex_fresh_live)
    as (obj & s' & Hunwrap & _ & Hnew & Href & _).
  assert (obj = ex_obj) as ->.
  { rewrite (ccl_wrapper_unwrap_run ex_fresh 1 ex_wrapper) in Hunwrap;
      [|done | apply ex_fresh_live].
    by injection Hunwrap as <-. }
  by exists s'.
Defined.

Lemma ccl_wrapper_new_same_object_witness :
  (reachable (initial_state tt) ∧ ex_obj ≠ NULL ∧ ex_other_obj ≠ NULL) ∧
  ∃ p1 s1 p2 s2,
    ccl_wrapper_new ex_obj ex_size (initial_state tt) = Some (p1, s1) ∧
    ccl_wrapper_new ex_other_obj ex_size s1 = Some (p2, s2) ∧
    p1 ≠ p2.
Proof.
  split; [split_and!; [apply reachable_init | done | done]|].
  destruct (ccl_wrapper_new_same_object (initial_state tt) ex_obj ex_size
              ex_other_obj ex_size (reachable_init tt))
    as (p1 & s1 & p2 & s2 & H1 & H2 & Hiff); [done | done |].
  exists p1, s1, p2, s2. split_and!; [done | done |].
  intros Heq. by apply Hiff in Heq.
Defined.

Lemma ccl_wrapper_new_unref_round_trip_witness :
  (reachable (initial_state tt) ∧ ex_obj ≠ NULL ∧
   wrappers_entry (initial_state tt) ex_obj = None ∧
   err_unset (Some None) = true) ∧
  ∃ p s1 e s2,
    ccl_wrapper_new ex_obj ex_size (initial_state tt) = Some (p, s1) ∧
    ccl_wrapper_unref p ex_size (Some release_fields_nothing)
      (Some release_refused) (Some None) s1 = Some ((CL_TRUE, e), s2) ∧
    wrappers s2 = None ∧ wrapper_mem s2 = ∅ ∧ info_mem s2 = ∅ ∧
    ccl_wrapper_memcheck s2 = Some (CL_TRUE, s2).
Proof.
  split; [split_and!; [apply reachable_init | done..]|].
  destruct (ccl_wrapper_new_unref_round_trip (initial_state tt) ex_obj
              ex_size ex_size (Some release_fields_nothing)
              (Some release_refused) (Some None) (reachable_init tt))
    as (p & s1 & s2 & Hnew & Hunref & Hws & Hwm & Him & _ & Hcheck);
    [done..|].
  eexists p, s1, _, s2.
  split_and!; [exact Hnew | exact Hunref | exact Hws | exact Hwm | exact Him |].
  rewrite Hcheck. by rewrite bool_decide_eq_true_2.
Defined.

Lemma ccl_wrapper_ref_unref_round_trip_witness :
  (reachable ex_fresh ∧ wrapper_mem ex_fresh !! 1 = Some ex_wrapper ∧
   ref_count ex_wrapper ≠ 0 ∧ err_unset None = true) ∧
  ∃ s1,
    ccl_wrapper_ref 1 ex_fresh = Some (tt, s1) ∧
    ccl_wrapper_unref 1 ex_size None None None s1
    = Some ((CL_FALSE, None), ex_fresh).
Proof.
  split; [split_and!; [apply reachable_ex_fresh | apply ex_fresh_live
                       | done | done]|].
  destruct (ccl_wrapper_ref_unref_round_trip ex_fresh 1 ex_wrapper ex_size
              None None None reachable_ex_fresh ex_fresh_live)
    as (s1 & Href & _ & Hunref); [done | done |].
  by exists s1.
Defined.

Lemma ccl_wrapper_new_after_destroy_witness :
  (reachable ex_cached ∧
   wrapper_mem ex_cached !! 1 = Some ex_cached_wrapper ∧
   ref_count ex_cached_wrapper = 1 ∧
   cache_destroyable ex_cached ex_cached_wrapper ∧
   err_unset None = true) ∧
  ∃ e s1 p' s2,
    ccl_wrapper_unref 1 ex_size None None None ex_cached
    = Some ((CL_TRUE, e), s1) ∧
    ccl_wrapper_new ex_obj ex_size s1 = Some (p', s2) ∧
    wrapper_mem s2 !! p' = Some (mkWrapper ex_obj None 1) ∧
    info_mem s2 !! 2 = None.
Proof.
  split; [split_and!; [apply reachable_ex_cached | apply ex_cached_live
                       | done | apply cache_destroyable_ex_cached | done]|].
  destruct (ccl_wrapper_new_after_destroy ex_cached 1 ex_cached_wrapper
              ex_size None None None ex_size reachable_ex_cached
              ex_cached_live eq_refl cache_destroyable_ex_cached eq_refl)
    as (e & s1 & p' & s2 & Hunref & Hnew & _ & Hw & _ & Hgone).
  exists e, s1, p', s2. split_and!; [exact Hunref | exact Hnew | exact Hw |].
  apply Hgone.
  replace (cache_infos (info ex_cached_wrapper)) with [2] by reflexivity.
  by apply list_elem_of_singleton.
Defined.

(** [ex_cached], all computed. *)
Lemma ex_cached_computed :
  ex_cached
  = mkState (Some {[ex_obj := 1]}) {[1 := ex_cached_wrapper]}
      {[2 := mkInfo 3 3 [x47; x50; x55]]} 4 tt
      [probe_event ex_obj None CL_DEVICE_NAME;
       fetch_event ex_obj None CL_DEVICE_NAME 3 3].
Proof. reflexivity. Qed.

Lemma ex_cached_paired :
  exec (Call_new ex_other_obj ex_size) ex_cached = Some (tt, ex_pair).
Proof. rewrite ex_cached_computed. reflexivity. Qed.

Lemma ex_pair_queried :
  exec (Call_get_info 4 NULL CL_DEVICE_VENDOR query_name CL_TRUE (Some None))
    ex_pair = Some (tt, ex_pair_cached).
Proof. reflexivity. Qed.

Lemma reachable_by_queries_ex_pair_cached :
  reachable_by_queries ex_pair_cached.
Proof.
  apply (by_queries_call ex_pair
           (Call_get_info 4 NULL CL_DEVICE_VENDOR query_name CL_TRUE
              (Some None))); [|reflexivity | apply ex_pair_queried].
  apply (by_queries_call ex_cached (Call_new ex_other_obj ex_size));
    [|reflexivity | apply ex_cached_paired].
  apply reachable_by_queries_ex_cached.
Qed.

Lemma ex_pair_cached_first :
  wrapper_mem ex_pair_cached !! 1 = Some ex_cached_wrapper.
Proof. reflexivity. Qed.

Lemma ex_pair_cached_second :
  wrapper_mem ex_pair_cached !! 4 = Some ex_other_wrapper ∧
  wrappers_entry ex_pair_cached ex_other_obj = Some 4 ∧
  info_mem ex_pair_cached !! 5 = Some (mkInfo 6 3 [x47; x50; x55]).
Proof. split_and!; reflexivity. Qed.

Lemma ex_pair_cached_entry :
  cache_entry ex_pair_cached 4 CL_DEVICE_VENDOR 5.
Proof.
  exists ex_other_wrapper, {[CL_DEVICE_VENDOR := 5]}.
  split_and!; [apply ex_pair_cached_second | done | apply lookup_singleton_eq].
Qed.

(** Instance of X7: of two wrappers, each with a cache, the first is
    destroyed; the second, its entry, its cache and the object it caches
    stay. *)
Lemma ccl_wrapper_unref_leaves_others_witness :
  (reachable ex_pair_cached ∧ caches_separate ex_pair_cached ∧
   wrapper_mem ex_pair_cached !! 1 = Some ex_cached_wrapper ∧
   ref_count ex_cached_wrapper = 1 ∧ err_unset None = true) ∧
  ∃ e s',
    ccl_wrapper_unref 1 ex_size None None None ex_pair_cached
    = Some ((CL_TRUE, e), s') ∧
    wrapper_mem s' !! 4 = Some ex_other_wrapper ∧
    wrappers_entry s' ex_other_obj = Some 4 ∧
    cache_entry s' 4 CL_DEVICE_VENDOR 5 ∧
    info_mem s' !! 5 = Some (mkInfo 6 3 [x47; x50; x55]).
Proof.
  pose proof (reachable_by_queries_reachable _
                reachable_by_queries_ex_pair_cached) as Hr.
  pose proof (proj1 (reachable_by_queries_caches _
                       reachable_by_queries_ex_pair_cached)) as Hsep.
  destruct ex_pair_cached_second as (Hw & Hentry & Hinfo).
  split; [split_and!; [exact Hr | exact Hsep | apply ex_pair_cached_first
                       | done | done]|].
  destruct (ccl_wrapper_unref_leaves_others ex_pair_cached 1
              ex_cached_wrapper ex_size None None None Hr Hsep
              ex_pair_cached_first eq_refl eq_refl)
    as (e & s' & Hunref & Hothers & Hentries & Hcaches & _).
  destruct (Hcaches 4 CL_DEVICE_VENDOR 5 ltac:(done) ex_pair_cached_entry)
    as [Hkept Hsame].
  exists e, s'. split_and!.
  - exact Hunref.
  - rewrite (Hothers 4) by done. exact Hw.
  - rewrite (Hentries ex_other_obj) by done. exact Hentry.
  - exact Hkept.
  - rewrite Hsame. exact Hinfo.
Defined.

Lemma ccl_wrapper_info_new_destroy_witness :
  (reachable (initial_state tt) ∧ 0 ≤ 3) ∧
  ∃ i b s1 s2,
    ccl_wrapper_info_new 3 (initial_state tt) = Some (i, s1) ∧
    info_mem s1 = {[i := b]} ∧ info_size b = 3 ∧ info_value b ≠ NULL ∧
    ccl_wrapper_info_destroy i s1 = Some (tt, s2) ∧ info_mem s2 = ∅ ∧
    ccl_wrapper_info_destroy i s2 = None.
Proof.
  split; [split; [apply reachable_init | lia]|].
  destruct (ccl_wrapper_info_new_destroy (initial_state tt) 3
              (reachable_init tt))
    as (i & b & s1 & s2 & Hnew & _ & _ & _ & Hmem & Hsz & _ & Hv & _ & Hd
        & Hmem2 & _ & _ & Hd2); [lia|].
  exists i, b, s1, s2. split_and!; try done.
  intros Hnull. apply Hv in Hnull. lia.
Defined.

Lemma ex_fresh_nothing_replaced n :
  ∀ old, old ∈ replaced ex_wrapper n → is_Some (info_mem ex_fresh !! old).
Proof. intros old Hin. by apply elem_of_nil in Hin. Qed.

Lemma ccl_wrapper_add_info_get_info_witness :
  (1 ≠ NULL ∧ 7 ≠ NULL ∧ wrapper_mem ex_fresh !! 1 = Some ex_wrapper ∧
   (∀ old, old ∈ replaced ex_wrapper CL_DEVICE_NAME →
           is_Some (info_mem ex_fresh !! old)) ∧
   err_unset (Some None) = true) ∧
  ∃ s1,
    ccl_wrapper_add_info 1 CL_DEVICE_NAME 7 ex_fresh = Some (tt, s1) ∧
    ccl_wrapper_get_info 1 NULL CL_DEVICE_NAME query_refused CL_TRUE
      (Some None) s1 = Some ((7, Some None), s1).
Proof.
  split; [split_and!; [done | done | apply ex_fresh_live
                       | apply ex_fresh_nothing_replaced | done]|].
  destruct (ccl_wrapper_add_info_get_info ex_fresh 1 CL_DEVICE_NAME 7
              ex_wrapper NULL query_refused (Some None))
    as (s1 & Hadd & Hget & _);
    [done | done | apply ex_fresh_live | apply ex_fresh_nothing_replaced
     | done |].
  by exists s1.
Defined.

Lemma ex_cached_entry : cache_entry ex_cached 1 CL_DEVICE_NAME 2.
Proof.
  exists ex_cached_wrapper, {[CL_DEVICE_NAME := 2]}.
  split_and!; [apply ex_cached_live | done | apply lookup_singleton_eq].
Qed.

Lemma ccl_wrapper_add_info_again_witness :
  (1 ≠ NULL ∧ 2 ≠ NULL ∧
   wrapper_mem ex_cached !! 1 = Some ex_cached_wrapper ∧
   cache_entry ex_cached 1 CL_DEVICE_NAME 2 ∧
   info_mem ex_cached !! 2 = Some (mkInfo 3 3 [x47; x50; x55]) ∧
   err_unset (Some None) = true) ∧
  ∃ s1,
    ccl_wrapper_add_info 1 CL_DEVICE_NAME 2 ex_cached = Some (tt, s1) ∧
    info_mem s1 !! 2 = None ∧
    ccl_wrapper_get_info 1 NULL CL_DEVICE_NAME query_name CL_TRUE
      (Some None) s1 = Some ((2, Some None), s1) ∧
    ccl_wrapper_get_info_value 1 NULL CL_DEVICE_NAME query_name CL_TRUE
      (Some None) s1 = None.
Proof.
  split; [split_and!; [done | done | apply ex_cached_live
                       | apply ex_cached_entry | apply ex_cached_info
                       | done]|].
  destruct (ccl_wrapper_add_info_again ex_cached 1 CL_DEVICE_NAME 2
              ex_cached_wrapper (mkInfo 3 3 [x47; x50; x55]) NULL query_name
              (Some None))
    as (s1 & Hadd & _ & Hgone & Hget & Hvalue & _);
    [done | done | apply ex_cached_live | apply ex_cached_entry
     | apply ex_cached_info | done |].
  by exists s1.
Defined.

Lemma query_value_refused_sized (s : state unit) obj :
  qr_status (probe query_value_refused obj None CL_DEVICE_NAME s).2
  = CL_SUCCESS ∧
  probed_size query_value_refused obj None CL_DEVICE_NAME s ≠ 0 ∧
  qr_status (fetch query_value_refused obj None CL_DEVICE_NAME s).2
  ≠ CL_SUCCESS.
Proof. split_and!; done. Qed.

Lemma ccl_wrapper_get_info_failed_fetch_leaks_witness :
  (reachable ex_fresh ∧ caches_separate ex_fresh ∧
   err_unset (Some None) = true ∧ 1 ≠ NULL ∧
   wrapper_mem ex_fresh !! 1 = Some ex_wrapper ∧
   second_of ex_fresh NULL = Some None ∧
   negb CL_TRUE || negb (info_cached ex_wrapper CL_DEVICE_NAME) = true ∧
   qr_status (probe query_value_refused (cl_object ex_wrapper) None
                CL_DEVICE_NAME ex_fresh).2 = CL_SUCCESS ∧
   probed_size query_value_refused (cl_object ex_wrapper) None CL_DEVICE_NAME
     ex_fresh ≠ 0 ∧
   qr_status (fetch query_value_refused (cl_object ex_wrapper) None
                CL_DEVICE_NAME ex_fresh).2 ≠ CL_SUCCESS) ∧
  ∃ e s',
    ccl_wrapper_get_info 1 NULL CL_DEVICE_NAME query_value_refused CL_TRUE
      (Some None) ex_fresh = Some ((NULL, e), s') ∧
    is_Some (info_mem s' !! brk ex_fresh) ∧
    ∀ p m, ¬ cache_entry s' p m (brk ex_fresh).
Proof.
  split.
  { split_and!; [apply reachable_ex_fresh | apply caches_separate_ex_fresh
                 | done | done | apply ex_fresh_live | done | done
                 | apply query_value_refused_sized..]. }
  destruct (ccl_wrapper_get_info_failed_fetch_leaks ex_fresh 1 NULL
              CL_DEVICE_NAME query_value_refused CL_TRUE (Some None)
              ex_wrapper None reachable_ex_fresh caches_separate_ex_fresh)
    as (e & s' & Hget & _ & _ & Hmem & _ & Hnone);
    [done | done | apply ex_fresh_live | done | done
     | apply query_value_refused_sized.. |].
  exists e, s'. split_and!; [done | | done].
  rewrite Hmem, lookup_insert_eq. by eexists.
Defined.

Lemma ccl_wrapper_memcheck_misses_leak_witness :
  (reachable (initial_state tt) ∧ ex_obj ≠ NULL ∧
   wrappers_entry (initial_state tt) ex_obj = None ∧
   err_unset (Some None) = true ∧ err_unset None = true ∧
   qr_status (probe query_value_refused ex_obj None CL_DEVICE_NAME
                (initial_state tt)).2 = CL_SUCCESS ∧
   probed_size query_value_refused ex_obj None CL_DEVICE_NAME
     (initial_state tt) ≠ 0 ∧
   qr_status (fetch query_value_refused ex_obj None CL_DEVICE_NAME
                (with_new_wrapper ex_obj (initial_state tt))).2
   ≠ CL_SUCCESS) ∧
  ∃ p s1 e s2 e' s3,
    ccl_wrapper_new ex_obj ex_size (initial_state tt) = Some (p, s1) ∧
    ccl_wrapper_get_info p NULL CL_DEVICE_NAME query_value_refused CL_TRUE
      (Some None) s1 = Some ((NULL, e), s2) ∧
    ccl_wrapper_unref p ex_size None None None s2
    = Some ((CL_TRUE, e'), s3) ∧
    ccl_wrapper_memcheck s3 = Some (CL_TRUE, s3) ∧
    is_Some (info_mem s3 !! 2).
Proof.
  split.
  { split_and!; [apply reachable_init | done | done | done | done
                 | apply query_value_refused_sized..]. }
  destruct (ccl_wrapper_memcheck_misses_leak (initial_state tt) ex_obj
              ex_size CL_DEVICE_NAME query_value_refused CL_TRUE (Some None)
              ex_size None None None (reachable_init tt))
    as (p & s1 & e & s2 & e' & s3 & b & Hnew & Hget & Hunref & _ & _
        & Hcheck & _ & Hmem);
    [done | done | done | done | apply query_value_refused_sized.. |].
  exists p, s1, e, s2, e', s3. split_and!; [done | done | done | done |].
  rewrite Hmem. change (brk (initial_state tt) + 1) with 2.
  rewrite lookup_insert_eq. by eexists.
Defined.

Lemma ccl_wrapper_get_info_null_iff_error_witness :
  (reachable ex_fresh ∧ caches_separate ex_fresh ∧
   err_unset (Some None) = true ∧
   wrapper_mem ex_fresh !! 1 = Some ex_wrapper ∧
   second_of ex_fresh NULL = Some None) ∧
  ∃ i e s',
    ccl_wrapper_get_info 1 NULL CL_DEVICE_NAME query_refused CL_TRUE
      (Some None) ex_fresh = Some ((i, e), s') ∧
    (i = NULL ↔ e ≠ Some None).
Proof.
  split; [split_and!; [apply reachable_ex_fresh | apply caches_separate_ex_fresh
                       | done | apply ex_fresh_live | done]|].
  destruct (ccl_wrapper_get_info_null_iff_error ex_fresh 1 NULL
              CL_DEVICE_NAME query_refused CL_TRUE (Some None) ex_wrapper
              None reachable_ex_fresh caches_separate_ex_fresh eq_refl
              ex_fresh_live eq_refl)
    as (i & e & s' & Hget & _ & _ & Hiff).
  exists i, e, s'. split; [done|]. by apply Hiff.
Defined.

Lemma ccl_wrapper_live_wellformed_witness :
  (reachable ex_cached ∧
   wrapper_mem ex_cached !! 1 = Some ex_cached_wrapper) ∧
  ∃ i, i ≠ NULL ∧
       ccl_wrapper_get_info 1 NULL CL_DEVICE_NAME query_refused CL_TRUE None
         ex_cached = Some ((i, None), ex_cached).
Proof.
  split; [split; [apply reachable_ex_cached | apply ex_cached_live]|].
  destruct (ccl_wrapper_live_wellformed ex_cached 1 ex_cached_wrapper
              reachable_ex_cached ex_cached_live)
    as (_ & _ & _ & Hhit).
  by apply (Hhit CL_DEVICE_NAME NULL query_refused None).
Defined.

Lemma ex_fresh_queried :
  exec (Call_get_info 1 NULL CL_DEVICE_NAME query_name CL_TRUE (Some None))
    ex_fresh = Some (tt, ex_cached).
Proof. reflexivity. Qed.

Lemma ccl_wrapper_cache_grows_witness :
  (reachable ex_fresh ∧
   exec (Call_get_info 1 NULL CL_DEVICE_NAME query_name CL_TRUE (Some None))
     ex_fresh = Some (tt, ex_cached) ∧
   wrapper_mem ex_fresh !! 1 = Some ex_wrapper ∧
   wrapper_mem ex_cached !! 1 = Some ex_cached_wrapper) ∧
  cl_object ex_cached_wrapper = cl_object ex_wrapper.
Proof.
  split; [split_and!; [apply reachable_ex_fresh | apply ex_fresh_queried
                       | apply ex_fresh_live | apply ex_cached_live]|].
  apply (ccl_wrapper_cache_grows ex_fresh _ ex_cached 1 ex_wrapper
           ex_cached_wrapper reachable_ex_fresh ex_fresh_queried
           ex_fresh_live ex_cached_live).
Defined.

Lemma ccl_wrapper_ref_count_after_refs_witness :
  (reachable ex_fresh ∧ wrapper_mem ex_fresh !! 1 = Some ex_wrapper) ∧
  ∃ s',
    run_rc 1 [Rc_ref; Rc_ref; Rc_ref] ex_fresh = Some ([], s') ∧
    ccl_wrapper_ref_count 1 s' = Some (4, s').
Proof.
  split; [split; [apply reachable_ex_fresh | apply ex_fresh_live]|].
  destruct (ccl_wrapper_ref_count_after_refs ex_fresh 1 ex_wrapper 3
              reachable_ex_fresh ex_fresh_live)
    as (s' & Hrun & Hcount & _).
  by exists s'.
Defined.


Lemma reachable_by_queries_ex_fresh : reachable_by_queries ex_fresh.
Proof.
  apply (by_queries_call (initial_state tt) (Call_new ex_obj ex_size));
    [|reflexivity..].
  apply by_queries_init.
Qed.

Lemma leak_free_ex_fresh : leak_free ex_fresh.
Proof.
  intros i b Hi. change (info_mem ex_fresh) with (∅ : gmap Z CCLWrapperInfo) in Hi.
  by rewrite lookup_empty in Hi.
Qed.

Lemma query_name_fetched :
  ¬ value_query_fails ex_fresh
      (Call_get_info 1 NULL CL_DEVICE_NAME query_name CL_TRUE (Some None)).
Proof. intros (w & obj2 & _ & _ & _ & _ & _ & Hf). by apply Hf. Qed.

Lemma ccl_wrapper_only_leak_witness :
  (reachable_by_queries ex_fresh ∧ leak_free ex_fresh ∧
   leaves_caches
     (Call_get_info 1 NULL CL_DEVICE_NAME query_name CL_TRUE (Some None))
   = true ∧
   exec (Call_get_info 1 NULL CL_DEVICE_NAME query_name CL_TRUE (Some None))
     ex_fresh = Some (tt, ex_cached) ∧
   ¬ value_query_fails ex_fresh
       (Call_get_info 1 NULL CL_DEVICE_NAME query_name CL_TRUE (Some None))) ∧
  leak_free ex_cached.
Proof.
  split; [split_and!; [apply reachable_by_queries_ex_fresh
                       | apply leak_free_ex_fresh | done
                       | apply ex_fresh_queried | apply query_name_fetched]|].
  apply (ccl_wrapper_only_leak ex_fresh
           (Call_get_info 1 NULL CL_DEVICE_NAME query_name CL_TRUE (Some None))
           ex_cached reachable_by_queries_ex_fresh leak_free_ex_fresh eq_refl
           ex_fresh_queried query_name_fetched).
Defined.

Lemma ccl_wrapper_unref_defined_iff_witness :
  (1 ≠ NULL ∧ wrapper_mem ex_cached !! 1 = Some ex_cached_wrapper ∧
   ref_count ex_cached_wrapper = 1 ∧ err_unset (Some None) = true) ∧
  is_Some (ccl_wrapper_unref 1 ex_size None (Some release_refused)
             (Some None) ex_cached).
Proof.
  split; [split_and!; [done | apply ex_cached_live | done | done]|].
  apply (proj2 (ccl_wrapper_unref_defined_iff ex_cached 1 ex_cached_wrapper
                  ex_size None (Some release_refused) (Some None)
                  ltac:(done) ex_cached_live eq_refl eq_refl)).
  apply cache_destroyable_ex_cached.
Defined.

Lemma ex_fresh_name_queried :
  ccl_wrapper_get_info 1 NULL CL_DEVICE_NAME query_name CL_TRUE (Some None)
    ex_fresh = Some ((2, Some None), ex_cached).
Proof. reflexivity. Qed.

(** From [ex_cached], where the first wrapper caches the name: a wrapper is
    made for another object and the vendor is queried on it; the first
    wrapper gets a reference, the value of the name is asked for with
    [use_cache] true, and the reference is given back. *)
Lemma undisturbed_ex_pair_cached :
  undisturbed 1 CL_DEVICE_NAME 2 ex_cached ex_pair_cached.
Proof.
  apply (undisturbed_call _ _ _ ex_cached (Call_new ex_other_obj ex_size)
           ex_pair);
    [by intros [] | apply ex_cached_paired | by eexists |].
  apply (undisturbed_call _ _ _ ex_pair
           (Call_get_info 4 NULL CL_DEVICE_VENDOR query_name CL_TRUE
              (Some None)) ex_pair_cached);
    [by intros (? & _) | apply ex_pair_queried | by eexists |].
  apply (undisturbed_call _ _ _ ex_pair_cached (Call_ref 1) ex_pair_ref);
    [by intros [] | reflexivity | by eexists |].
  apply (undisturbed_call _ _ _ ex_pair_ref
           (Call_get_info_value 1 NULL CL_DEVICE_NAME query_refused CL_TRUE
              None) ex_pair_ref);
    [by intros (_ & _ & ?) | reflexivity | by eexists |].
  apply (undisturbed_call _ _ _ ex_pair_ref
           (Call_unref 1 ex_size None None None) ex_pair_cached);
    [by intros [] | reflexivity | by eexists |].
  apply undisturbed_refl.
Qed.

(** Instance of C5: the name is queried on [ex_fresh]; the process goes on
    as in [undisturbed_ex_pair_cached]; then the name is queried again,
    with another query function and a second wrapper. *)
Lemma ccl_wrapper_get_info_cache_round_trip_witness :
  (reachable ex_fresh ∧ caches_separate ex_fresh ∧
   err_unset (Some None) = true ∧
   wrapper_mem ex_fresh !! 1 = Some ex_wrapper ∧
   second_of ex_fresh NULL = Some None ∧
   (info_cached ex_wrapper CL_DEVICE_NAME = true ∨
    ¬ query_fails query_name (cl_object ex_wrapper) None CL_DEVICE_NAME
        ex_fresh) ∧
   undisturbed 1 CL_DEVICE_NAME 2 ex_cached ex_pair_cached ∧
   err_unset None = true) ∧
  ccl_wrapper_get_info 1 NULL CL_DEVICE_NAME query_name CL_TRUE (Some None)
    ex_fresh = Some ((2, Some None), ex_cached) ∧
  ccl_wrapper_get_info 1 4 CL_DEVICE_NAME query_refused CL_TRUE None
    ex_pair_cached = Some ((2, None), ex_pair_cached) ∧
  info_mem ex_pair_cached !! 2 = info_mem ex_cached !! 2 ∧
  queries_of ex_obj CL_DEVICE_NAME (trace ex_pair_cached)
  = queries_of ex_obj CL_DEVICE_NAME (trace ex_cached).
Proof.
  split.
  { split_and!; [apply reachable_ex_fresh | apply caches_separate_ex_fresh
                 | reflexivity | reflexivity | reflexivity
                 | right; apply query_name_succeeds
                 | apply undisturbed_ex_pair_cached | reflexivity]. }
  destruct (ccl_wrapper_get_info_cache_round_trip ex_fresh 1 NULL
              CL_DEVICE_NAME query_name (Some None) ex_wrapper None
              reachable_ex_fresh caches_separate_ex_fresh eq_refl
              ex_fresh_live (second_of_null _)
              (or_intror query_name_succeeds))
    as (i & s1 & Hfirst & _ & _ & _ & Hlater).
  pose proof Hfirst as Heq. rewrite ex_fresh_name_queried in Heq.
  injection Heq as <- <-.
  destruct (Hlater ex_pair_cached 4 query_refused None
              undisturbed_ex_pair_cached eq_refl) as (Hsecond & Hsame & Hq).
  split_and!; assumption.
Defined.

(** Counterexample to C5 as stated.  When the query is refused nothing is
    cached, so the second of two calls with [use_cache] true queries again
    and the query function is called twice in total.  And when the first
    call succeeded, with no call with [use_cache] false for the name in
    between:
    - after the caller gave the name another value with
      [ccl_wrapper_add_info], the second call returns that object, and
      the one the first call returned is gone;
    - after the caller destroyed the object, the second call returns the
      address of an object that is gone;
    - so it does after the caller put the object in the cache of another
      wrapper as well and a query with [use_cache] false replaced it
      there, although the calls with [use_cache] true before that query
      returned it live;
    - after the wrapper was destroyed the second call is undefined. *)
Lemma ccl_wrapper_get_info_round_trip_fails :
  (∃ s2,
    ccl_wrapper_get_info 1 NULL CL_DEVICE_NAME query_refused CL_TRUE
      (Some None) ex_fresh = Some ((NULL, ex_refused_error), ex_refused) ∧
    ccl_wrapper_get_info 1 NULL CL_DEVICE_NAME query_refused CL_TRUE
      (Some None) ex_refused = Some ((NULL, ex_refused_error), s2) ∧
    trace ex_refused = [probe_event ex_obj None CL_DEVICE_NAME] ∧
    trace s2 = [probe_event ex_obj None CL_DEVICE_NAME;
                probe_event ex_obj None CL_DEVICE_NAME]) ∧
  ccl_wrapper_get_info 1 NULL CL_DEVICE_NAME query_name CL_TRUE (Some None)
    ex_fresh = Some ((2, Some None), ex_cached) ∧
  info_mem ex_cached !! 2 = Some (mkInfo 3 3 [x47; x50; x55]) ∧
  (run_calls [Call_info_new 3; Call_add_info 1 CL_DEVICE_NAME 4] ex_cached
   = Some (tt, ex_replaced) ∧
   ccl_wrapper_get_info 1 NULL CL_DEVICE_NAME query_name CL_TRUE (Some None)
     ex_replaced = Some ((4, Some None), ex_replaced) ∧
   info_mem ex_replaced !! 4 = Some (mkInfo 5 3 [x00; x00; x00]) ∧
   info_mem ex_replaced !! 2 = None) ∧
  (exec (Call_info_destroy 2) ex_cached = Some (tt, ex_destroyed) ∧
   ccl_wrapper_get_info 1 NULL CL_DEVICE_NAME query_name CL_TRUE (Some None)
     ex_destroyed = Some ((2, Some None), ex_destroyed) ∧
   info_mem ex_destroyed !! 2 = None) ∧
  (run_calls [Call_new ex_other_obj ex_size;
              Call_add_info 4 CL_DEVICE_VENDOR 2] ex_cached
   = Some (tt, ex_shared) ∧
   ccl_wrapper_get_info 1 NULL CL_DEVICE_NAME query_name CL_TRUE (Some None)
     ex_shared = Some ((2, Some None), ex_shared) ∧
   info_mem ex_shared !! 2 = Some (mkInfo 3 3 [x47; x50; x55]) ∧
   exec (Call_get_info 4 NULL CL_DEVICE_VENDOR query_name CL_FALSE
           (Some None)) ex_shared = Some (tt, ex_shared_refreshed) ∧
   ccl_wrapper_get_info 1 NULL CL_DEVICE_NAME query_name CL_TRUE (Some None)
     ex_shared_refreshed = Some ((2, Some None), ex_shared_refreshed) ∧
   info_mem ex_shared_refreshed !! 2 = None) ∧
  (exec (Call_unref 1 ex_size None None None) ex_cached = Some (tt, ex_torn) ∧
   ccl_wrapper_get_info 1 NULL CL_DEVICE_NAME query_name CL_TRUE (Some None)
     ex_torn = None).
Proof.
  split.
  { exists (ex_after (ccl_wrapper_get_info 1 NULL CL_DEVICE_NAME query_refused
                        CL_TRUE (Some None)) ex_refused).
    split_and!; reflexivity. }
  split_and!; by vm_compute.
Qed.
